(** * xiaozhi-web-client: the WebSocket audio proxy (proxy.py)

    A shallow embedding of [proxy.py]: the WAV header builder, the
    [AudioProcessor] chunker, and the two message pumps of
    [WebSocketProxy], followed by the properties of the relay that the
    specification states.

    Conventions of the embedding.
    - Python [bytes]/[bytearray] are [list byte]; Python [int] is [Z].
    - A float32 sample is kept as its four bytes; the only arithmetic the
      proxy does on samples, [(x * 32767).astype(np.int16)], belongs to
      numpy and is a parameter.
    - [json.loads], the Opus decoder and the Opus encoder are external
      libraries: they are parameters of the development.
    - Python exceptions are an explicit outcome of a small state, trace and
      exception monad; mutations made before a [raise] persist, as in
      Python.
    - [await ws.send(x)] appends to the trace of the handler; transport
      failures of a send are outside the model. *)

From Stdlib Require Import ZArith Lia List Bool.
From Stdlib.Strings Require Import String Ascii Byte.
From stdpp Require Import base list strings gmap.

Set Warnings "-register-all".

Local Open Scope Z_scope.

(** ** Bytes, slices and integers *)

Abbreviation bytes := (list byte).

Definition byte_of_Z (z : Z) : byte :=
  match Byte.of_N (Z.to_N (z mod 256)) with
  | Some b => b
  | None => x00
  end.

Definition Z_of_byte (b : byte) : Z := Z.of_N (Byte.to_N b).

(** [int.to_bytes(length, 'little')] without its range check. *)
Fixpoint le_bytes (len : nat) (n : Z) : bytes :=
  match len with
  | O => []
  | S k => byte_of_Z (n mod 256) :: le_bytes k (n / 256)
  end.

(** [int.from_bytes(bs, 'little')]. *)
Fixpoint le_value (bs : bytes) : Z :=
  match bs with
  | [] => 0
  | b :: r => Z_of_byte b + 256 * le_value r
  end.

(** [len(b)] *)
Definition len {A} (b : list A) : Z := Z.of_nat (length b).

(** [b[i:j]] for non-negative indices. *)
Definition slice (i j : nat) (b : bytes) : bytes := take (j - i) (drop i b).

(** [b[i:j] = v] on a bytearray, for non-negative indices [i <= j]. *)
Definition slice_assign (i j : nat) (v b : bytes) : bytes :=
  take i b ++ v ++ drop j b.

(** ASCII literals such as [b'RIFF']. *)
Definition ascii_bytes (s : string) : bytes := list_byte_of_string s.

(** ** Exceptions *)

Inductive exn : Set :=
| JSONDecodeError
| AttributeError
| ValueError
| OverflowError
| OpusError.

(** The outcome of running a piece of Python: a value, a raised exception,
    or a loop that never exits. *)
Inductive outcome (A : Type) : Type :=
| Ok (a : A)
| Raise (e : exn)
| Loops.
Arguments Ok {A} a.
Arguments Raise {A} e.
Arguments Loops {A}.

(** [n.to_bytes(length, 'little')]: OverflowError when [n] is negative or
    does not fit. *)
Definition to_bytes (n : Z) (len : nat) : outcome bytes :=
  if (0 <=? n) && (n <? 256 ^ Z.of_nat len)
  then Ok (le_bytes len n)
  else Raise OverflowError.

(** ** JSON values, as [json.loads] returns them *)

Inductive json : Type :=
| JNull
| JBool (b : bool)
| JNum (lexeme : string)
| JStr (s : string)
| JArr (items : list json)
| JObj (fields : gmap string json).

(** [msg_data.get(key)]: only a dict has [get]; Python's [None] for a
    missing key is [None] here. *)
Definition py_get (v : json) (key : string) : outcome (option json) :=
  match v with
  | JObj fields => Ok (fields !! key)
  | _ => Raise AttributeError
  end.

(** [x == 'literal'] for the result of a [get]. *)
Definition eq_str (v : option json) (lit : string) : bool :=
  match v with
  | Some (JStr s) => bool_decide (s = lit)
  | _ => false
  end.

(** ** numpy arrays of samples *)

(** A float32 sample, as the four bytes it occupies in the frame. *)
Definition float32 : Type := byte * byte * byte * byte.

(** [np.frombuffer(data, dtype=np.float32)]: ValueError ([None]) unless the
    length is a multiple of the element size. *)
Fixpoint frombuffer_float32 (data : bytes) : option (list float32) :=
  match data with
  | [] => Some []
  | a :: b :: c :: d :: rest =>
      match frombuffer_float32 rest with
      | Some l => Some ((a, b, c, d) :: l)
      | None => None
      end
  | _ => None
  end.

Definition float32_bytes (x : float32) : bytes :=
  let '(a, b, c, d) := x in [a; b; c; d].

(** [arr.tobytes()] of a float32 array. *)
Definition tobytes_float32 (arr : list float32) : bytes :=
  concat (map float32_bytes arr).

(** An int16 sample is its value; in memory it is two bytes, little-endian
    two's complement. *)
Definition int16_bytes (z : Z) : bytes := le_bytes 2 (z mod 65536).

Definition int16_of_bytes (lo hi : byte) : Z :=
  let u := Z_of_byte lo + 256 * Z_of_byte hi in
  if u <? 32768 then u else u - 65536.

(** [arr.tobytes()] of an int16 array. *)
Definition tobytes_int16 (arr : list Z) : bytes :=
  concat (map int16_bytes arr).

(** [np.frombuffer(data, dtype=np.int16)]. *)
Fixpoint frombuffer_int16 (data : bytes) : option (list Z) :=
  match data with
  | [] => Some []
  | lo :: hi :: rest =>
      match frombuffer_int16 rest with
      | Some l => Some (int16_of_bytes lo hi :: l)
      | None => None
      end
  | _ => None
  end.

(** ** The external libraries *)

Record Libs : Type := {
  (** [json.loads]; [None] is JSONDecodeError. *)
  json_loads : string -> option json;
  (** the state inside an [opuslib.Decoder] *)
  codec : Type;
  (** the state of a new [opuslib.Decoder(16000, 1)] *)
  codec_init : codec;
  (** [decoder.decode(message, 960)]: the decoder afterwards and the PCM
      bytes, or [None] when it raises *)
  codec_decode : codec -> bytes -> codec * option bytes;
  (** [opuslib.Encoder(16000, 1, 'voip').encode(data, 960)] on a new
      encoder; [None] when the construction or the call raises *)
  codec_encode : bytes -> option bytes;
  (** one element of [(chunk * 32767).astype(np.int16)] *)
  scale_int16 : float32 -> Z
}.

(** ** The WAV header *)

Definition create_wav_header (total_samples : Z) : outcome bytes :=
  let header := repeat x00 44 in
  let header := slice_assign 0 4 (ascii_bytes "RIFF") header in
  match to_bytes (total_samples * 2 + 36) 4 with
  | Ok file_size =>
      let header := slice_assign 4 8 file_size header in
      let header := slice_assign 8 12 (ascii_bytes "WAVE") header in
      let header := slice_assign 12 16 (ascii_bytes "fmt ") header in
      let header := slice_assign 16 20 (le_bytes 4 16) header in
      let header := slice_assign 20 22 (le_bytes 2 1) header in
      let header := slice_assign 22 24 (le_bytes 2 1) header in
      let header := slice_assign 24 28 (le_bytes 4 16000) header in
      let header := slice_assign 28 32 (le_bytes 4 32000) header in
      let header := slice_assign 32 34 (le_bytes 2 2) header in
      let header := slice_assign 34 36 (le_bytes 2 16) header in
      let header := slice_assign 36 40 (ascii_bytes "data") header in
      match to_bytes (total_samples * 2) 4 with
      | Ok data_size => Ok (slice_assign 40 44 data_size header)
      | Raise e => Raise e
      | Loops => Loops
      end
  | Raise e => Raise e
  | Loops => Loops
  end.

(** ** The chunker: [class AudioProcessor] *)

Record AudioProcessor : Type := {
  buffer_size : nat;
  buffer : list float32;
  sample_rate : Z
}.

(** [AudioProcessor(buffer_size)] *)
Definition AudioProcessor_init (size : nat) : AudioProcessor :=
  {| buffer_size := size; buffer := []; sample_rate := 16000 |}.

Definition with_buffer (buf : list float32) (ap : AudioProcessor) : AudioProcessor :=
  {| buffer_size := buffer_size ap; buffer := buf; sample_rate := sample_rate ap |}.

Definition reset_buffer (ap : AudioProcessor) : AudioProcessor :=
  with_buffer [] ap.

Section Chunker.
Variable L : Libs.

(** [(chunk * 32767).astype(np.int16).tobytes()] *)
Definition to_pcm (chunk : list float32) : bytes :=
  tobytes_int16 (map (scale_int16 L) chunk).

(** The [while len(self.buffer) >= self.buffer_size] loop. Each round needs
    one unit of fuel; [None] is a loop that has not exited. *)
Fixpoint process_loop (fuel size : nat) (buf : list float32) (chunks : list bytes)
  : option (list bytes * list float32) :=
  if (size <=? length buf)%nat then
    match fuel with
    | O => None
    | S fuel' =>
        process_loop fuel' size (drop size buf) (chunks ++ [to_pcm (take size buf)])
    end
  else Some (chunks, buf).

(** [process_audio]: the result and the processor afterwards. The loop is
    given more fuel than it can use when [buffer_size] is positive; with
    [buffer_size = 0] the Python loop never exits. *)
Definition process_audio (ap : AudioProcessor) (input_data : bytes)
  : outcome (list bytes) * AudioProcessor :=
  match frombuffer_float32 input_data with
  | None => (Raise ValueError, ap)
  | Some input_array =>
      let buf := buffer ap ++ input_array in
      match process_loop (S (length buf)) (buffer_size ap) buf [] with
      | Some (chunks, rest) => (Ok chunks, with_buffer rest ap)
      | None => (Loops, with_buffer buf ap)
      end
  end.

Definition process_remaining (ap : AudioProcessor) : list bytes * AudioProcessor :=
  if (0 <? length (buffer ap))%nat
  then ([to_pcm (buffer ap)], with_buffer [] ap)
  else ([], ap).

(** [pcm_to_opus]: every exception ends in [return None]. *)
Definition pcm_to_opus (pcm_data : bytes) : option bytes :=
  match frombuffer_int16 pcm_data with
  | Some pcm_array => codec_encode L (tobytes_int16 pcm_array)
  | None => None
  end.
End Chunker.

(** ** The proxy object: [class WebSocketProxy] *)

(** An [opuslib.Decoder] object: which object it is, and the codec state
    inside it. *)
Record Decoder (C : Type) : Type := {
  handle : nat;
  dstate : C
}.
Arguments handle {C} d.
Arguments dstate {C} d.

Record WebSocketProxy (C : Type) : Type := {
  device_id : string;
  client_id : string;
  enable_token : bool;
  token : string;
  headers : gmap string string;
  audio_processor : AudioProcessor;
  decoder : Decoder C;
  audio_buffer : bytes;
  is_first_audio : bool;
  total_samples : Z
}.
Arguments device_id {C} w.
Arguments client_id {C} w.
Arguments enable_token {C} w.
Arguments token {C} w.
Arguments headers {C} w.
Arguments audio_processor {C} w.
Arguments decoder {C} w.
Arguments audio_buffer {C} w.
Arguments is_first_audio {C} w.
Arguments total_samples {C} w.

(** The interpreter state a handler runs in: the proxy object and the number
    of decoder objects constructed so far (the next free handle). *)
Record world (C : Type) : Type := {
  self : WebSocketProxy C;
  decoders_made : nat
}.
Arguments self {C} w.
Arguments decoders_made {C} w.

(** A WebSocket message: [str] or [bytes]. *)
Inductive frame : Type :=
| Text (s : string)
| Binary (b : bytes).

(** What a handler does to the outside, in order. [Encode] records a call of
    [pcm_to_opus]; [print] calls are left out. *)
Inductive action : Type :=
| ClientSend (m : frame)
| ServerSend (m : frame)
| Encode (pcm : bytes)
| Sleep.

(** The ASCII quotation mark. *)
Definition dq : string := String "034"%char EmptyString.

(** [json.dumps({'type': 'lastData'})] *)
Definition lastData_text : string :=
  ("{" ++ dq ++ "type" ++ dq ++ ": " ++ dq ++ "lastData" ++ dq ++ "}")%string.

Section Setters.
Context {C : Type}.

Definition set_audio_processor (ap : AudioProcessor) (p : WebSocketProxy C) :=
  {| device_id := device_id p; client_id := client_id p;
     enable_token := enable_token p; token := token p; headers := headers p;
     audio_processor := ap; decoder := decoder p;
     audio_buffer := audio_buffer p; is_first_audio := is_first_audio p;
     total_samples := total_samples p |}.

Definition set_decoder (d : Decoder C) (p : WebSocketProxy C) :=
  {| device_id := device_id p; client_id := client_id p;
     enable_token := enable_token p; token := token p; headers := headers p;
     audio_processor := audio_processor p; decoder := d;
     audio_buffer := audio_buffer p; is_first_audio := is_first_audio p;
     total_samples := total_samples p |}.

Definition set_audio_buffer (b : bytes) (p : WebSocketProxy C) :=
  {| device_id := device_id p; client_id := client_id p;
     enable_token := enable_token p; token := token p; headers := headers p;
     audio_processor := audio_processor p; decoder := decoder p;
     audio_buffer := b; is_first_audio := is_first_audio p;
     total_samples := total_samples p |}.

Definition set_is_first_audio (f : bool) (p : WebSocketProxy C) :=
  {| device_id := device_id p; client_id := client_id p;
     enable_token := enable_token p; token := token p; headers := headers p;
     audio_processor := audio_processor p; decoder := decoder p;
     audio_buffer := audio_buffer p; is_first_audio := f;
     total_samples := total_samples p |}.

Definition set_total_samples (n : Z) (p : WebSocketProxy C) :=
  {| device_id := device_id p; client_id := client_id p;
     enable_token := enable_token p; token := token p; headers := headers p;
     audio_processor := audio_processor p; decoder := decoder p;
     audio_buffer := audio_buffer p; is_first_audio := is_first_audio p;
     total_samples := n |}.
End Setters.

(** ** The handler monad: state, trace and exceptions *)

Definition M (C A : Type) : Type := world C -> outcome A * world C * list action.

Section Monad.
Context {C : Type}.

Definition ret {A} (a : A) : M C A := fun w => (Ok a, w, []).

Definition bind {A B} (m : M C A) (k : A -> M C B) : M C B := fun w =>
  match m w with
  | (Ok a, w1, t1) => let '(r, w2, t2) := k a w1 in (r, w2, t1 ++ t2)
  | (Raise e, w1, t1) => (Raise e, w1, t1)
  | (Loops, w1, t1) => (Loops, w1, t1)
  end.

Definition raise {A} (e : exn) : M C A := fun w => (Raise e, w, []).

Definition diverge {A} : M C A := fun w => (Loops, w, []).

(** An outcome computed without touching the state. *)
Definition lift {A} (o : outcome A) : M C A := fun w => (o, w, []).

(** [try: m except ...: h e]; [h e = None] when no clause matches [e]. *)
Definition try_except {A} (m : M C A) (h : exn -> option (M C A)) : M C A := fun w =>
  match m w with
  | (Raise e, w1, t1) =>
      match h e with
      | Some k => let '(r, w2, t2) := k w1 in (r, w2, t1 ++ t2)
      | None => (Raise e, w1, t1)
      end
  | r => r
  end.

Definition get_self : M C (WebSocketProxy C) := fun w => (Ok (self w), w, []).

Definition update (f : WebSocketProxy C -> WebSocketProxy C) : M C unit := fun w =>
  (Ok tt, {| self := f (self w); decoders_made := decoders_made w |}, []).

Definition emit (a : action) : M C unit := fun w => (Ok tt, w, [a]).

(** [for x in xs: body x] *)
Fixpoint for_each {A} (xs : list A) (body : A -> M C unit) : M C unit :=
  match xs with
  | [] => ret tt
  | x :: rest => bind (body x) (fun _ => for_each rest body)
  end.
End Monad.

Notation "x <- m ;; k" := (bind m (fun x => k))
  (at level 100, m at next level, right associativity).
Notation "m ;;; k" := (bind m (fun _ => k))
  (at level 100, right associativity).

(** [except json.JSONDecodeError] *)
Definition only_JSONDecodeError {T} (k : T) (e : exn) : option T :=
  match e with JSONDecodeError => Some k | _ => None end.

(** [except Exception] *)
Definition any_Exception {T} (k : T) (e : exn) : option T := Some k.

Section Pumps.
Variable L : Libs.
Local Abbreviation C := (codec L).

(** [opuslib.Decoder(16000, 1)]: a new object with a new handle. *)
Definition new_decoder : M C (Decoder C) := fun w =>
  (Ok {| handle := decoders_made w; dstate := codec_init L |},
   {| self := self w; decoders_made := S (decoders_made w) |}, []).

(** [WebSocketProxy()]; the four arguments are what [get_mac_address()],
    [get_client_id()] and the two [os.getenv] calls return. *)
Definition WebSocketProxy_init (mac cid : string) (enable : bool) (tok : string)
  : world C :=
  let h : gmap string string :=
    <["Protocol-Version" := "1"%string]>
      (<["Client-Id" := cid]> (<["Device-Id" := mac]> ∅)) in
  {| self :=
       {| device_id := mac; client_id := cid; enable_token := enable; token := tok;
          headers := if enable
                     then <["Authorization" := ("Bearer " ++ tok)%string]> h
                     else h;
          audio_processor := AudioProcessor_init 960;
          decoder := {| handle := 0%nat; dstate := codec_init L |};
          audio_buffer := [];
          is_first_audio := true;
          total_samples := 0 |};
     decoders_made := 1%nat |}.

(** [json.loads(message)] *)
Definition loads (message : string) : M C json :=
  match json_loads L message with
  | Some v => ret v
  | None => raise JSONDecodeError
  end.

(** [msg_data.get('type') == 'tts' and msg_data.get('state') == st] *)
Definition is_tts (msg_data : json) (st : string) : M C bool :=
  t <- lift (py_get msg_data "type") ;;
  if eq_str t "tts"
  then (s <- lift (py_get msg_data "state") ;; ret (eq_str s st))
  else ret false.

(** The header patch and the send that the three flush sites share:
    [size_bytes = ...; data_bytes = ...; self.audio_buffer[4:8] = size_bytes;
     self.audio_buffer[40:44] = data_bytes;
     await client_ws.send(bytes(self.audio_buffer))]. *)
Definition patch_and_send : M C unit :=
  p <- get_self ;;
  size_bytes <- lift (to_bytes (total_samples p * 2 + 36) 4) ;;
  data_bytes <- lift (to_bytes (total_samples p * 2) 4) ;;
  update (fun p => set_audio_buffer (slice_assign 4 8 size_bytes (audio_buffer p)) p) ;;;
  update (fun p => set_audio_buffer (slice_assign 40 44 data_bytes (audio_buffer p)) p) ;;;
  p <- get_self ;;
  emit (ClientSend (Binary (audio_buffer p))).

(** [self.audio_buffer = bytearray(); self.is_first_audio = True;
     self.total_samples = 0] *)
Definition reset_audio : M C unit :=
  update (set_audio_buffer []) ;;;
  update (set_is_first_audio true) ;;;
  update (set_total_samples 0).

(** The same, followed by [self.decoder = opuslib.Decoder(16000, 1)]. *)
Definition reset_state : M C unit :=
  reset_audio ;;;
  d <- new_decoder ;;
  update (set_decoder d).

(** The [str] branch of the loop body of [handle_server_messages]. *)
Definition handle_server_text (message : string) : M C unit :=
  try_except
    (msg_data <- loads message ;;
     start <- is_tts msg_data "start" ;;
     (if start then
        p <- get_self ;;
        (if 44 <? len (audio_buffer p) then patch_and_send else ret tt) ;;;
        reset_state
      else
        stop <- is_tts msg_data "stop" ;;
        if stop then
          p <- get_self ;;
          if 44 <? len (audio_buffer p) then
            patch_and_send ;;;
            emit Sleep ;;;
            reset_state
          else ret tt
        else ret tt) ;;;
     emit (ClientSend (Text message)))
    (only_JSONDecodeError (emit (ClientSend (Text message)))).

(** [self.decoder.decode(message, 960)] *)
Definition decode (message : bytes) : M C bytes :=
  p <- get_self ;;
  let '(c, r) := codec_decode L (dstate (decoder p)) message in
  update (set_decoder {| handle := handle (decoder p); dstate := c |}) ;;;
  match r with
  | Some pcm_data => ret pcm_data
  | None => raise OpusError
  end.

(** The [bytes] branch of the loop body of [handle_server_messages]. *)
Definition handle_server_binary (message : bytes) : M C unit :=
  try_except
    (pcm_data <- decode message ;;
     if 0 <? len pcm_data then
       let samples := len pcm_data / 2 in
       update (fun p => set_total_samples (total_samples p + samples) p) ;;;
       p <- get_self ;;
       (if is_first_audio p then
          header <- lift (create_wav_header (total_samples p)) ;;
          update (fun p => set_audio_buffer (audio_buffer p ++ header) p) ;;;
          update (set_is_first_audio false)
        else ret tt) ;;;
       update (fun p => set_audio_buffer (audio_buffer p ++ pcm_data) p) ;;;
       p <- get_self ;;
       if 32044 <=? len (audio_buffer p) then
         patch_and_send ;;;
         reset_audio
       else ret tt
     else ret tt)
    (any_Exception (ret tt)).

Definition handle_server_message (message : frame) : M C unit :=
  match message with
  | Text s => handle_server_text s
  | Binary b => handle_server_binary b
  end.
End Pumps.

Section ClientPump.
Variable L : Libs.
Local Abbreviation C := (codec L).

(** A method call on [self.audio_processor]. *)
Definition call_process_audio (input_data : bytes) : M C (list bytes) := fun w =>
  let '(r, ap) := process_audio L (audio_processor (self w)) input_data in
  (r, {| self := set_audio_processor ap (self w);
         decoders_made := decoders_made w |}, []).

Definition call_process_remaining : M C (list bytes) := fun w =>
  let '(r, ap) := process_remaining L (audio_processor (self w)) in
  (Ok r, {| self := set_audio_processor ap (self w);
            decoders_made := decoders_made w |}, []).

(** [opus_data = pcm_to_opus(chunk)], then the send under [if opus_data:]
    (an empty [bytes] is false too). *)
Definition encode_and_forward (chunk : bytes) : M C unit :=
  emit (Encode chunk) ;;;
  match pcm_to_opus L chunk with
  | Some opus_data =>
      if 0 <? len opus_data then emit (ServerSend (Binary opus_data)) else ret tt
  | None => ret tt
  end.

(** The [str] branch of the loop body of [handle_client_messages]. *)
Definition handle_client_text (message : string) : M C unit :=
  try_except
    (msg_data <- loads L message ;;
     t <- lift (py_get msg_data "type") ;;
     if eq_str t "reset" then
       update (fun p => set_audio_processor (reset_buffer (audio_processor p)) p)
     else
       t <- lift (py_get msg_data "type") ;;
       if eq_str t "getLastData" then
         remaining_chunks <- call_process_remaining ;;
         for_each remaining_chunks encode_and_forward ;;;
         emit (ClientSend (Text lastData_text))
       else emit (ServerSend (Text message)))
    (only_JSONDecodeError (emit (ServerSend (Text message)))).

(** The [bytes] branch of the loop body of [handle_client_messages]. *)
Definition handle_client_binary (message : bytes) : M C unit :=
  try_except
    (audio_data <-
       lift (match frombuffer_float32 message with
             | Some a => Ok a
             | None => Raise ValueError
             end) ;;
     if 0 <? len audio_data then
       chunks <- call_process_audio (tobytes_float32 audio_data) ;;
       for_each chunks encode_and_forward
     else ret tt)
    (any_Exception (ret tt)).

Definition handle_client_message (message : frame) : M C unit :=
  match message with
  | Text s => handle_client_text s
  | Binary b => handle_client_binary b
  end.

(** How a pump ended: its stream was exhausted, an exception left the
    [async for] loop and was caught by the outer [except Exception], or a
    handler never returned. *)
Inductive pump_end : Set :=
| StreamClosed
| Crashed (e : exn)
| Hung.

(** [async for message in ws: body message], under the outer
    [try: ... except Exception]. *)
Fixpoint pump (body : frame -> M C unit) (frames : list frame) (w : world C)
  : pump_end * world C * list action :=
  match frames with
  | [] => (StreamClosed, w, [])
  | f :: rest =>
      match body f w with
      | (Ok _, w1, t1) => let '(r, w2, t2) := pump body rest w1 in (r, w2, t1 ++ t2)
      | (Raise e, w1, t1) => (Crashed e, w1, t1)
      | (Loops, w1, t1) => (Hung, w1, t1)
      end
  end.

Definition handle_server_messages := pump (handle_server_message L).
Definition handle_client_messages := pump handle_client_message.
End ClientPump.

(** ** The server: every connection on the one proxy object *)

(** [main] builds one [WebSocketProxy] and gives its bound method
    [proxy_handler] to [websockets.serve]: every accepted connection runs
    [handle_client_messages] and [handle_server_messages] as two tasks on that
    same [self]. Only the two sockets belong to a connection. *)

(** Which socket of a connection a message arrives on. *)
Inductive side : Set :=
| FromClient
| FromServer.

(** A message arriving on a socket of connection [conn]. *)
Record event : Type := {
  conn : nat;
  from : side;
  msg : frame
}.

(** The loop body a task of the connection runs on the message. *)
Definition handle_event (L : Libs) (e : event) : M (codec L) unit :=
  match from e with
  | FromClient => handle_client_message L (msg e)
  | FromServer => handle_server_message L (msg e)
  end.

(** The event loop on an arrival order of messages, each loop body run to
    its end before the next message is taken. asyncio runs one task at a
    time and a task can give way only at an [await]; the schedules in which
    a loop body gives way at one of its own sends are left out, so every run
    of [serve] is a run of the program. The trace says on which
    connection's sockets an action happened. When an exception ends a pump,
    [proxy_handler] cancels the other pump and the connection closes: its
    later messages are not read; the close is taken to happen before the
    next message arrives. A loop body that never returns stops the whole
    event loop. [serve] gives runs of the program, not all of them. *)
Fixpoint serve (L : Libs) (events : list event) (closed : gset nat)
    (w : world (codec L)) : world (codec L) * list (nat * action) :=
  match events with
  | [] => (w, [])
  | e :: rest =>
      if bool_decide (conn e ∈ closed) then serve L rest closed w
      else
        match handle_event L e w with
        | (Ok _, w1, t1) =>
            let '(w2, t2) := serve L rest closed w1 in
            (w2, map (pair (conn e)) t1 ++ t2)
        | (Raise _, w1, t1) =>
            let '(w2, t2) := serve L rest ({[conn e]} ∪ closed) w1 in
            (w2, map (pair (conn e)) t1 ++ t2)
        | (Loops, w1, t1) => (w1, map (pair (conn e)) t1)
        end
  end.

(** ** Identity: [get_mac_address], [get_client_id] *)

(** The digit of a value 0..15 in lowercase hexadecimal. *)
Definition hex_char (d : Z) : ascii :=
  match String.get (Z.to_nat d) "0123456789abcdef" with
  | Some c => c
  | None => "0"%char
  end.

(** ['{:02x}'.format(v)] for a byte value [0 <= v < 256], which is what
    [& 0xff] yields. *)
Definition format_02x (v : Z) : string :=
  String (hex_char (v / 16)) (String (hex_char (v mod 16)) EmptyString).

(** [get_mac_address]; [mac] is what [uuid.getnode()] returns. *)
Definition get_mac_address (mac : Z) : string :=
  String.concat ":"
    (rev (map (fun elements => format_02x (Z.land (Z.shiftr mac elements) 255))
              [0; 8; 16; 24; 32; 40])).

(** What [get_client_id] reads and writes outside the program: the text of
    the [.env] file and [os.environ]. *)
Record os_env : Type := {
  dotenv : string;
  environ : gmap string string
}.

(** The line feed. *)
Definition lf : string := String "010"%char EmptyString.

(** [get_client_id]; [CLIENT_ID] is the module constant, read from the
    environment once at import, and [new_client_id] is what
    [str(uuid.uuid4())] returns. *)
Definition get_client_id (CLIENT_ID new_client_id : string) (s : os_env)
  : string * os_env :=
  if bool_decide (CLIENT_ID = EmptyString) then
    (new_client_id,
     {| dotenv := (dotenv s ++ "CLIENT_ID=" ++ new_client_id ++ lf)%string;
        environ := <["CLIENT_ID"%string := new_client_id]> (environ s) |})
  else (CLIENT_ID, s).

(** ** [opus_to_wav] *)

(** [opus_to_wav]; [wave_file frames] is the file the [wave] module writes
    for mono, 16-bit, 16 kHz and the frames given to [writeframes]. Every
    exception ends in [return None]. *)
Definition opus_to_wav (L : Libs) (wave_file : bytes -> bytes) (opus_data : bytes)
  : option bytes :=
  match codec_decode L (codec_init L) opus_data with
  | (_, Some pcm_data) =>
      if 0 <? len pcm_data then
        match frombuffer_int16 pcm_data with
        | Some audio_array => Some (wave_file (tobytes_int16 audio_array))
        | None => None
        end
      else None
  | (_, None) => None
  end.

(** * Specification-side definitions *)

(** ** The shape of a header *)

(** The twenty-eight bytes between the two length fields: [WAVE], [fmt ],
    chunk size 16, format 1 (PCM), 1 channel, 16000 Hz, 32000 bytes per
    second, block align 2, 16 bits per sample, [data]. *)
Definition fmt_block : bytes :=
  ascii_bytes "WAVE" ++ ascii_bytes "fmt " ++ le_bytes 4 16 ++ le_bytes 2 1 ++
  le_bytes 2 1 ++ le_bytes 4 16000 ++ le_bytes 4 32000 ++ le_bytes 2 2 ++
  le_bytes 2 16 ++ ascii_bytes "data".

Definition wav_header (n : Z) : bytes :=
  ascii_bytes "RIFF" ++ le_bytes 4 (n * 2 + 36) ++ fmt_block ++ le_bytes 4 (n * 2).

(** The buffer after the two slice assignments of a flush, for a counter
    value [t]. *)
Definition patch_lengths (t : Z) (buf : bytes) : bytes :=
  slice_assign 40 44 (le_bytes 4 (t * 2)) (slice_assign 4 8 (le_bytes 4 (t * 2 + 36)) buf).

(** The world with another proxy object. *)
Definition with_self {C} (p : WebSocketProxy C) (w : world C) : world C :=
  {| self := p; decoders_made := decoders_made w |}.

(** ** Reading a trace *)

(** The arguments of the [pcm_to_opus] calls of a trace, in order. *)
Definition encode_calls (t : list action) : list bytes :=
  omap (fun a => match a with Encode pcm => Some pcm | _ => None end) t.

(** The binary messages sent to the client, in order. *)
Definition client_binaries (t : list action) : list bytes :=
  omap (fun a => match a with ClientSend (Binary b) => Some b | _ => None end) t.

(** The binary messages sent upstream, in order. *)
Definition server_binaries (t : list action) : list bytes :=
  omap (fun a => match a with ServerSend (Binary b) => Some b | _ => None end) t.

(** What [encode_and_forward] adds to the trace for one chunk. *)
Definition forward_trace (L : Libs) (chunk : bytes) : list action :=
  Encode chunk ::
  match pcm_to_opus L chunk with
  | Some opus_data => if 0 <? len opus_data then [ServerSend (Binary opus_data)] else []
  | None => []
  end.

(** The world after the chunker's buffer is replaced. *)
Definition with_pending {C} (buf : list float32) (w : world C) : world C :=
  with_self (set_audio_processor (with_buffer buf (audio_processor (self w))) (self w)) w.

(** The samples the chunker holds. *)
Definition pending {C} (w : world C) : list float32 := buffer (audio_processor (self w)).

(** The chunk size the chunker was built with. *)
Definition chunk_size {C} (w : world C) : nat := buffer_size (audio_processor (self w)).

(** ** An instance of the libraries, for running the model on examples *)

(** The text [{"k": "v"}]. *)
Definition text_obj1 (k v : string) : string :=
  ("{" ++ dq ++ k ++ dq ++ ": " ++ dq ++ v ++ dq ++ "}")%string.

(** The text [{"k1": "v1", "k2": "v2"}]. *)
Definition text_obj2 (k1 v1 k2 v2 : string) : string :=
  ("{" ++ dq ++ k1 ++ dq ++ ": " ++ dq ++ v1 ++ dq ++ ", " ++
   dq ++ k2 ++ dq ++ ": " ++ dq ++ v2 ++ dq ++ "}")%string.

Definition reset_text : string := text_obj1 "type" "reset".
Definition getLastData_text : string := text_obj1 "type" "getLastData".
Definition hello_text : string := text_obj1 "type" "hello".
Definition tts_start_text : string := text_obj2 "type" "tts" "state" "start".
Definition tts_stop_text : string := text_obj2 "type" "tts" "state" "stop".

(** [json.loads] on the texts the examples use; it reports every other text
    as malformed, which the examples do not rely on. *)
Definition sample_loads (s : string) : option json :=
  if bool_decide (s = reset_text) then Some (JObj {["type" := JStr "reset"]})
  else if bool_decide (s = getLastData_text)
       then Some (JObj {["type" := JStr "getLastData"]})
  else if bool_decide (s = hello_text) then Some (JObj {["type" := JStr "hello"]})
  else if bool_decide (s = tts_start_text)
       then Some (JObj (<["state" := JStr "start"]> {["type" := JStr "tts"]}))
  else if bool_decide (s = tts_stop_text)
       then Some (JObj (<["state" := JStr "stop"]> {["type" := JStr "tts"]}))
  else if bool_decide (s = "[]"%string) then Some (JArr [])
  else if bool_decide (s = "null"%string) then Some JNull
  else None.

(** A stand-in codec: a compressed frame is two bytes, and decodes to 960
    copies of that sample; any other frame is rejected. The encoder keeps the
    first sample of its input. *)
Definition sample_decode (c : nat) (m : bytes) : nat * option bytes :=
  (S c, match m with
        | [lo; hi] => Some (concat (repeat [lo; hi] 960))
        | _ => None
        end).

Definition sample_encode (pcm : bytes) : option bytes :=
  match pcm with
  | lo :: hi :: _ => Some [lo; hi]
  | _ => None
  end.

(** A stand-in for the float to int16 conversion: the upper half of the bit
    pattern. *)
Definition sample_scale (x : float32) : Z :=
  let '(_, _, c, d) := x in Z_of_byte c + 256 * Z_of_byte d.

Definition sample_libs : Libs :=
  {| json_loads := sample_loads;
     codec := nat;
     codec_init := 0%nat;
     codec_decode := sample_decode;
     codec_encode := sample_encode;
     scale_int16 := sample_scale |}.

(** The proxy as [WebSocketProxy()] builds it, with token mode on. *)
Definition sample_world : world (codec sample_libs) :=
  WebSocketProxy_init sample_libs "00:11:22:33:44:55" "client-1" true "123".

(** Two client frames of 500 and 460 samples. *)
Definition sample_audio : list (list float32) :=
  [repeat (x00, x00, x01, x00) 500; repeat (x00, x00, x02, x00) 460].

(** The same proxy with three samples pending in the chunker. *)
Definition sample_world_pending : world (codec sample_libs) :=
  with_pending (repeat (x00, x00, x07, x00) 3) sample_world.

(** The same codec with an encoder that rejects a chunk whose first sample
    is zero. *)
Definition failing_encode (pcm : bytes) : option bytes :=
  match pcm with
  | x00 :: x00 :: _ => None
  | lo :: hi :: _ => Some [lo; hi]
  | _ => None
  end.

Definition failing_libs : Libs :=
  {| json_loads := sample_loads;
     codec := nat;
     codec_init := 0%nat;
     codec_decode := sample_decode;
     codec_encode := failing_encode;
     scale_int16 := sample_scale |}.

Definition failing_world : world (codec failing_libs) :=
  WebSocketProxy_init failing_libs "00:11:22:33:44:55" "client-1" true "123".

(** A chunk of silence, which that encoder rejects, and a chunk it accepts. *)
Definition silent_chunk : list float32 := repeat (x00, x00, x00, x00) 960.
Definition loud_chunk : list float32 := repeat (x00, x00, x02, x00) 960.

(** ** Worlds after the steps of the inbound pump *)

(** After [self.audio_buffer = bytearray(); self.is_first_audio = True;
    self.total_samples = 0]. *)
Definition after_reset_audio {C} (w : world C) : world C :=
  with_self (set_total_samples 0 (set_is_first_audio true (set_audio_buffer [] (self w)))) w.

(** After the full reset of a start or stop boundary: the audio state is
    cleared and the decoder is a new object. *)
Definition after_reset_state (L : Libs) (w : world (codec L)) : world (codec L) :=
  {| self := set_decoder {| handle := decoders_made w; dstate := codec_init L |}
               (self (after_reset_audio w));
     decoders_made := S (decoders_made w) |}.

(** After a decode that left the codec in state [c]: same decoder object. *)
Definition after_decode {C} (c : C) (w : world C) : world C :=
  with_self (set_decoder {| handle := handle (decoder (self w)); dstate := c |} (self w)) w.

(** After a successful decode of [pcm_data] and the append to the container
    buffer, before the size test. *)
Definition after_append {C} (c : C) (pcm_data : bytes) (w : world C) : world C :=
  let p := self (after_decode c w) in
  let total := total_samples p + len pcm_data / 2 in
  let buf := if is_first_audio p then audio_buffer p ++ wav_header total
             else audio_buffer p in
  with_self (set_audio_buffer (buf ++ pcm_data)
               (set_is_first_audio false (set_total_samples total p))) w.

(** After the patch of a flush. *)
Definition after_patch {C} (w : world C) : world C :=
  with_self (set_audio_buffer
               (patch_lengths (total_samples (self w)) (audio_buffer (self w)))
               (self w)) w.

(** The container a flush sends. *)
Definition container {C} (w : world C) : bytes :=
  patch_lengths (total_samples (self w)) (audio_buffer (self w)).

(** [msg_data.get('type') == 'tts' and msg_data.get('state') == st] on a
    dict. *)
Definition tts_state (fields : gmap string json) (st : string) : bool :=
  eq_str (fields !! "type"%string) "tts" && eq_str (fields !! "state"%string) st.

(** ** Invariants of the proxy object *)

(** The container buffer is empty with the counter at zero and the flag set,
    or it holds a header and some audio, below the flush threshold, and the
    counter does not exceed the samples it holds. *)
Definition inbound_inv {C} (w : world C) : Prop :=
  let p := self w in
  (is_first_audio p = true /\ audio_buffer p = [] /\ total_samples p = 0) \/
  (is_first_audio p = false /\ 44 < len (audio_buffer p) < 32044 /\
   0 <= total_samples p /\ total_samples p * 2 <= len (audio_buffer p) - 44).

(** The chunker cuts at 960 samples and holds less than one chunk. *)
Definition chunker_inv {C} (w : world C) : Prop :=
  chunk_size w = 960%nat /\ (length (pending w) < 960)%nat.

(** The decoder's contract: [decode(message, 960)] returns at most 960
    samples of two bytes. *)
Definition decoder_bounded (L : Libs) : Prop :=
  forall c message c' pcm_data,
    codec_decode L c message = (c', Some pcm_data) -> len pcm_data <= 1920.

(** The states of the proxy object between loop bodies: as constructed, or
    after a loop body of either pump has run to its end on some message,
    whatever its outcome. A loop body whose send fails, or whose task is
    cancelled at the send, stops before its end; the states that leaves are
    among those of [observable] below. *)
Inductive reachable (L : Libs) : world (codec L) -> Prop :=
| reach_init mac cid enable tok :
    reachable L (WebSocketProxy_init L mac cid enable tok)
| reach_server w message r w' t :
    reachable L w -> handle_server_message L message w = (r, w', t) ->
    reachable L w'
| reach_client w message r w' t :
    reachable L w -> handle_client_message L message w = (r, w', t) ->
    reachable L w'.

(** The inbound pump's part of the proxy object is the same in [w'] as in
    [w]. *)
Definition same_inbound {C} (w w' : world C) : Prop :=
  audio_buffer (self w') = audio_buffer (self w) /\
  is_first_audio (self w') = is_first_audio (self w) /\
  total_samples (self w') = total_samples (self w) /\
  decoder (self w') = decoder (self w) /\
  decoders_made w' = decoders_made w.

(** The states of the chunker object: as [AudioProcessor(buffer_size=960)]
    builds it, or after any of its three methods has run. *)
Inductive chunker_reachable (L : Libs) : AudioProcessor -> Prop :=
| chunker_new : chunker_reachable L (AudioProcessor_init 960)
| chunker_process_audio ap input_data r ap' :
    chunker_reachable L ap -> process_audio L ap input_data = (r, ap') ->
    chunker_reachable L ap'
| chunker_reset_buffer ap :
    chunker_reachable L ap -> chunker_reachable L (reset_buffer ap)
| chunker_process_remaining ap :
    chunker_reachable L ap -> chunker_reachable L (snd (process_remaining L ap)).

(** A computation that returns or raises from every state. *)
Definition never_loops {C A} (m : M C A) : Prop :=
  forall w, fst (fst (m w)) <> Loops.

(** The encoded frames a list of chunks yields, failures left out. *)
Definition encoded (L : Libs) (chunks : list bytes) : list bytes :=
  omap (fun c => match pcm_to_opus L c with
                 | Some o => if 0 <? len o then Some o else None
                 | None => None
                 end) chunks.

(** The sample proxy after sixteen upstream audio frames: a header and
    30720 bytes of audio are in the container buffer. *)
Definition sample_world_16 : world (codec sample_libs) :=
  snd (fst (handle_server_messages sample_libs
              (repeat (Binary [x01; x02]) 16) sample_world)).

(** The compressed frames [msgs] decode one after the other, from the codec
    state [c], to the PCM frames [pcms] of 960 samples (1920 bytes) each, and
    leave the codec in state [c']. *)
Inductive decodes_960 (L : Libs)
  : codec L -> list bytes -> list bytes -> codec L -> Prop :=
| decodes_nil c : decodes_960 L c [] [] c
| decodes_cons c message c1 pcm_data msgs pcms c' :
    codec_decode L c message = (c1, Some pcm_data) ->
    length pcm_data = 1920%nat ->
    decodes_960 L c1 msgs pcms c' ->
    decodes_960 L c (message :: msgs) (pcm_data :: pcms) c'.

(** Two compressed frames for the sample codec, and what they decode to. *)
Definition sample_frames : list bytes := [[x01; x02]; [x03; x04]].
Definition sample_pcms : list bytes :=
  [concat (repeat [x01; x02] 960); concat (repeat [x03; x04] 960)].

(** ** Connections *)

(** What happened on the sockets of connection [c]. *)
Definition actions_of (c : nat) (t : list (nat * action)) : list action :=
  omap (fun ca => if bool_decide (fst ca = c) then Some (snd ca) else None) t.

(** The property the specification asks of two connections [a] and [b]:
    what happens on the sockets of [b] is the same whether or not the
    messages of [a] arrive. *)
Definition sessions_isolated (L : Libs) (w : world (codec L)) : Prop :=
  forall (events : list event) (a b : nat),
    a <> b ->
    actions_of b (snd (serve L events ∅ w)) =
    actions_of b (snd (serve L (filter (fun e => conn e <> a) events) ∅ w)).

(** Connection 1 sends three samples of audio; connection 2 asks for the
    last data. *)
Definition sample_events : list event :=
  [ {| conn := 1; from := FromClient;
       msg := Binary (tobytes_float32 (repeat (x00, x00, x07, x00) 3)) |};
    {| conn := 2; from := FromClient; msg := Text getLastData_text |} ].

(** A computation that leaves a part [proj] of the proxy object as it was,
    whatever its outcome. *)
Definition keeps {C A T} (proj : WebSocketProxy C -> T) (m : M C A) : Prop :=
  forall w, proj (self (snd (fst (m w)))) = proj (self w).

(** ** Reading a device id back *)

(** The value of a lowercase hexadecimal digit. *)
Fixpoint index_of (c : ascii) (i : Z) (digits : string) : option Z :=
  match digits with
  | EmptyString => None
  | String d rest => if Ascii.eqb c d then Some i else index_of c (i + 1) rest
  end.

Definition unhex (c : ascii) : option Z := index_of c 0 "0123456789abcdef".

(** The number a colon-separated hexadecimal text denotes, most significant
    digit first. *)
Fixpoint parse_mac_from (acc : Z) (s : string) : option Z :=
  match s with
  | EmptyString => Some acc
  | String c rest =>
      if Ascii.eqb c ":" then parse_mac_from acc rest
      else match unhex c with
           | Some d => parse_mac_from (acc * 16 + d) rest
           | None => None
           end
  end.

Definition parse_mac (s : string) : option Z := parse_mac_from 0 s.

(** [n] calls of [get_client_id] in one process, with what [uuid4] returns
    at each call: the ids returned and the outside world afterwards. *)
Fixpoint get_client_id_calls (CLIENT_ID : string) (uuids : list string) (s : os_env)
  : list string * os_env :=
  match uuids with
  | [] => ([], s)
  | u :: rest =>
      let '(id, s1) := get_client_id CLIENT_ID u s in
      let '(ids, s2) := get_client_id_calls CLIENT_ID rest s1 in
      (id :: ids, s2)
  end.

(** A computation whose every action satisfies [P]. *)
Definition emits {C A} (P : action -> Prop) (m : M C A) : Prop :=
  forall w, Forall P (snd (m w)).

(** What the inbound pump may do to the outside: send to the client, sleep. *)
Definition inbound_action (a : action) : Prop :=
  match a with
  | ClientSend _ | Sleep => True
  | ServerSend _ | Encode _ => False
  end.

(** What the outbound pump may do to the outside: call the encoder, send
    upstream, and send the [lastData] text to the client. *)
Definition outbound_action (a : action) : Prop :=
  match a with
  | Encode _ | ServerSend _ => True
  | ClientSend m => m = Text lastData_text
  | Sleep => False
  end.

(** A computation that constructs no decoder and keeps the decoder object
    the proxy holds, whatever its outcome. *)
Definition keeps_decoder_object {C A} (m : M C A) : Prop :=
  forall w,
    handle (decoder (self (snd (fst (m w))))) = handle (decoder (self w)) /\
    decoders_made (snd (fst (m w))) = decoders_made w.

(** ** Containers *)

(** The decoder's contract in full: at most 960 samples, and whole 16-bit
    samples. *)
Definition decoder_whole_samples (L : Libs) : Prop :=
  forall c message c' pcm_data,
    codec_decode L c message = (c', Some pcm_data) ->
    len pcm_data <= 1920 /\ Nat.even (length pcm_data) = true.

(** A playable container: the header of [n] samples, with both length
    fields 32-bit values, followed by exactly [2 * n] bytes of audio, more
    than none. *)
Definition well_formed_container (b : bytes) : Prop :=
  exists n payload,
    b = wav_header n ++ payload /\ len payload = n * 2 /\
    0 < n /\ n * 2 + 36 < 4294967296.

(** The container buffer is empty with the counter at zero and the flag set,
    or it is a header followed by the audio the counter counts. No bound on
    its length is part of this. *)
Definition buffer_consistent {C} (w : world C) : Prop :=
  let p := self w in
  (is_first_audio p = true /\ audio_buffer p = [] /\ total_samples p = 0) \/
  (is_first_audio p = false /\
   exists n0 payload,
     audio_buffer p = wav_header n0 ++ payload /\
     0 < len payload /\ len payload = total_samples p * 2).

(** The states in which a task can find the proxy object when it runs: the
    pumps of all connections work on the one object, and a pump gives way
    only at an [await]. Besides the states between loop bodies these are the
    states a flush leaves at its send, after the patch and before the reset:
    the object stays like that when the send raises or the task is cancelled
    there, and another pump can run before the reset is done. The reset that
    follows a send then applies to whatever the other pumps have left. *)
Inductive observable (L : Libs) : world (codec L) -> Prop :=
| obs_init mac cid enable tok :
    observable L (WebSocketProxy_init L mac cid enable tok)
| obs_server w message r w' t :
    observable L w -> handle_server_message L message w = (r, w', t) ->
    observable L w'
| obs_client w message r w' t :
    observable L w -> handle_client_message L message w = (r, w', t) ->
    observable L w'
| obs_text_flush_sending w w' t :
    observable L w ->
    44 < len (audio_buffer (self w)) ->
    patch_and_send L w = (Ok tt, w', t) ->
    observable L w'
| obs_frame_flush_sending w message c pcm_data w' t :
    observable L w ->
    codec_decode L (dstate (decoder (self w))) message = (c, Some pcm_data) ->
    0 < len pcm_data ->
    32044 <= len (audio_buffer (self (after_append c pcm_data w))) ->
    patch_and_send L (after_append c pcm_data w) = (Ok tt, w', t) ->
    handle_server_message L (Binary message) w = (Ok tt, after_reset_audio w', t) ->
    observable L w'
| obs_reset_audio w :
    observable L w -> observable L (after_reset_audio w)
| obs_reset_state w :
    observable L w -> observable L (after_reset_state L w).

(** The sample proxy after one upstream audio frame and the patch of a flush
    whose send did not complete: the header and the 960 samples are still in
    the container buffer. *)
Definition sample_world_unsent : world (codec sample_libs) :=
  after_patch (snd (fst (handle_server_message sample_libs (Binary [x01; x02])
                           sample_world))).

(** * Properties *)

(** Reduce the projections of the proxy object and of the world applied to
    the record updates, and nothing else. *)
Ltac fields :=
  cbn [self decoders_made device_id client_id enable_token token headers
       audio_processor decoder audio_buffer is_first_audio total_samples
       set_audio_processor set_decoder set_audio_buffer set_is_first_audio
       set_total_samples handle dstate buffer_size buffer sample_rate
       with_buffer fst snd].

Ltac fields_in H :=
  cbn [self decoders_made device_id client_id enable_token token headers
       audio_processor decoder audio_buffer is_first_audio total_samples
       set_audio_processor set_decoder set_audio_buffer set_is_first_audio
       set_total_samples handle dstate buffer_size buffer sample_rate
       with_buffer fst snd] in H.

(** ** Bytes and little-endian integers *)

Lemma byte_of_Z_of_byte (b : byte) : byte_of_Z (Z_of_byte b) = b.
Proof.
  unfold byte_of_Z, Z_of_byte.
  pose proof (Byte.to_N_bounded b) as Hb.
  rewrite Z.mod_small by lia.
  rewrite N2Z.id, Byte.of_to_N. reflexivity.
Qed.

Lemma Z_of_byte_of_Z (z : Z) : Z_of_byte (byte_of_Z z) = z mod 256.
Proof.
  unfold byte_of_Z, Z_of_byte.
  pose proof (Z.mod_pos_bound z 256 ltac:(lia)) as Hz.
  destruct (Byte.of_N (Z.to_N (z mod 256))) as [b|] eqn:E.
  - apply Byte.to_of_N in E. rewrite E. lia.
  - apply Byte.of_N_None_iff in E. lia.
Qed.

Lemma Z_of_byte_range (b : byte) : 0 <= Z_of_byte b < 256.
Proof.
  unfold Z_of_byte. pose proof (Byte.to_N_bounded b). lia.
Qed.

Lemma length_le_bytes (k : nat) (n : Z) : length (le_bytes k n) = k.
Proof.
  revert n. induction k as [|k IH]; intros n; simpl; [reflexivity|].
  now rewrite IH.
Qed.

Lemma le_value_le_bytes (k : nat) (n : Z) :
  0 <= n -> le_value (le_bytes k n) = n mod 256 ^ Z.of_nat k.
Proof.
  revert n. induction k as [|k IH]; intros n Hn.
  - simpl. now rewrite Z.mod_1_r.
  - cbn [le_bytes le_value].
    rewrite Z_of_byte_of_Z, Z.mod_mod by lia.
    rewrite IH by (apply Z.div_pos; lia).
    rewrite Nat2Z.inj_succ, Z.pow_succ_r by lia.
    rewrite Z.rem_mul_r by lia. reflexivity.
Qed.

Lemma le_value_to_bytes (k : nat) (n : Z) (bs : bytes) :
  to_bytes n k = Ok bs -> length bs = k /\ le_value bs = n.
Proof.
  unfold to_bytes.
  destruct (0 <=? n) eqn:H0; destruct (n <? 256 ^ Z.of_nat k) eqn:H1;
    simpl; try discriminate.
  intros [= <-]. apply Z.leb_le in H0. apply Z.ltb_lt in H1.
  split; [apply length_le_bytes|].
  rewrite le_value_le_bytes, Z.mod_small; lia.
Qed.

Lemma to_bytes_ok (k : nat) (n : Z) :
  0 <= n < 256 ^ Z.of_nat k -> to_bytes n k = Ok (le_bytes k n).
Proof.
  intros [H0 H1]. unfold to_bytes.
  apply Z.leb_le in H0. apply Z.ltb_lt in H1. now rewrite H0, H1.
Qed.

Lemma to_bytes_4 (n : Z) : 0 <= n < 4294967296 -> to_bytes n 4 = Ok (le_bytes 4 n).
Proof. intros H. apply to_bytes_ok. exact H. Qed.

Lemma le_bytes_4_shape (n : Z) : exists a b c d, le_bytes 4 n = [a; b; c; d].
Proof. cbn [le_bytes]. eauto. Qed.

Lemma len_app {A} (x y : list A) : len (x ++ y) = len x + len y.
Proof. unfold len. rewrite length_app. lia. Qed.

Lemma len_nonneg {A} (x : list A) : 0 <= len x.
Proof. unfold len. lia. Qed.

(** ** The header builder *)

Lemma create_wav_header_ok (n : Z) :
  0 <= n -> n * 2 + 36 < 4294967296 -> create_wav_header n = Ok (wav_header n).
Proof.
  intros H0 H1. unfold create_wav_header, wav_header.
  rewrite !to_bytes_4 by lia.
  destruct (le_bytes_4_shape (n * 2 + 36)) as (a & b & c & d & ->).
  destruct (le_bytes_4_shape (n * 2)) as (a' & b' & c' & d' & ->).
  reflexivity.
Qed.

Lemma length_wav_header (n : Z) : length (wav_header n) = 44%nat.
Proof.
  unfold wav_header.
  destruct (le_bytes_4_shape (n * 2 + 36)) as (a & b & c & d & ->).
  destruct (le_bytes_4_shape (n * 2)) as (a' & b' & c' & d' & ->).
  reflexivity.
Qed.

(** Patching the two length fields of a buffer that starts with a header
    gives the header of the new count, followed by the same payload. *)
Lemma patch_wav_header (n m : Z) (payload : bytes) :
  slice_assign 40 44 (le_bytes 4 (m * 2))
    (slice_assign 4 8 (le_bytes 4 (m * 2 + 36)) (wav_header n ++ payload))
  = wav_header m ++ payload.
Proof.
  unfold wav_header.
  destruct (le_bytes_4_shape (n * 2 + 36)) as (a & b & c & d & ->).
  destruct (le_bytes_4_shape (n * 2)) as (a' & b' & c' & d' & ->).
  destruct (le_bytes_4_shape (m * 2 + 36)) as (x & y & z & t & ->).
  destruct (le_bytes_4_shape (m * 2)) as (x' & y' & z' & t' & ->).
  reflexivity.
Qed.

(** ** Slice assignment *)

Lemma slice_assign_length (i j : nat) (v b : bytes) :
  (i <= j <= length b)%nat -> length v = (j - i)%nat ->
  length (slice_assign i j v b) = length b.
Proof.
  intros Hij Hv. unfold slice_assign.
  rewrite !length_app, length_take, length_drop. lia.
Qed.

Lemma slice_assign_lookup_before (i j k : nat) (v b : bytes) :
  (k < i <= length b)%nat -> slice_assign i j v b !! k = b !! k.
Proof.
  intros Hk. unfold slice_assign.
  rewrite lookup_app_l by (rewrite length_take; lia).
  apply lookup_take_lt. lia.
Qed.

Lemma slice_assign_lookup_after (i j k : nat) (v b : bytes) :
  (i <= j <= length b)%nat -> length v = (j - i)%nat -> (j <= k)%nat ->
  slice_assign i j v b !! k = b !! k.
Proof.
  intros Hij Hv Hk. unfold slice_assign.
  rewrite lookup_app_r by (rewrite length_take; lia).
  rewrite length_take, Nat.min_l by lia.
  rewrite lookup_app_r by lia.
  rewrite lookup_drop. f_equal. lia.
Qed.

Lemma slice_slice_assign (i j : nat) (v b : bytes) :
  (i <= j <= length b)%nat -> length v = (j - i)%nat ->
  slice i j (slice_assign i j v b) = v.
Proof.
  intros Hij Hv. unfold slice, slice_assign.
  rewrite drop_app_length' by (rewrite length_take; lia).
  rewrite take_app_length' by lia. reflexivity.
Qed.

Lemma slice_lookup_eq (i j : nat) (b b' : bytes) :
  (forall k, (i <= k < j)%nat -> b' !! k = b !! k) -> slice i j b' = slice i j b.
Proof.
  intros H. unfold slice. apply list_eq. intros k.
  destruct (decide (k < j - i)%nat) as [Hk|Hk].
  - rewrite !lookup_take_lt, !lookup_drop by lia. apply H. lia.
  - rewrite !lookup_take_ge by lia. reflexivity.
Qed.

Lemma patch_lengths_header (n m : Z) (payload : bytes) :
  patch_lengths m (wav_header n ++ payload) = wav_header m ++ payload.
Proof. apply patch_wav_header. Qed.

Lemma patch_lengths_length (t : Z) (b : bytes) :
  (44 <= length b)%nat -> length (patch_lengths t b) = length b.
Proof.
  intros H. unfold patch_lengths.
  assert (Hl : length (slice_assign 4 8 (le_bytes 4 (t * 2 + 36)) b) = length b)
    by (apply slice_assign_length; rewrite ?length_le_bytes; lia).
  rewrite slice_assign_length; rewrite ?length_le_bytes; lia.
Qed.

Lemma patch_lengths_lookup (t : Z) (b : bytes) (k : nat) :
  (44 <= length b)%nat -> ~ (4 <= k < 8)%nat -> ~ (40 <= k < 44)%nat ->
  patch_lengths t b !! k = b !! k.
Proof.
  intros H H1 H2. unfold patch_lengths.
  assert (Hl : length (slice_assign 4 8 (le_bytes 4 (t * 2 + 36)) b) = length b)
    by (apply slice_assign_length; rewrite ?length_le_bytes; lia).
  destruct (decide (k < 40)%nat).
  - rewrite slice_assign_lookup_before by lia.
    destruct (decide (k < 4)%nat).
    + apply slice_assign_lookup_before. lia.
    + apply slice_assign_lookup_after; rewrite ?length_le_bytes; lia.
  - rewrite slice_assign_lookup_after by (rewrite ?length_le_bytes; lia).
    apply slice_assign_lookup_after; rewrite ?length_le_bytes; lia.
Qed.

Lemma patch_lengths_total (t : Z) (b : bytes) :
  (44 <= length b)%nat -> slice 4 8 (patch_lengths t b) = le_bytes 4 (t * 2 + 36).
Proof.
  intros H. unfold patch_lengths.
  transitivity (slice 4 8 (slice_assign 4 8 (le_bytes 4 (t * 2 + 36)) b)).
  - apply slice_lookup_eq. intros k Hk.
    apply slice_assign_lookup_before.
    rewrite slice_assign_length; rewrite ?length_le_bytes; lia.
  - apply slice_slice_assign; rewrite ?length_le_bytes; lia.
Qed.

Lemma patch_lengths_data (t : Z) (b : bytes) :
  (44 <= length b)%nat -> slice 40 44 (patch_lengths t b) = le_bytes 4 (t * 2).
Proof.
  intros H. unfold patch_lengths. apply slice_slice_assign.
  - rewrite slice_assign_length; rewrite ?length_le_bytes; lia.
  - now rewrite length_le_bytes.
Qed.

(** ** The flush *)

Lemma patch_and_send_ok (L : Libs) (w : world (codec L)) :
  0 <= total_samples (self w) ->
  total_samples (self w) * 2 + 36 < 4294967296 ->
  patch_and_send L w =
    (Ok tt,
     with_self (set_audio_buffer
                  (patch_lengths (total_samples (self w)) (audio_buffer (self w)))
                  (self w)) w,
     [ClientSend (Binary (patch_lengths (total_samples (self w))
                                        (audio_buffer (self w))))]).
Proof.
  intros H0 H1. unfold patch_and_send, bind, get_self, lift.
  rewrite !to_bytes_4 by lia.
  reflexivity.
Qed.

(** ** C7: the header builder and the in-place patch *)

(** C7: for a sample count [n] whose two length fields are 32-bit values
    ([n >= 0] and [2*n + 36 < 2^32], which holds for every count the proxy
    passes: the builder is called with the samples of one decoded frame) the
    builder returns 44 bytes: [RIFF], the little-endian 32-bit [2*n + 36] at
    [4:8], the description of 16 kHz mono 16-bit PCM, [data], and the
    little-endian 32-bit [2*n] at [40:44]. Patching a buffer that starts with
    such a header, for a counter [m] in the same range, keeps the length,
    sets [4:8] and [40:44] to the fields of [m] and changes no other byte of
    the header or the payload. *)
Theorem wav_header_fields_and_patch (n : Z) :
  0 <= n -> n * 2 + 36 < 4294967296 ->
  exists h,
    create_wav_header n = Ok h /\ length h = 44%nat /\
    slice 0 4 h = ascii_bytes "RIFF" /\
    slice 4 8 h = le_bytes 4 (2 * n + 36) /\ le_value (slice 4 8 h) = 2 * n + 36 /\
    slice 8 16 h = ascii_bytes "WAVEfmt " /\
    le_value (slice 16 20 h) = 16 /\
    le_value (slice 20 22 h) = 1 /\
    le_value (slice 22 24 h) = 1 /\
    le_value (slice 24 28 h) = 16000 /\
    le_value (slice 28 32 h) = 32000 /\
    le_value (slice 32 34 h) = 2 /\
    le_value (slice 34 36 h) = 16 /\
    slice 36 40 h = ascii_bytes "data" /\
    slice 40 44 h = le_bytes 4 (2 * n) /\ le_value (slice 40 44 h) = 2 * n /\
    forall (L : Libs) (w : world (codec L)) (payload : bytes),
      audio_buffer (self w) = h ++ payload ->
      0 <= total_samples (self w) ->
      total_samples (self w) * 2 + 36 < 4294967296 ->
      exists b',
        patch_and_send L w =
          (Ok tt, with_self (set_audio_buffer b' (self w)) w, [ClientSend (Binary b')]) /\
        length b' = length (h ++ payload) /\
        slice 4 8 b' = le_bytes 4 (2 * total_samples (self w) + 36) /\
        slice 40 44 b' = le_bytes 4 (2 * total_samples (self w)) /\
        drop 44 b' = payload /\
        forall k : nat, ~ (4 <= k < 8)%nat -> ~ (40 <= k < 44)%nat ->
                        b' !! k = (h ++ payload) !! k.
Proof.
  intros H0 H1. exists (wav_header n).
  assert (Hn : 2 * n = n * 2) by lia.
  split; [now apply create_wav_header_ok|].
  split; [apply length_wav_header|].
  assert (Hf : slice 4 8 (wav_header n) = le_bytes 4 (n * 2 + 36)).
  { unfold wav_header.
    destruct (le_bytes_4_shape (n * 2 + 36)) as (a & b & c & d & ->).
    destruct (le_bytes_4_shape (n * 2)) as (a' & b' & c' & d' & ->).
    reflexivity. }
  assert (Hd : slice 40 44 (wav_header n) = le_bytes 4 (n * 2)).
  { unfold wav_header.
    destruct (le_bytes_4_shape (n * 2 + 36)) as (a & b & c & d & ->).
    destruct (le_bytes_4_shape (n * 2)) as (a' & b' & c' & d' & ->).
    reflexivity. }
  rewrite Hf, Hd, Hn.
  rewrite !le_value_le_bytes by lia.
  rewrite !Z.mod_small by (change (256 ^ Z.of_nat 4) with 4294967296; lia).
  unfold wav_header.
  destruct (le_bytes_4_shape (n * 2 + 36)) as (a & b & c & d & ->).
  destruct (le_bytes_4_shape (n * 2)) as (a' & b' & c' & d' & ->).
  repeat (split; [reflexivity|]).
  intros L w payload Hbuf Ht0 Ht1.
  set (h := ascii_bytes "RIFF" ++ [a; b; c; d] ++ fmt_block ++ [a'; b'; c'; d']) in *.
  assert (Hlen : (44 <= length (h ++ payload))%nat).
  { rewrite length_app. subst h. cbn. lia. }
  exists (patch_lengths (total_samples (self w)) (h ++ payload)).
  rewrite patch_and_send_ok, Hbuf by assumption.
  split; [reflexivity|].
  split; [now apply patch_lengths_length|].
  split; [rewrite patch_lengths_total by assumption; f_equal; lia|].
  split; [rewrite patch_lengths_data by assumption; f_equal; lia|].
  split.
  - apply list_eq. intros k. rewrite lookup_drop.
    rewrite patch_lengths_lookup by (assumption || lia).
    change payload with (drop 44 (h ++ payload)) at 2.
    now rewrite lookup_drop.
  - intros k Hk1 Hk2. now apply patch_lengths_lookup.
Qed.

Lemma wav_header_fields_and_patch_witness :
  0 <= 960 /\ 960 * 2 + 36 < 4294967296 /\
  exists h, create_wav_header 960 = Ok h /\ length h = 44%nat.
Proof.
  split; [lia|]. split; [lia|].
  destruct (wav_header_fields_and_patch 960) as (h & Hh & Hl & _); [lia | lia |].
  exists h. split; assumption.
Defined.

(** ** The chunker *)

Lemma frombuffer_tobytes_float32 (arr : list float32) :
  frombuffer_float32 (tobytes_float32 arr) = Some arr.
Proof.
  induction arr as [|[[[a b] c] d] arr IH]; [reflexivity|].
  unfold tobytes_float32 in *. cbn [map concat float32_bytes app].
  cbn [frombuffer_float32]. now rewrite IH.
Qed.

Lemma length_tobytes_int16 (arr : list Z) :
  length (tobytes_int16 arr) = (2 * length arr)%nat.
Proof.
  induction arr as [|z arr IH]; [reflexivity|].
  unfold tobytes_int16 in *. cbn [map concat]. rewrite length_app, IH.
  unfold int16_bytes. rewrite length_le_bytes. simpl. lia.
Qed.

Lemma length_to_pcm (L : Libs) (chunk : list float32) :
  length (to_pcm L chunk) = (2 * length chunk)%nat.
Proof. unfold to_pcm. now rewrite length_tobytes_int16, length_map. Qed.

Lemma with_pending_id {C} (w : world C) : with_pending (pending w) w = w.
Proof. destruct w as [[? ? ? ? ? [? ? ?] ? ? ? ?] ?]. reflexivity. Qed.

(** With a positive chunk size and fuel for every sample, the loop exits: it
    has cut the buffer into full chunks, in order, and left a remainder
    shorter than one chunk. *)
Lemma process_loop_spec (L : Libs) (size : nat) :
  (0 < size)%nat ->
  forall (fuel : nat) (buf : list float32) (chunks : list bytes),
    (length buf <= fuel)%nat ->
    exists cs rest,
      process_loop L fuel size buf chunks = Some (chunks ++ map (to_pcm L) cs, rest) /\
      buf = concat cs ++ rest /\
      Forall (fun c => length c = size) cs /\
      (length rest < size)%nat.
Proof.
  intros Hs. induction fuel as [|fuel IH]; intros buf chunks Hf.
  - exists [], buf. cbn [process_loop].
    destruct (Nat.leb_spec size (length buf)) as [H|H]; [lia|].
    rewrite app_nil_r. repeat split; [constructor | assumption].
  - cbn [process_loop].
    destruct (Nat.leb_spec size (length buf)) as [H|H].
    + destruct (IH (drop size buf) (chunks ++ [to_pcm L (take size buf)]))
        as (cs & rest & Hr & Hc & Hall & Hlt).
      { rewrite length_drop. lia. }
      exists (take size buf :: cs), rest.
      rewrite Hr, <- app_assoc. cbn [map app concat].
      repeat split.
      * rewrite <- app_assoc, <- Hc. symmetry. apply take_drop.
      * constructor; [|assumption]. rewrite length_take. lia.
      * assumption.
    + exists [], buf. rewrite app_nil_r. repeat split; [constructor | assumption].
Qed.

Lemma process_audio_spec (L : Libs) (ap : AudioProcessor) (arr : list float32) :
  (0 < buffer_size ap)%nat ->
  exists cs rest,
    process_audio L ap (tobytes_float32 arr) =
      (Ok (map (to_pcm L) cs), with_buffer rest ap) /\
    buffer ap ++ arr = concat cs ++ rest /\
    Forall (fun c => length c = buffer_size ap) cs /\
    (length rest < buffer_size ap)%nat.
Proof.
  intros Hs. unfold process_audio. rewrite frombuffer_tobytes_float32.
  destruct (process_loop_spec L (buffer_size ap) Hs
              (S (length (buffer ap ++ arr))) (buffer ap ++ arr) [])
    as (cs & rest & Hr & Hc & Hall & Hlt); [lia|].
  exists cs, rest. rewrite Hr. cbn [app]. repeat split; assumption.
Qed.

Lemma encode_and_forward_spec (L : Libs) (chunk : bytes) (w : world (codec L)) :
  encode_and_forward L chunk w = (Ok tt, w, forward_trace L chunk).
Proof.
  unfold encode_and_forward, forward_trace, bind, emit.
  destruct (pcm_to_opus L chunk) as [o|]; [|reflexivity].
  destruct (0 <? len o); reflexivity.
Qed.

Lemma for_each_encode_and_forward (L : Libs) (chunks : list bytes) (w : world (codec L)) :
  for_each chunks (encode_and_forward L) w =
    (Ok tt, w, concat (map (forward_trace L) chunks)).
Proof.
  induction chunks as [|c chunks IH]; [reflexivity|].
  cbn [for_each map concat]. unfold bind at 1.
  rewrite encode_and_forward_spec, IH. reflexivity.
Qed.

Lemma encode_calls_app (t1 t2 : list action) :
  encode_calls (t1 ++ t2) = encode_calls t1 ++ encode_calls t2.
Proof. apply omap_app. Qed.

Lemma encode_calls_forward (L : Libs) (chunks : list bytes) :
  encode_calls (concat (map (forward_trace L) chunks)) = chunks.
Proof.
  induction chunks as [|c chunks IH]; [reflexivity|].
  cbn [map concat]. rewrite encode_calls_app, IH.
  unfold forward_trace.
  destruct (pcm_to_opus L c) as [o|]; [destruct (0 <? len o)|]; reflexivity.
Qed.

Lemma len_pos_cons {A} (x : A) (l : list A) : (0 <? len (x :: l)) = true.
Proof. apply Z.ltb_lt. unfold len. cbn [length]. lia. Qed.

(** A binary client frame holding the samples [arr]: the chunker cuts the
    pending samples followed by [arr] into full chunks, every chunk goes
    through [pcm_to_opus] in order, and the remainder stays pending. *)
Lemma handle_client_binary_samples (L : Libs) (w : world (codec L)) (arr : list float32) :
  (0 < chunk_size w)%nat -> (length (pending w) < chunk_size w)%nat ->
  exists cs rest,
    handle_client_binary L (tobytes_float32 arr) w =
      (Ok tt, with_pending rest w,
       concat (map (forward_trace L) (map (to_pcm L) cs))) /\
    pending w ++ arr = concat cs ++ rest /\
    Forall (fun c => length c = chunk_size w) cs /\
    (length rest < chunk_size w)%nat.
Proof.
  intros Hs Hp. unfold handle_client_binary, try_except, bind at 1, lift.
  rewrite frombuffer_tobytes_float32.
  destruct arr as [|x arr].
  - exists [], (pending w). rewrite with_pending_id, app_nil_r.
    repeat split; [constructor | assumption].
  - rewrite len_pos_cons.
    destruct (process_audio_spec L (audio_processor (self w)) (x :: arr) Hs)
      as (cs & rest & Hr & Hc & Hall & Hlt).
    exists cs, rest. unfold bind, call_process_audio. rewrite Hr.
    rewrite for_each_encode_and_forward.
    repeat split; assumption.
Qed.

Lemma length_concat_uniform {A} (n : nat) (cs : list (list A)) :
  Forall (fun c => length c = n) cs -> length (concat cs) = (n * length cs)%nat.
Proof.
  induction 1 as [|c cs Hc _ IH]; cbn [concat length]; [lia|].
  rewrite length_app, IH, Hc. lia.
Qed.

(** A run of binary client frames: the stream of samples, pending ones
    first, is cut into full chunks across frame boundaries. *)
Lemma client_binary_run (L : Libs) (fs : list (list float32)) :
  forall w : world (codec L),
    (0 < chunk_size w)%nat -> (length (pending w) < chunk_size w)%nat ->
    exists cs rest w' t,
      handle_client_messages L (map (fun f => Binary (tobytes_float32 f)) fs) w =
        (StreamClosed, w', t) /\
      encode_calls t = map (to_pcm L) cs /\
      pending w ++ concat fs = concat cs ++ rest /\
      Forall (fun c => length c = chunk_size w) cs /\
      (length rest < chunk_size w)%nat /\
      pending w' = rest /\ chunk_size w' = chunk_size w.
Proof.
  induction fs as [|f fs IH]; intros w Hs Hp.
  - exists [], (pending w), w, []. cbn. rewrite app_nil_r.
    repeat split; [constructor | assumption].
  - destruct (handle_client_binary_samples L w f Hs Hp)
      as (cs1 & r1 & Hh & Hc1 & Hall1 & Hlt1).
    destruct (IH (with_pending r1 w) Hs Hlt1)
      as (cs2 & rest & w' & t2 & Hrun & Henc & Hc2 & Hall2 & Hlt2 & Hpend & Hsize).
    exists (cs1 ++ cs2), rest, w',
      (concat (map (forward_trace L) (map (to_pcm L) cs1)) ++ t2).
    unfold handle_client_messages in *. cbn [map pump handle_client_message].
    rewrite Hh, Hrun.
    split; [reflexivity|].
    split; [now rewrite encode_calls_app, encode_calls_forward, Henc, map_app|].
    split.
    { cbn [concat]. rewrite concat_app, app_assoc, Hc1, <- !app_assoc.
      f_equal. exact Hc2. }
    split; [apply Forall_app; split; assumption|].
    repeat split; assumption.
Qed.

(** ** C3: full chunks out of a stream of client audio *)

(** C3: starting from an empty chunker, binary client frames carrying a
    multiple of 960 samples in total cause exactly [total / 960] calls of the
    encoder, each on the int16 conversion of 960 consecutive samples, and the
    chunks put end to end are the input samples in arrival order; nothing
    stays pending. *)
Theorem chunker_stream_exact (L : Libs) (w : world (codec L))
    (fs : list (list float32)) (k : nat) :
  chunk_size w = 960%nat -> pending w = [] ->
  length (concat fs) = (960 * k)%nat ->
  exists cs w' t,
    handle_client_messages L (map (fun f => Binary (tobytes_float32 f)) fs) w =
      (StreamClosed, w', t) /\
    encode_calls t = map (fun c => tobytes_int16 (map (scale_int16 L) c)) cs /\
    length (encode_calls t) = k /\
    Forall (fun c => length c = 960%nat) cs /\
    concat cs = concat fs /\
    pending w' = [].
Proof.
  intros Hsize Hempty Htotal.
  destruct (client_binary_run L fs w)
    as (cs & rest & w' & t & Hrun & Henc & Hc & Hall & Hlt & Hpend & _).
  { rewrite Hsize. lia. }
  { rewrite Hempty, Hsize. cbn. lia. }
  rewrite Hempty in Hc. cbn [app] in Hc. rewrite Hsize in Hall, Hlt.
  assert (Hlen : length (concat fs) = (960 * length cs + length rest)%nat).
  { rewrite Hc, length_app, (length_concat_uniform 960 cs Hall). reflexivity. }
  assert (Hrest : rest = []).
  { destruct rest as [|x rest]; [reflexivity|].
    exfalso. cbn [length] in *. lia. }
  rewrite Hrest in Hc, Hlen, Hpend. rewrite app_nil_r in Hc. cbn [length] in Hlen.
  exists cs, w', t.
  split; [exact Hrun|].
  split; [exact Henc|].
  split; [rewrite Henc, length_map; lia|].
  split; [exact Hall|].
  split; [now symmetry | exact Hpend].
Qed.

Lemma chunker_stream_exact_witness :
  exists cs w' t,
    handle_client_messages sample_libs
      (map (fun f => Binary (tobytes_float32 f)) sample_audio) sample_world =
      (StreamClosed, w', t) /\
    encode_calls t = map (fun c => tobytes_int16 (map sample_scale c)) cs /\
    length (encode_calls t) = 1%nat /\
    Forall (fun c => length c = 960%nat) cs /\
    concat cs = concat sample_audio /\
    pending w' = [].
Proof.
  apply (chunker_stream_exact sample_libs sample_world sample_audio 1); reflexivity.
Defined.

(** ** Client text frames *)

Lemma handle_client_text_reset (L : Libs) (w : world (codec L))
    (message : string) (fields : gmap string json) :
  json_loads L message = Some (JObj fields) ->
  fields !! "type"%string = Some (JStr "reset") ->
  handle_client_text L message w = (Ok tt, with_pending [] w, []).
Proof.
  intros Hj Ht. unfold handle_client_text, try_except, bind at 1, loads.
  rewrite Hj. unfold ret at 1. unfold bind at 1, lift, py_get.
  rewrite Ht. reflexivity.
Qed.

Lemma handle_client_text_getLastData (L : Libs) (w : world (codec L))
    (message : string) (fields : gmap string json) :
  json_loads L message = Some (JObj fields) ->
  fields !! "type"%string = Some (JStr "getLastData") ->
  handle_client_text L message w =
    (Ok tt,
     with_self (set_audio_processor
                  (snd (process_remaining L (audio_processor (self w)))) (self w)) w,
     concat (map (forward_trace L)
               (fst (process_remaining L (audio_processor (self w))))) ++
     [ClientSend (Text lastData_text)]).
Proof.
  intros Hj Ht. unfold handle_client_text, try_except, bind at 1, loads.
  rewrite Hj. unfold ret at 1. unfold bind at 1, lift, py_get.
  rewrite Ht. cbn [eq_str].
  replace (bool_decide ("getLastData"%string = "reset"%string)) with false by reflexivity.
  unfold bind at 1. cbn [eq_str].
  replace (bool_decide ("getLastData"%string = "getLastData"%string)) with true by reflexivity.
  unfold bind at 1, call_process_remaining.
  destruct (process_remaining L (audio_processor (self w))) as [r ap].
  unfold bind at 1. rewrite for_each_encode_and_forward.
  reflexivity.
Qed.

Lemma handle_client_text_other (L : Libs) (w : world (codec L))
    (message : string) (fields : gmap string json) :
  json_loads L message = Some (JObj fields) ->
  eq_str (fields !! "type"%string) "reset" = false ->
  eq_str (fields !! "type"%string) "getLastData" = false ->
  handle_client_text L message w = (Ok tt, w, [ServerSend (Text message)]).
Proof.
  intros Hj H1 H2. unfold handle_client_text, try_except, bind at 1, loads.
  rewrite Hj. unfold ret at 1. unfold bind at 1, lift, py_get.
  rewrite H1. unfold bind at 1. rewrite H2. reflexivity.
Qed.

Lemma handle_client_text_malformed (L : Libs) (w : world (codec L)) (message : string) :
  json_loads L message = None ->
  handle_client_text L message w = (Ok tt, w, [ServerSend (Text message)]).
Proof.
  intros Hj. unfold handle_client_text, try_except, bind at 1, loads.
  rewrite Hj. reflexivity.
Qed.

Lemma handle_client_text_not_object (L : Libs) (w : world (codec L))
    (message : string) (v : json) :
  json_loads L message = Some v ->
  (forall fields, v <> JObj fields) ->
  handle_client_text L message w = (Raise AttributeError, w, []).
Proof.
  intros Hj Hv. unfold handle_client_text, try_except, bind at 1, loads.
  rewrite Hj. unfold ret at 1. unfold bind at 1, lift, py_get.
  destruct v; try reflexivity. exfalso. eapply Hv. reflexivity.
Qed.

Lemma process_remaining_nonempty (L : Libs) (ap : AudioProcessor) :
  (0 < length (buffer ap))%nat ->
  process_remaining L ap = ([to_pcm L (buffer ap)], with_buffer [] ap).
Proof.
  intros H. unfold process_remaining.
  destruct (Nat.ltb_spec 0 (length (buffer ap))); [reflexivity | lia].
Qed.

(** ** C4: the drain on [getLastData] *)

(** C4: a [getLastData] text frame that finds [N] samples pending,
    [0 < N < 960], makes one call of the encoder, on the int16 conversion of
    exactly those [N] samples ([2 * N] bytes, no padding); the encoded frame
    goes upstream when the encoder returned one; then the [lastData] text is
    sent to the client; and nothing is pending afterwards. *)
Theorem getLastData_drains_pending (L : Libs) (w : world (codec L))
    (message : string) (fields : gmap string json) :
  json_loads L message = Some (JObj fields) ->
  fields !! "type"%string = Some (JStr "getLastData") ->
  (0 < length (pending w) < 960)%nat ->
  let pcm := tobytes_int16 (map (scale_int16 L) (pending w)) in
  exists w' t,
    handle_client_message L (Text message) w = (Ok tt, w', t) /\
    t = forward_trace L pcm ++ [ClientSend (Text lastData_text)] /\
    encode_calls t = [pcm] /\
    length pcm = (2 * length (pending w))%nat /\
    client_binaries t = [] /\
    w' = with_pending [] w /\
    pending w' = [].
Proof.
  intros Hj Ht HN pcm.
  exists (with_pending [] w), (forward_trace L pcm ++ [ClientSend (Text lastData_text)]).
  cbn [handle_client_message].
  rewrite (handle_client_text_getLastData L w message fields Hj Ht).
  rewrite process_remaining_nonempty by (unfold pending in HN; lia).
  cbn [fst snd map concat]. rewrite app_nil_r.
  split; [reflexivity|].
  split; [reflexivity|].
  split.
  { rewrite encode_calls_app. unfold forward_trace. fold pcm.
    destruct (pcm_to_opus L pcm) as [o|]; [destruct (0 <? len o)|]; reflexivity. }
  split; [apply length_to_pcm|].
  split.
  { unfold client_binaries, forward_trace. rewrite omap_app.
    destruct (pcm_to_opus L pcm) as [o|]; [destruct (0 <? len o)|]; reflexivity. }
  split; reflexivity.
Qed.

Lemma getLastData_drains_pending_witness :
  exists w' t,
    handle_client_message sample_libs (Text getLastData_text) sample_world_pending =
      (Ok tt, w', t) /\
    encode_calls t = [tobytes_int16 (map sample_scale (pending sample_world_pending))] /\
    pending w' = [].
Proof.
  destruct (getLastData_drains_pending sample_libs sample_world_pending
              getLastData_text {["type"%string := JStr "getLastData"]})
    as (w' & t & H1 & _ & H2 & _ & _ & _ & H3).
  - reflexivity.
  - reflexivity.
  - vm_compute. lia.
  - exists w', t. repeat split; assumption.
Defined.

(** ** C6: [reset] *)

(** C6: a [reset] text frame empties the chunker's pending buffer; no message
    is sent to either peer, no encoder call is made, and the container
    buffer, the sample counter, the first-audio flag, the decoder (object and
    codec state), the identity headers and the chunk size stay as they
    were. *)
Theorem reset_clears_only_chunker (L : Libs) (w : world (codec L))
    (message : string) (fields : gmap string json) :
  json_loads L message = Some (JObj fields) ->
  fields !! "type"%string = Some (JStr "reset") ->
  exists w',
    handle_client_message L (Text message) w = (Ok tt, w', []) /\
    pending w' = [] /\
    w' = with_pending [] w /\
    audio_buffer (self w') = audio_buffer (self w) /\
    total_samples (self w') = total_samples (self w) /\
    is_first_audio (self w') = is_first_audio (self w) /\
    decoder (self w') = decoder (self w) /\
    decoders_made w' = decoders_made w /\
    headers (self w') = headers (self w) /\
    chunk_size w' = chunk_size w.
Proof.
  intros Hj Ht. exists (with_pending [] w).
  cbn [handle_client_message].
  rewrite (handle_client_text_reset L w message fields Hj Ht).
  repeat split; reflexivity.
Qed.

Lemma reset_clears_only_chunker_witness :
  exists w',
    handle_client_message sample_libs (Text reset_text) sample_world_pending =
      (Ok tt, w', []) /\
    pending w' = [] /\
    audio_buffer (self w') = audio_buffer (self sample_world_pending).
Proof.
  destruct (reset_clears_only_chunker sample_libs sample_world_pending
              reset_text {["type"%string := JStr "reset"]})
    as (w' & H1 & H2 & _ & H3 & _).
  - reflexivity.
  - reflexivity.
  - exists w'. repeat split; assumption.
Defined.

(** ** Steps of the inbound pump *)

Lemma reset_audio_eq (L : Libs) (w : world (codec L)) :
  reset_audio L w = (Ok tt, after_reset_audio w, []).
Proof. reflexivity. Qed.

Lemma reset_state_eq (L : Libs) (w : world (codec L)) :
  reset_state L w = (Ok tt, after_reset_state L w, []).
Proof. reflexivity. Qed.

Lemma is_tts_object (L : Libs) (w : world (codec L))
    (fields : gmap string json) (st : string) :
  is_tts L (JObj fields) st w = (Ok (tts_state fields st), w, []).
Proof.
  unfold is_tts, tts_state, bind, lift, py_get.
  destruct (eq_str (fields !! "type"%string) "tts"); reflexivity.
Qed.

Lemma is_tts_not_object (L : Libs) (w : world (codec L)) (v : json) (st : string) :
  (forall fields, v <> JObj fields) ->
  is_tts L v st w = (Raise AttributeError, w, []).
Proof.
  intros Hv. destruct v; try reflexivity. exfalso. eapply Hv. reflexivity.
Qed.

Lemma patch_and_send_eq (L : Libs) (w : world (codec L)) :
  0 <= total_samples (self w) ->
  total_samples (self w) * 2 + 36 < 4294967296 ->
  patch_and_send L w = (Ok tt, after_patch w, [ClientSend (Binary (container w))]).
Proof. apply patch_and_send_ok. Qed.

Lemma handle_server_text_malformed (L : Libs) (w : world (codec L)) (message : string) :
  json_loads L message = None ->
  handle_server_text L message w = (Ok tt, w, [ClientSend (Text message)]).
Proof.
  intros Hj. unfold handle_server_text, try_except, bind at 1, loads.
  rewrite Hj. reflexivity.
Qed.

Lemma handle_server_text_not_object (L : Libs) (w : world (codec L))
    (message : string) (v : json) :
  json_loads L message = Some v ->
  (forall fields, v <> JObj fields) ->
  handle_server_text L message w = (Raise AttributeError, w, []).
Proof.
  intros Hj Hv. unfold handle_server_text, try_except, bind at 1, loads.
  rewrite Hj. unfold ret at 1. unfold bind at 1.
  rewrite is_tts_not_object by assumption. reflexivity.
Qed.

Lemma handle_server_text_start (L : Libs) (w : world (codec L))
    (message : string) (fields : gmap string json) :
  json_loads L message = Some (JObj fields) ->
  tts_state fields "start" = true ->
  0 <= total_samples (self w) ->
  total_samples (self w) * 2 + 36 < 4294967296 ->
  handle_server_text L message w =
    if 44 <? len (audio_buffer (self w)) then
      (Ok tt, after_reset_state L (after_patch w),
       [ClientSend (Binary (container w)); ClientSend (Text message)])
    else (Ok tt, after_reset_state L w, [ClientSend (Text message)]).
Proof.
  intros Hj Hs H0 H1. unfold handle_server_text, try_except, bind at 1, loads.
  rewrite Hj. unfold ret at 1. unfold bind at 1.
  rewrite is_tts_object, Hs. unfold bind at 1. unfold bind at 1. unfold bind at 1.
  unfold get_self at 1.
  destruct (44 <? len (audio_buffer (self w))).
  - rewrite patch_and_send_eq by assumption. reflexivity.
  - reflexivity.
Qed.

Lemma handle_server_text_stop (L : Libs) (w : world (codec L))
    (message : string) (fields : gmap string json) :
  json_loads L message = Some (JObj fields) ->
  tts_state fields "start" = false ->
  tts_state fields "stop" = true ->
  0 <= total_samples (self w) ->
  total_samples (self w) * 2 + 36 < 4294967296 ->
  handle_server_text L message w =
    if 44 <? len (audio_buffer (self w)) then
      (Ok tt, after_reset_state L (after_patch w),
       [ClientSend (Binary (container w)); Sleep; ClientSend (Text message)])
    else (Ok tt, w, [ClientSend (Text message)]).
Proof.
  intros Hj Hs Hp H0 H1. unfold handle_server_text, try_except, bind at 1, loads.
  rewrite Hj. unfold ret at 1. unfold bind at 1.
  rewrite is_tts_object, Hs. unfold bind at 1. unfold bind at 1.
  rewrite is_tts_object, Hp. unfold bind at 1.
  unfold get_self at 1.
  destruct (44 <? len (audio_buffer (self w))).
  - unfold bind at 1. rewrite patch_and_send_eq by assumption. reflexivity.
  - reflexivity.
Qed.

Lemma handle_server_text_other (L : Libs) (w : world (codec L))
    (message : string) (fields : gmap string json) :
  json_loads L message = Some (JObj fields) ->
  tts_state fields "start" = false ->
  tts_state fields "stop" = false ->
  handle_server_text L message w = (Ok tt, w, [ClientSend (Text message)]).
Proof.
  intros Hj Hs Hp. unfold handle_server_text, try_except, bind at 1, loads.
  rewrite Hj. unfold ret at 1. unfold bind at 1.
  rewrite is_tts_object, Hs. unfold bind at 1. unfold bind at 1.
  rewrite is_tts_object, Hp. reflexivity.
Qed.

Lemma handle_server_binary_failed (L : Libs) (w : world (codec L))
    (message : bytes) (c : codec L) :
  codec_decode L (dstate (decoder (self w))) message = (c, None) ->
  handle_server_binary L message w = (Ok tt, after_decode c w, []).
Proof.
  intros Hd. unfold handle_server_binary, try_except, bind at 1, decode.
  unfold bind at 1, get_self at 1. rewrite Hd. reflexivity.
Qed.

Lemma handle_server_binary_empty (L : Libs) (w : world (codec L))
    (message : bytes) (c : codec L) :
  codec_decode L (dstate (decoder (self w))) message = (c, Some []) ->
  handle_server_binary L message w = (Ok tt, after_decode c w, []).
Proof.
  intros Hd. unfold handle_server_binary, try_except, bind at 1, decode.
  unfold bind at 1, get_self at 1. rewrite Hd. reflexivity.
Qed.

Lemma handle_server_binary_decoded (L : Libs) (w : world (codec L))
    (message : bytes) (c : codec L) (pcm_data : bytes) :
  codec_decode L (dstate (decoder (self w))) message = (c, Some pcm_data) ->
  0 < len pcm_data ->
  0 <= total_samples (self (after_append c pcm_data w)) ->
  total_samples (self (after_append c pcm_data w)) * 2 + 36 < 4294967296 ->
  handle_server_binary L message w =
    if 32044 <=? len (audio_buffer (self (after_append c pcm_data w))) then
      (Ok tt, after_reset_audio (after_patch (after_append c pcm_data w)),
       [ClientSend (Binary (container (after_append c pcm_data w)))])
    else (Ok tt, after_append c pcm_data w, []).
Proof.
  destruct w as [[dev cid en tok hdrs ap [h ds] buf first total] made].
  unfold after_append, after_decode, with_self.
  cbn [self set_total_samples set_decoder is_first_audio fst snd
       total_samples audio_buffer set_is_first_audio set_audio_buffer
       device_id client_id enable_token token headers audio_processor decoder
       decoders_made dstate handle].
  intros Hd Hpos H0 H1.
  unfold handle_server_binary, try_except, bind at 1, decode.
  unfold bind at 1, get_self at 1. cbn [self decoder dstate handle]. rewrite Hd.
  apply Z.ltb_lt in Hpos.
  unfold bind at 1, update at 1, ret at 1. rewrite Hpos.
  unfold bind at 1, update at 1. unfold bind at 1, get_self at 1.
  cbn [self set_total_samples set_decoder is_first_audio fst snd
       total_samples audio_buffer set_is_first_audio set_audio_buffer
       device_id client_id enable_token token headers audio_processor decoder
       decoders_made].
  destruct first.
  - unfold bind at 1. unfold bind at 1. unfold lift at 1.
    rewrite create_wav_header_ok by assumption.
    unfold bind at 1, update at 1. unfold update at 1.
    unfold bind at 1, update at 1. unfold bind at 1, get_self at 1.
    cbn [self set_total_samples set_decoder is_first_audio fst snd
         total_samples audio_buffer set_is_first_audio set_audio_buffer
         device_id client_id enable_token token headers audio_processor decoder
         decoders_made].
    match goal with |- context [32044 <=? ?x] => destruct (32044 <=? x) end.
    + unfold bind at 1. rewrite patch_and_send_eq by assumption.
      rewrite reset_audio_eq. reflexivity.
    + reflexivity.
  - unfold bind at 1. unfold ret at 1.
    unfold bind at 1, update at 1. unfold bind at 1, get_self at 1.
    cbn [self set_total_samples set_decoder is_first_audio fst snd
         total_samples audio_buffer set_is_first_audio set_audio_buffer
         device_id client_id enable_token token headers audio_processor decoder
         decoders_made].
    match goal with |- context [32044 <=? ?x] => destruct (32044 <=? x) end.
    + unfold bind at 1. rewrite patch_and_send_eq by assumption.
      rewrite reset_audio_eq. reflexivity.
    + reflexivity.
Qed.

(** ** Invariants *)

Lemma len_wav_header (n : Z) : len (wav_header n) = 44.
Proof. unfold len. now rewrite length_wav_header. Qed.

Lemma inbound_inv_range {C} (w : world C) :
  inbound_inv w ->
  0 <= total_samples (self w) /\ total_samples (self w) * 2 + 36 < 4294967296.
Proof.
  intros [(_ & _ & ->) | (_ & Hl & H0 & H1)]; lia.
Qed.

Lemma inbound_inv_init (L : Libs) mac cid enable tok :
  inbound_inv (WebSocketProxy_init L mac cid enable tok).
Proof. left. repeat split; reflexivity. Qed.

Lemma chunker_inv_init (L : Libs) mac cid enable tok :
  chunker_inv (WebSocketProxy_init L mac cid enable tok).
Proof. split; [reflexivity | cbn; lia]. Qed.

Lemma inbound_inv_after_reset_state (L : Libs) (w : world (codec L)) :
  inbound_inv (after_reset_state L w).
Proof. left. repeat split; reflexivity. Qed.

Lemma inbound_inv_after_reset_audio {C} (w : world C) :
  inbound_inv (after_reset_audio w).
Proof. left. repeat split; reflexivity. Qed.

Lemma half_bounds (a : Z) : 0 <= a -> 0 <= a / 2 /\ a / 2 * 2 <= a.
Proof.
  intros H. split; [apply Z.div_pos; lia|].
  rewrite Z.mul_comm. apply Z.mul_div_le. lia.
Qed.

(** The range of the counter after an append, in a state that satisfies the
    invariant. *)
Lemma after_append_range {C} (w : world C) (c : C) (pcm_data : bytes) :
  inbound_inv w -> 0 < len pcm_data <= 1920 ->
  0 <= total_samples (self (after_append c pcm_data w)) /\
  total_samples (self (after_append c pcm_data w)) * 2 + 36 < 4294967296.
Proof.
  intros Hinv Hp. unfold after_append, after_decode, with_self. fields.
  destruct (half_bounds (len pcm_data)) as [Hh0 Hh1]; [lia|].
  destruct Hinv as [(_ & _ & Ht) | (_ & Hl & H0 & H1)]; [rewrite Ht|]; lia.
Qed.

Lemma inbound_inv_after_append {C} (w : world C) (c : C) (pcm_data : bytes) :
  inbound_inv w -> 0 < len pcm_data <= 1920 ->
  len (audio_buffer (self (after_append c pcm_data w))) < 32044 ->
  inbound_inv (after_append c pcm_data w).
Proof.
  intros Hinv Hp Hlt. right. revert Hlt.
  unfold after_append, after_decode, with_self. fields.
  destruct (half_bounds (len pcm_data)) as [Hh0 Hh1]; [lia|].
  destruct Hinv as [(Hf & Hb & Ht) | (Hf & Hl & H0 & H1)]; rewrite Hf.
  - rewrite Hb, Ht, !len_app, len_wav_header.
    change (len (@nil byte)) with 0.
    intros Hlt. split; [reflexivity|]. lia.
  - rewrite !len_app. intros Hlt. split; [reflexivity|]. lia.
Qed.

Lemma handle_server_binary_cases (L : Libs) (w : world (codec L)) (message : bytes) :
  decoder_bounded L -> inbound_inv w ->
  exists c,
    (handle_server_binary L message w = (Ok tt, after_decode c w, []) /\
     (codec_decode L (dstate (decoder (self w))) message = (c, None) \/
      codec_decode L (dstate (decoder (self w))) message = (c, Some []))) \/
    exists pcm_data,
      codec_decode L (dstate (decoder (self w))) message = (c, Some pcm_data) /\
      0 < len pcm_data <= 1920 /\
      handle_server_binary L message w =
        if 32044 <=? len (audio_buffer (self (after_append c pcm_data w))) then
          (Ok tt, after_reset_audio (after_patch (after_append c pcm_data w)),
           [ClientSend (Binary (container (after_append c pcm_data w)))])
        else (Ok tt, after_append c pcm_data w, []).
Proof.
  intros Hb Hinv.
  destruct (codec_decode L (dstate (decoder (self w))) message) as [c [pcm|]] eqn:Hd.
  - exists c. destruct pcm as [|x pcm].
    + left. split; [now apply handle_server_binary_empty | now right].
    + right. exists (x :: pcm).
      assert (Hp : 0 < len (x :: pcm) <= 1920).
      { split; [unfold len; cbn [length]; lia | eapply Hb; exact Hd]. }
      split; [reflexivity|]. split; [exact Hp|].
      destruct (after_append_range w c (x :: pcm) Hinv Hp) as [H0 H1].
      now apply handle_server_binary_decoded.
  - exists c. left. split; [now apply handle_server_binary_failed | now left].
Qed.

Lemma handle_server_binary_inv (L : Libs) (w : world (codec L)) (message : bytes) r w' t :
  decoder_bounded L -> inbound_inv w ->
  handle_server_binary L message w = (r, w', t) ->
  inbound_inv w' /\ audio_processor (self w') = audio_processor (self w).
Proof.
  intros Hb Hinv H.
  destruct (handle_server_binary_cases L w message Hb Hinv)
    as (c & [[He _] | (pcm & _ & Hp & He)]); rewrite He in H.
  - injection H as <- <- <-. split; [exact Hinv | reflexivity].
  - destruct (32044 <=? len (audio_buffer (self (after_append c pcm w)))) eqn:Hc;
      injection H as <- <- <-.
    + split; [apply inbound_inv_after_reset_audio | reflexivity].
    + split; [|reflexivity].
      apply inbound_inv_after_append; try assumption.
      apply Z.leb_gt in Hc. exact Hc.
Qed.

Lemma json_object_dec (v : json) :
  (exists fields, v = JObj fields) \/ (forall fields, v <> JObj fields).
Proof. destruct v; eauto; right; intros f; discriminate. Qed.

Lemma handle_server_text_inv (L : Libs) (w : world (codec L)) (message : string) r w' t :
  inbound_inv w ->
  handle_server_text L message w = (r, w', t) ->
  inbound_inv w' /\ audio_processor (self w') = audio_processor (self w).
Proof.
  intros Hinv H. destruct (inbound_inv_range w Hinv) as [H0 H1].
  destruct (json_loads L message) as [v|] eqn:Hj.
  - destruct (json_object_dec v) as [[fields ->] | Hv].
    + destruct (tts_state fields "start") eqn:Hs.
      * rewrite (handle_server_text_start L w message fields Hj Hs H0 H1) in H.
        destruct (44 <? len (audio_buffer (self w))); injection H as <- <- <-;
          (split; [apply inbound_inv_after_reset_state | reflexivity]).
      * destruct (tts_state fields "stop") eqn:Hp.
        -- rewrite (handle_server_text_stop L w message fields Hj Hs Hp H0 H1) in H.
           destruct (44 <? len (audio_buffer (self w))); injection H as <- <- <-.
           ++ split; [apply inbound_inv_after_reset_state | reflexivity].
           ++ split; [exact Hinv | reflexivity].
        -- rewrite (handle_server_text_other L w message fields Hj Hs Hp) in H.
           injection H as <- <- <-. split; [exact Hinv | reflexivity].
    + rewrite (handle_server_text_not_object L w message v Hj Hv) in H.
      injection H as <- <- <-. split; [exact Hinv | reflexivity].
  - rewrite (handle_server_text_malformed L w message Hj) in H.
    injection H as <- <- <-. split; [exact Hinv | reflexivity].
Qed.

Lemma tobytes_frombuffer_float32 (arr : list float32) :
  forall message, frombuffer_float32 message = Some arr -> tobytes_float32 arr = message.
Proof.
  induction arr as [|x arr IH]; intros message H.
  - destruct message as [|a [|b [|c [|d rest]]]]; try discriminate; [reflexivity|].
    cbn [frombuffer_float32] in H.
    destruct (frombuffer_float32 rest); discriminate.
  - destruct message as [|a [|b [|c [|d rest]]]]; try discriminate.
    cbn [frombuffer_float32] in H.
    destruct (frombuffer_float32 rest) as [l|] eqn:Hr; [|discriminate].
    injection H as <- <-.
    unfold tobytes_float32 in *. cbn [map concat float32_bytes app].
    now rewrite (IH rest).
Qed.

Lemma handle_client_binary_ill_sized (L : Libs) (w : world (codec L)) (message : bytes) :
  frombuffer_float32 message = None ->
  handle_client_binary L message w = (Ok tt, w, []).
Proof.
  intros H. unfold handle_client_binary, try_except, bind at 1, lift.
  rewrite H. reflexivity.
Qed.

Lemma eq_str_true (v : option json) (lit : string) :
  eq_str v lit = true -> v = Some (JStr lit).
Proof.
  destruct v as [[]|]; cbn; try discriminate.
  intros H. apply bool_decide_eq_true in H. now subst.
Qed.

Lemma same_inbound_refl {C} (w : world C) : same_inbound w w.
Proof. repeat split. Qed.

Lemma same_inbound_with_pending {C} (w : world C) (buf : list float32) :
  same_inbound w (with_pending buf w).
Proof. repeat split. Qed.

Lemma handle_client_message_inv (L : Libs) (w : world (codec L)) (message : frame) r w' t :
  chunker_inv w ->
  handle_client_message L message w = (r, w', t) ->
  chunker_inv w' /\ same_inbound w w' /\ r <> Loops.
Proof.
  intros [Hsize Hlt] H. destruct message as [s | b]; cbn [handle_client_message] in H.
  - destruct (json_loads L s) as [v|] eqn:Hj.
    + destruct (json_object_dec v) as [[fields ->] | Hv].
      * destruct (eq_str (fields !! "type"%string) "reset") eqn:Hr.
        -- apply eq_str_true in Hr.
           rewrite (handle_client_text_reset L w s fields Hj Hr) in H.
           injection H as <- <- <-.
           split; [split; [exact Hsize | cbn; lia]|].
           split; [apply same_inbound_with_pending | discriminate].
        -- destruct (eq_str (fields !! "type"%string) "getLastData") eqn:Hg.
           ++ apply eq_str_true in Hg.
              rewrite (handle_client_text_getLastData L w s fields Hj Hg) in H.
              injection H as <- <- <-.
              unfold process_remaining.
              destruct (0 <? length (buffer (audio_processor (self w))))%nat.
              ** split; [split; [exact Hsize | cbn; lia]|].
                 split; [repeat split | discriminate].
              ** split; [split; [exact Hsize | exact Hlt]|].
                 split; [repeat split | discriminate].
           ++ rewrite (handle_client_text_other L w s fields Hj Hr Hg) in H.
              injection H as <- <- <-.
              split; [split; assumption|].
              split; [apply same_inbound_refl | discriminate].
      * rewrite (handle_client_text_not_object L w s v Hj Hv) in H.
        injection H as <- <- <-.
        split; [split; assumption|].
        split; [apply same_inbound_refl | discriminate].
    + rewrite (handle_client_text_malformed L w s Hj) in H.
      injection H as <- <- <-.
      split; [split; assumption|].
      split; [apply same_inbound_refl | discriminate].
  - destruct (frombuffer_float32 b) as [arr|] eqn:Hb.
    + apply tobytes_frombuffer_float32 in Hb. subst b.
      destruct (handle_client_binary_samples L w arr)
        as (cs & rest & He & _ & _ & Hrest); [lia | lia |].
      rewrite He in H. injection H as <- <- <-.
      split; [split; [exact Hsize | rewrite Hsize in Hrest; exact Hrest]|].
      split; [apply same_inbound_with_pending | discriminate].
    + rewrite (handle_client_binary_ill_sized L w b Hb) in H.
      injection H as <- <- <-.
      split; [split; assumption|].
      split; [apply same_inbound_refl | discriminate].
Qed.

Lemma inbound_inv_same {C} (w w' : world C) :
  same_inbound w w' -> inbound_inv w -> inbound_inv w'.
Proof.
  intros (Hb & Hf & Ht & _ & _). unfold inbound_inv. cbn zeta.
  now rewrite Hb, Hf, Ht.
Qed.

Lemma chunker_inv_same_processor {C} (w w' : world C) :
  audio_processor (self w') = audio_processor (self w) ->
  chunker_inv w -> chunker_inv w'.
Proof.
  intros H. unfold chunker_inv, chunk_size, pending. now rewrite H.
Qed.

(** Every state the proxy object can reach satisfies both invariants. *)
Lemma reachable_inv (L : Libs) (w : world (codec L)) :
  decoder_bounded L -> reachable L w -> inbound_inv w /\ chunker_inv w.
Proof.
  intros Hb. induction 1 as [mac cid enable tok
                            | w message r w' t _ [IHi IHc] Hstep
                            | w message r w' t _ [IHi IHc] Hstep].
  - split; [apply inbound_inv_init | apply chunker_inv_init].
  - destruct message as [s | b]; cbn [handle_server_message] in Hstep.
    + destruct (handle_server_text_inv L w s r w' t IHi Hstep) as [Hi Hp].
      split; [exact Hi | now apply (chunker_inv_same_processor w w')].
    + destruct (handle_server_binary_inv L w b r w' t Hb IHi Hstep) as [Hi Hp].
      split; [exact Hi | now apply (chunker_inv_same_processor w w')].
  - destruct (handle_client_message_inv L w message r w' t IHc Hstep) as (Hc & Hs & _).
    split; [now apply (inbound_inv_same w w') | exact Hc].
Qed.

(** ** C10: the chunker holds less than one chunk *)

Lemma process_audio_cases (L : Libs) (ap : AudioProcessor) (input_data : bytes) :
  (0 < buffer_size ap)%nat ->
  process_audio L ap input_data = (Raise ValueError, ap) \/
  exists chunks rest,
    process_audio L ap input_data = (Ok chunks, with_buffer rest ap) /\
    (length rest < buffer_size ap)%nat.
Proof.
  intros Hs. destruct (frombuffer_float32 input_data) as [arr|] eqn:Hf.
  - right. apply tobytes_frombuffer_float32 in Hf. subst input_data.
    destruct (process_audio_spec L ap arr Hs) as (cs & rest & He & _ & _ & Hlt).
    exists (map (to_pcm L) cs), rest. split; assumption.
  - left. unfold process_audio. now rewrite Hf.
Qed.

Lemma chunker_reachable_inv (L : Libs) (ap : AudioProcessor) :
  chunker_reachable L ap ->
  buffer_size ap = 960%nat /\ (length (buffer ap) < 960)%nat.
Proof.
  induction 1 as [| ap input_data r ap' _ [IHs IHl] Hstep
                  | ap _ [IHs IHl] | ap _ [IHs IHl]].
  - split; [reflexivity | cbn; lia].
  - destruct (process_audio_cases L ap input_data) as [He | (chunks & rest & He & Hlt)];
      [lia | | ]; rewrite He in Hstep; injection Hstep as <- <-.
    + split; assumption.
    + split; [exact IHs | cbn; lia].
  - split; [exact IHs | cbn; lia].
  - unfold process_remaining.
    destruct (0 <? length (buffer ap))%nat; cbn [snd].
    + split; [exact IHs | cbn; lia].
    + split; assumption.
Qed.

(** C10: the chunker object, in every state it can be in, has chunk size 960
    and holds fewer than 960 pending samples; each of its three methods
    leaves fewer than 960 samples pending ([reset_buffer] and
    [process_remaining] leave none); and what [process_remaining] hands to the
    encoder is the conversion of the pending samples, fewer than 960 of
    them. *)
Theorem chunker_pending_below_chunk (L : Libs) (ap : AudioProcessor) :
  chunker_reachable L ap ->
  buffer_size ap = 960%nat /\
  (length (buffer ap) < 960)%nat /\
  (forall input_data r ap',
      process_audio L ap input_data = (r, ap') ->
      r <> Loops /\ (length (buffer ap') < 960)%nat) /\
  buffer (reset_buffer ap) = [] /\
  buffer (snd (process_remaining L ap)) = [] /\
  (forall chunk,
      chunk ∈ fst (process_remaining L ap) ->
      chunk = to_pcm L (buffer ap) /\ (length chunk < 2 * 960)%nat).
Proof.
  intros Hr. destruct (chunker_reachable_inv L ap Hr) as [Hs Hl].
  split; [exact Hs|]. split; [exact Hl|]. split; [|split; [|split]].
  - intros input_data r ap' Hstep.
    destruct (process_audio_cases L ap input_data) as [He | (chunks & rest & He & Hlt)];
      [lia | | ]; rewrite He in Hstep; injection Hstep as <- <-.
    + split; [discriminate | exact Hl].
    + split; [discriminate | cbn; lia].
  - reflexivity.
  - unfold process_remaining.
    destruct (Nat.ltb_spec 0 (length (buffer ap))) as [H|H]; cbn [snd].
    + reflexivity.
    + destruct (buffer ap); [reflexivity | cbn in H; lia].
  - intros chunk. unfold process_remaining.
    destruct (0 <? length (buffer ap))%nat; cbn [fst]; intros Hin.
    + apply list_elem_of_singleton in Hin. subst chunk.
      split; [reflexivity|]. rewrite length_to_pcm. lia.
    + apply elem_of_nil in Hin. contradiction.
Qed.

Lemma chunker_pending_below_chunk_witness :
  buffer_size (AudioProcessor_init 960) = 960%nat /\
  (length (buffer (AudioProcessor_init 960)) < 960)%nat.
Proof.
  destruct (chunker_pending_below_chunk sample_libs (AudioProcessor_init 960))
    as (H1 & H2 & _).
  - apply chunker_new.
  - split; assumption.
Defined.

(** ** Termination of the handlers *)

Section NeverLoops.
Context {C : Type}.

Lemma never_loops_ret {A} (a : A) : never_loops (@ret C A a).
Proof. intros w. discriminate. Qed.

Lemma never_loops_raise {A} (e : exn) : never_loops (@raise C A e).
Proof. intros w. discriminate. Qed.

Lemma never_loops_lift {A} (o : outcome A) : o <> Loops -> never_loops (@lift C A o).
Proof. intros H w. exact H. Qed.

Lemma never_loops_get_self : never_loops (@get_self C).
Proof. intros w. discriminate. Qed.

Lemma never_loops_update (f : WebSocketProxy C -> WebSocketProxy C) :
  never_loops (update f).
Proof. intros w. discriminate. Qed.

Lemma never_loops_emit (a : action) : never_loops (@emit C a).
Proof. intros w. discriminate. Qed.

Lemma never_loops_bind {A B} (m : M C A) (k : A -> M C B) :
  never_loops m -> (forall a, never_loops (k a)) -> never_loops (bind m k).
Proof.
  intros Hm Hk w. unfold bind. specialize (Hm w).
  destruct (m w) as [[[a|e|] w1] t1]; cbn in *; try congruence.
  specialize (Hk a w1). destruct (k a w1) as [[r w2] t2]. exact Hk.
Qed.

Lemma never_loops_try {A} (m : M C A) (h : exn -> option (M C A)) :
  never_loops m -> (forall e k, h e = Some k -> never_loops k) ->
  never_loops (try_except m h).
Proof.
  intros Hm Hh w. unfold try_except. specialize (Hm w).
  destruct (m w) as [[[a|e|] w1] t1]; cbn in *; try congruence.
  destruct (h e) as [k|] eqn:He; [|cbn; congruence].
  specialize (Hh e k He w1). destruct (k w1) as [[r w2] t2]. exact Hh.
Qed.

Lemma never_loops_if {A} (b : bool) (m1 m2 : M C A) :
  never_loops m1 -> never_loops m2 -> never_loops (if b then m1 else m2).
Proof. destruct b; auto. Qed.

(** Under [except Exception] a body that cannot loop yields a normal
    return. *)
Lemma try_any_Exception_ok (m : M C unit) (w : world C) :
  never_loops m ->
  exists w' t, try_except m (any_Exception (ret tt)) w = (Ok tt, w', t).
Proof.
  intros Hm. unfold try_except. specialize (Hm w).
  destruct (m w) as [[[[]|e|] w1] t1]; cbn in *; try congruence; eauto.
Qed.
End NeverLoops.

Lemma to_bytes_not_loops (n : Z) (k : nat) : to_bytes n k <> Loops.
Proof. unfold to_bytes. destruct (_ && _); discriminate. Qed.

Lemma create_wav_header_not_loops (n : Z) : create_wav_header n <> Loops.
Proof.
  unfold create_wav_header, to_bytes.
  destruct (_ && _); [|discriminate].
  destruct (_ && _); discriminate.
Qed.

Create HintDb loops.
#[local] Hint Resolve never_loops_ret never_loops_raise never_loops_get_self
  never_loops_update never_loops_emit never_loops_bind never_loops_try
  never_loops_if to_bytes_not_loops create_wav_header_not_loops
  never_loops_lift : loops.

Lemma never_loops_patch_and_send (L : Libs) : never_loops (patch_and_send L).
Proof. unfold patch_and_send. auto 20 with loops. Qed.

Lemma never_loops_reset_audio (L : Libs) : never_loops (reset_audio L).
Proof. unfold reset_audio. auto 20 with loops. Qed.

Lemma never_loops_decode (L : Libs) (message : bytes) : never_loops (decode L message).
Proof.
  unfold decode. apply never_loops_bind; [auto with loops|]. intros p.
  destruct (codec_decode L (dstate (decoder p)) message) as [c [pcm|]];
    auto 20 with loops.
Qed.

Lemma never_loops_handle_server_binary_body (L : Libs) (message : bytes) :
  exists body,
    handle_server_binary L message = try_except body (any_Exception (ret tt)) /\
    never_loops body.
Proof.
  eexists. split; [reflexivity|].
  apply never_loops_bind; [apply never_loops_decode|]. intros pcm_data.
  pose proof (never_loops_patch_and_send L).
  pose proof (never_loops_reset_audio L).
  apply never_loops_if; [|auto with loops].
  apply never_loops_bind; [auto with loops|]. intros _.
  apply never_loops_bind; [auto with loops|]. intros p.
  apply never_loops_bind.
  { apply never_loops_if; auto 20 with loops. }
  intros _. auto 20 with loops.
Qed.

(** A binary upstream frame never ends the pump. *)
Lemma handle_server_binary_returns (L : Libs) (w : world (codec L)) (message : bytes) :
  exists w' t, handle_server_binary L message w = (Ok tt, w', t).
Proof.
  destruct (never_loops_handle_server_binary_body L message) as (body & -> & Hb).
  now apply try_any_Exception_ok.
Qed.

(** ** C8: codec failures *)

Lemma chunks_unique {A} (size : nat) (cs cs' : list (list A)) (r r' : list A) :
  (0 < size)%nat ->
  Forall (fun c => length c = size) cs -> Forall (fun c => length c = size) cs' ->
  (length r < size)%nat -> (length r' < size)%nat ->
  concat cs ++ r = concat cs' ++ r' ->
  cs = cs' /\ r = r'.
Proof.
  intros Hs Hall. revert cs'. induction Hall as [|c cs Hc _ IH]; intros cs' Hall' Hr Hr' E.
  - destruct Hall' as [|c' cs' Hc' _].
    + split; [reflexivity | exact E].
    + exfalso. apply (f_equal length) in E. cbn [concat app] in E.
      rewrite !length_app, Hc' in E. lia.
  - destruct Hall' as [|c' cs' Hc' Hall'].
    + exfalso. apply (f_equal length) in E. cbn [concat app] in E.
      rewrite !length_app, Hc in E. lia.
    + cbn [concat] in E. rewrite <- !app_assoc in E.
      apply app_inj_1 in E as [-> E]; [|congruence].
      destruct (IH cs' Hall' Hr Hr' E) as [-> ->]. split; reflexivity.
Qed.

Lemma server_binaries_forward (L : Libs) (chunks : list bytes) :
  server_binaries (concat (map (forward_trace L) chunks)) = encoded L chunks.
Proof.
  induction chunks as [|c chunks IH]; [reflexivity|].
  cbn [map concat]. unfold server_binaries in *. rewrite omap_app, IH.
  unfold encoded, forward_trace. cbn [omap list_omap].
  destruct (pcm_to_opus L c) as [o|]; [destruct (0 <? len o)|]; reflexivity.
Qed.

Lemma pump_cons_ok (L : Libs) (body : frame -> M (codec L) unit)
    (f : frame) (rest : list frame) (w w1 : world (codec L)) (t1 : list action) :
  body f w = (Ok tt, w1, t1) ->
  pump L body (f :: rest) w =
    (let '(r, w2, t2) := pump L body rest w1 in (r, w2, t1 ++ t2)).
Proof. intros H. cbn [pump]. now rewrite H. Qed.

(** What is sent upstream for a list of chunks does not depend on how the
    list is split. *)
Lemma encoded_app (L : Libs) (a b : list bytes) :
  encoded L (a ++ b) = encoded L a ++ encoded L b.
Proof. unfold encoded. apply omap_app. Qed.

Lemma encoded_failed (L : Libs) (c : bytes) :
  pcm_to_opus L c = None -> encoded L [c] = [].
Proof. intros H. unfold encoded. cbn [omap list_omap]. now rewrite H. Qed.

(** C8: a binary upstream frame whose decode raises, or returns no audio,
    leaves the container buffer, the counter, the flag, the chunker, the
    headers and the decoder object as they were (the codec state inside the
    decoder is whatever the decode left) and sends nothing; every binary
    upstream frame makes the handler return normally, so the inbound pump
    goes on with the next frame.

    A binary client frame of samples [arr] makes the handler return normally
    as well, and the outbound pump goes on with the next frame. The chunks it
    works on are the full 960-sample cuts [cs] of the pending samples
    followed by [arr], which these samples determine; what is [left] stays
    pending. Every one of these chunks is passed to the encoder, in order,
    whatever the encoder made of the chunks before it. What is sent upstream
    is the encoding of each chunk the encoder accepted, in order: if the
    encoding of a chunk [c] fails, what is sent is what is sent for the
    chunks before it followed by what is sent for the chunks after it. A
    client frame that is no whole number of samples is dropped with no other
    effect, and the pump goes on. *)
Theorem codec_failure_drops_one_frame (L : Libs) (w : world (codec L)) :
  chunker_inv w ->
  (forall message c r,
      codec_decode L (dstate (decoder (self w))) message = (c, r) ->
      r = None \/ r = Some [] ->
      exists w',
        handle_server_message L (Binary message) w = (Ok tt, w', []) /\
        audio_buffer (self w') = audio_buffer (self w) /\
        total_samples (self w') = total_samples (self w) /\
        is_first_audio (self w') = is_first_audio (self w) /\
        handle (decoder (self w')) = handle (decoder (self w)) /\
        decoders_made w' = decoders_made w /\
        audio_processor (self w') = audio_processor (self w) /\
        headers (self w') = headers (self w)) /\
  (forall message rest,
      exists w1 t1,
        handle_server_message L (Binary message) w = (Ok tt, w1, t1) /\
        handle_server_messages L (Binary message :: rest) w =
          (let '(r, w2, t2) := handle_server_messages L rest w1 in (r, w2, t1 ++ t2))) /\
  (forall (arr : list float32) (rest : list frame),
      exists (cs : list (list float32)) (left : list float32),
        pending w ++ arr = concat cs ++ left /\
        Forall (fun c => length c = 960%nat) cs /\
        (length left < 960)%nat /\
        (forall cs' left',
            pending w ++ arr = concat cs' ++ left' ->
            Forall (fun c => length c = 960%nat) cs' ->
            (length left' < 960)%nat ->
            cs' = cs /\ left' = left) /\
        let chunks := map (fun c => tobytes_int16 (map (scale_int16 L) c)) cs in
        let t1 := concat (map (forward_trace L) chunks) in
        handle_client_message L (Binary (tobytes_float32 arr)) w =
          (Ok tt, with_pending left w, t1) /\
        handle_client_messages L (Binary (tobytes_float32 arr) :: rest) w =
          (let '(r, w2, t2) := handle_client_messages L rest (with_pending left w) in
           (r, w2, t1 ++ t2)) /\
        same_inbound w (with_pending left w) /\
        chunker_inv (with_pending left w) /\
        Forall (fun c => length c = (2 * 960)%nat) chunks /\
        encode_calls t1 = chunks /\
        server_binaries t1 = encoded L chunks /\
        (forall before c after,
            chunks = before ++ c :: after ->
            pcm_to_opus L c = None ->
            encode_calls t1 = before ++ c :: after /\
            server_binaries t1 = encoded L before ++ encoded L after)) /\
  (forall (message : bytes) (rest : list frame),
      frombuffer_float32 message = None ->
      handle_client_message L (Binary message) w = (Ok tt, w, []) /\
      handle_client_messages L (Binary message :: rest) w =
        handle_client_messages L rest w).
Proof.
  intros [Hsize Hlt]. split; [|split; [|split]].
  - intros message c r Hd [-> | ->]; exists (after_decode c w);
      cbn [handle_server_message].
    + rewrite (handle_server_binary_failed L w message c Hd).
      repeat split; reflexivity.
    + rewrite (handle_server_binary_empty L w message c Hd).
      repeat split; reflexivity.
  - intros message rest.
    destruct (handle_server_binary_returns L w message) as (w1 & t1 & H).
    exists w1, t1. split; [exact H|].
    unfold handle_server_messages. now apply pump_cons_ok.
  - intros arr rest.
    destruct (handle_client_binary_samples L w arr)
      as (cs & r1 & He & Hdec & Hall & Hrest); [lia | lia |].
    rewrite Hsize in Hall, Hrest.
    exists cs, r1.
    split; [exact Hdec|]. split; [exact Hall|]. split; [exact Hrest|].
    split.
    { intros cs' left' Hdec' Hall' Hrest'.
      apply (chunks_unique 960 cs' cs left' r1); try assumption; [lia | congruence]. }
    fold (to_pcm L). cbv zeta.
    split; [exact He|].
    split; [unfold handle_client_messages; now apply pump_cons_ok|].
    split; [apply same_inbound_with_pending|].
    split; [split; [exact Hsize | exact Hrest]|].
    split.
    { apply Forall_map. eapply Forall_impl; [exact Hall|].
      intros c Hc. cbn. rewrite length_to_pcm, Hc. reflexivity. }
    split; [apply encode_calls_forward|].
    split; [apply server_binaries_forward|].
    intros before c after Hsplit Hfail.
    rewrite encode_calls_forward, server_binaries_forward, Hsplit.
    split; [reflexivity|].
    change (c :: after) with ([c] ++ after).
    now rewrite !encoded_app, (encoded_failed L c Hfail).
  - intros message rest Hb.
    assert (He : handle_client_message L (Binary message) w = (Ok tt, w, []))
      by exact (handle_client_binary_ill_sized L w message Hb).
    split; [exact He|].
    unfold handle_client_messages.
    rewrite (pump_cons_ok L (handle_client_message L) (Binary message) rest w w [] He).
    destruct (pump L (handle_client_message L) rest w) as [[r w2] t2]. reflexivity.
Qed.

(** A decode failed: nothing is sent and the container buffer is as it was.
    An encode failed: of the two chunks of one client frame the first is
    rejected by the encoder, and the second is still encoded and sent. *)
Lemma codec_failure_drops_one_frame_witness :
  chunker_inv failing_world /\
  (exists w',
      handle_server_message failing_libs (Binary [x01]) failing_world = (Ok tt, w', []) /\
      audio_buffer (self w') = audio_buffer (self failing_world)) /\
  pcm_to_opus failing_libs (to_pcm failing_libs silent_chunk) = None /\
  handle_client_message failing_libs
      (Binary (tobytes_float32 (silent_chunk ++ loud_chunk))) failing_world =
    (Ok tt, with_pending [] failing_world,
     [Encode (to_pcm failing_libs silent_chunk);
      Encode (to_pcm failing_libs loud_chunk);
      ServerSend (Binary [x02; x00])]).
Proof.
  assert (Hc : chunker_inv failing_world) by (split; [reflexivity | vm_compute; lia]).
  split; [exact Hc|].
  destruct (codec_failure_drops_one_frame failing_libs failing_world Hc)
    as (Hd & _ & He & _).
  split.
  { destruct (Hd [x01] 1%nat None) as (w' & H1 & H2 & _);
      [reflexivity | left; reflexivity |].
    exists w'. split; assumption. }
  split; [reflexivity|].
  destruct (He (silent_chunk ++ loud_chunk) [])
    as (cs & left & _ & _ & _ & Huniq & Hrun & _).
  destruct (Huniq [silent_chunk; loud_chunk] []) as [<- <-].
  - reflexivity.
  - repeat constructor.
  - cbn. lia.
  - rewrite Hrun. reflexivity.
Defined.

(** ** The encoder sees the chunk as it is *)

Lemma int16_bytes_of_bytes (lo hi : byte) : int16_bytes (int16_of_bytes lo hi) = [lo; hi].
Proof.
  unfold int16_bytes, int16_of_bytes.
  pose proof (Z_of_byte_range lo) as Hlo. pose proof (Z_of_byte_range hi) as Hhi.
  set (u := Z_of_byte lo + 256 * Z_of_byte hi).
  assert (Hu : (if u <? 32768 then u else u - 65536) mod 65536 = u).
  { destruct (u <? 32768).
    - apply Z.mod_small. subst u. lia.
    - replace (u - 65536) with (u + (-1) * 65536) by lia.
      rewrite Z.mod_add by lia. apply Z.mod_small. subst u. lia. }
  rewrite Hu. cbn [le_bytes].
  assert (Hu' : u = Z_of_byte lo + Z_of_byte hi * 256) by (subst u; lia).
  assert (H1 : u mod 256 = Z_of_byte lo).
  { rewrite Hu', Z.mod_add by lia. apply Z.mod_small. lia. }
  assert (H2 : u / 256 mod 256 = Z_of_byte hi).
  { rewrite Hu', Z.div_add by lia.
    rewrite (Z.div_small (Z_of_byte lo)) by lia.
    rewrite Z.add_0_l. apply Z.mod_small. lia. }
  rewrite H1, H2, !byte_of_Z_of_byte. reflexivity.
Qed.

Lemma tobytes_frombuffer_int16 (arr : list Z) :
  forall data, frombuffer_int16 data = Some arr -> tobytes_int16 arr = data.
Proof.
  induction arr as [|z arr IH]; intros data H.
  - destruct data as [|lo [|hi rest]]; try discriminate; [reflexivity|].
    cbn [frombuffer_int16] in H. destruct (frombuffer_int16 rest); discriminate.
  - destruct data as [|lo [|hi rest]]; try discriminate.
    cbn [frombuffer_int16] in H.
    destruct (frombuffer_int16 rest) as [l|] eqn:Hr; [|discriminate].
    injection H as <- <-. unfold tobytes_int16 in *. cbn [map concat].
    rewrite int16_bytes_of_bytes, (IH rest Hr). reflexivity.
Qed.

(** [pcm_to_opus] hands the encoder the bytes it was given, or gives up
    before the encoder when they are not whole int16 samples. *)
Lemma pcm_to_opus_encodes (L : Libs) (pcm_data : bytes) :
  pcm_to_opus L pcm_data = codec_encode L pcm_data \/ pcm_to_opus L pcm_data = None.
Proof.
  unfold pcm_to_opus. destruct (frombuffer_int16 pcm_data) as [arr|] eqn:H.
  - left. now rewrite (tobytes_frombuffer_int16 arr pcm_data H).
  - now right.
Qed.

(** ** C5: text frames that are passed through *)

(** Malformed JSON from the client goes upstream as it is; nothing else
    happens. *)
Lemma client_malformed_forwarded (L : Libs) (w : world (codec L)) (message : string) :
  json_loads L message = None ->
  handle_client_message L (Text message) w = (Ok tt, w, [ServerSend (Text message)]).
Proof. apply handle_client_text_malformed. Qed.

(** A JSON object from the client whose type is neither [reset] nor
    [getLastData] goes upstream as it is; nothing else happens. *)
Lemma client_object_forwarded (L : Libs) (w : world (codec L))
    (message : string) (fields : gmap string json) :
  json_loads L message = Some (JObj fields) ->
  fields !! "type"%string <> Some (JStr "reset") ->
  fields !! "type"%string <> Some (JStr "getLastData") ->
  handle_client_message L (Text message) w = (Ok tt, w, [ServerSend (Text message)]).
Proof.
  intros Hj H1 H2. apply (handle_client_text_other L w message fields Hj).
  - destruct (eq_str (fields !! "type"%string) "reset") eqn:E; [|reflexivity].
    apply eq_str_true in E. contradiction.
  - destruct (eq_str (fields !! "type"%string) "getLastData") eqn:E; [|reflexivity].
    apply eq_str_true in E. contradiction.
Qed.

(** Malformed JSON from upstream goes to the client as it is; nothing else
    happens. *)
Lemma server_malformed_forwarded (L : Libs) (w : world (codec L)) (message : string) :
  json_loads L message = None ->
  handle_server_message L (Text message) w = (Ok tt, w, [ClientSend (Text message)]).
Proof. apply handle_server_text_malformed. Qed.

(** C5 fails on the code for a client text frame that is valid JSON but not
    an object (an array, a number, a string, [true], [false], [null]):
    [msg_data.get] raises AttributeError, which the
    [except json.JSONDecodeError] clause does not catch; the exception leaves
    the [async for] loop, the frame is not forwarded, and the outbound pump
    ends without reading the frames that follow. *)
Theorem client_text_non_object_stops_pump (L : Libs) (w : world (codec L))
    (message : string) (v : json) (rest : list frame) :
  json_loads L message = Some v ->
  (forall fields, v <> JObj fields) ->
  handle_client_message L (Text message) w = (Raise AttributeError, w, []) /\
  handle_client_messages L (Text message :: rest) w = (Crashed AttributeError, w, []).
Proof.
  intros Hj Hv.
  pose proof (handle_client_text_not_object L w message v Hj Hv) as H.
  split; [exact H|].
  unfold handle_client_messages. cbn [pump handle_client_message]. now rewrite H.
Qed.

Lemma client_text_non_object_stops_pump_witness :
  handle_client_messages sample_libs [Text "[]"%string; Text hello_text] sample_world =
    (Crashed AttributeError, sample_world, []).
Proof.
  apply (client_text_non_object_stops_pump sample_libs sample_world "[]" (JArr [])
           [Text hello_text]).
  - reflexivity.
  - intros fields. discriminate.
Defined.

(** ** C2: the periodic flush *)

Lemma reachable_server_run (L : Libs) (frames : list frame) :
  forall w r w' t,
    reachable L w -> handle_server_messages L frames w = (r, w', t) -> reachable L w'.
Proof.
  unfold handle_server_messages.
  induction frames as [|f frames IH]; intros w r w' t Hw H; cbn [pump] in H.
  - injection H as <- <- <-. exact Hw.
  - destruct (handle_server_message L f w) as [[o w1] t1] eqn:Hstep.
    assert (Hw1 : reachable L w1) by (eapply reach_server; eassumption).
    destruct o as [u|e|].
    + destruct (pump L (handle_server_message L) frames w1) as [[r2 w2] t2] eqn:Hrun.
      injection H as <- <- <-. eapply IH; eassumption.
    + injection H as <- <- <-. exact Hw1.
    + injection H as <- <- <-. exact Hw1.
Qed.

Lemma sample_decoder_bounded : decoder_bounded sample_libs.
Proof.
  intros c message c' pcm_data H. cbn in H. unfold sample_decode in H.
  destruct message as [|lo [|hi [|x rest]]]; try discriminate.
  injection H as _ <-. apply Z.leb_le. vm_compute. reflexivity.
Qed.

(** C2: in every state the proxy can reach, when a binary upstream frame
    decodes to a non-empty PCM frame and the container buffer, after the
    append, holds 44 + 32000 bytes or more, the handler sends that buffer to
    the client as one binary message, with [4:8] and [40:44] set from the
    counter and every other byte as it was, and leaves the buffer empty, the
    counter at 0 and the first-audio flag set. The decoder is the same
    object as before, in the state the decode left it in; no decoder is
    constructed. *)
Theorem periodic_flush (L : Libs) (w : world (codec L))
    (message : bytes) (c : codec L) (pcm_data : bytes) :
  decoder_bounded L -> reachable L w ->
  codec_decode L (dstate (decoder (self w))) message = (c, Some pcm_data) ->
  pcm_data <> [] ->
  44 + 32000 <= len (audio_buffer (self (after_append c pcm_data w))) ->
  let w1 := after_append c pcm_data w in
  let sent := container w1 in
  exists w',
    handle_server_message L (Binary message) w =
      (Ok tt, w', [ClientSend (Binary sent)]) /\
    length sent = length (audio_buffer (self w1)) /\
    slice 4 8 sent = le_bytes 4 (total_samples (self w1) * 2 + 36) /\
    le_value (slice 4 8 sent) = total_samples (self w1) * 2 + 36 /\
    slice 40 44 sent = le_bytes 4 (total_samples (self w1) * 2) /\
    le_value (slice 40 44 sent) = total_samples (self w1) * 2 /\
    (forall k : nat, ~ (4 <= k < 8)%nat -> ~ (40 <= k < 44)%nat ->
                     sent !! k = audio_buffer (self w1) !! k) /\
    audio_buffer (self w') = [] /\
    total_samples (self w') = 0 /\
    is_first_audio (self w') = true /\
    decoder (self w') = {| handle := handle (decoder (self w)); dstate := c |} /\
    decoders_made w' = decoders_made w /\
    audio_processor (self w') = audio_processor (self w).
Proof.
  intros Hb Hr Hd Hne Hfull w1 sent.
  destruct (reachable_inv L w Hb Hr) as [Hinv _].
  assert (Hp : 0 < len pcm_data <= 1920).
  { split; [|eapply Hb; exact Hd].
    destruct pcm_data; [contradiction | unfold len; cbn [length]; lia]. }
  destruct (after_append_range w c pcm_data Hinv Hp) as [H0 H1].
  fold w1 in H0, H1, Hfull.
  assert (Hlen : (44 <= length (audio_buffer (self w1)))%nat)
    by (unfold len in Hfull; lia).
  exists (after_reset_audio (after_patch w1)).
  split.
  { cbn [handle_server_message].
    rewrite (handle_server_binary_decoded L w message c pcm_data Hd) by (tauto || lia).
    fold w1. destruct (Z.leb_spec 32044 (len (audio_buffer (self w1)))); [reflexivity | lia]. }
  unfold sent, container.
  split; [now apply patch_lengths_length|].
  rewrite patch_lengths_total, patch_lengths_data by assumption.
  rewrite !le_value_le_bytes by lia.
  rewrite !Z.mod_small by (change (256 ^ Z.of_nat 4) with 4294967296; lia).
  repeat (split; [reflexivity|]).
  split; [intros k Hk1 Hk2; now apply patch_lengths_lookup|].
  repeat split; reflexivity.
Qed.

Lemma periodic_flush_witness :
  exists w',
    handle_server_message sample_libs (Binary [x01; x02]) sample_world_16 =
      (Ok tt, w',
       [ClientSend (Binary (container
          (after_append 17%nat (concat (repeat [x01; x02] 960)) sample_world_16)))]) /\
    audio_buffer (self w') = [] /\
    decoder (self w') =
      {| handle := handle (decoder (self sample_world_16)); dstate := 17%nat |}.
Proof.
  destruct (periodic_flush sample_libs sample_world_16 [x01; x02] 17%nat
              (concat (repeat [x01; x02] 960)))
    as (w' & H1 & _ & _ & _ & _ & _ & _ & H2 & _ & _ & H3 & _).
  - exact sample_decoder_bounded.
  - unfold sample_world_16.
    destruct (handle_server_messages sample_libs (repeat (Binary [x01; x02]) 16)
                sample_world) as [[r w16] t] eqn:Hrun.
    apply (reachable_server_run sample_libs _ _ _ _ _ (reach_init _ _ _ _ _) Hrun).
  - vm_compute. reflexivity.
  - discriminate.
  - apply Z.leb_le. vm_compute. reflexivity.
  - exists w'. split; [exact H1|]. split; [exact H2 | exact H3].
Defined.

(** ** C1: one container per start/stop stream *)

Lemma pump_app (L : Libs) (body : frame -> M (codec L) unit) (l1 l2 : list frame) :
  forall (w w1 : world (codec L)) (t1 : list action),
    pump L body l1 w = (StreamClosed, w1, t1) ->
    pump L body (l1 ++ l2) w =
      (let '(r, w2, t2) := pump L body l2 w1 in (r, w2, t1 ++ t2)).
Proof.
  induction l1 as [|f l1 IH]; intros w w1 t1 H; cbn [pump app] in *.
  - injection H as <- <-. destruct (pump L body l2 w) as [[r w2] t2]. reflexivity.
  - destruct (body f w) as [[[u|e|] wa] ta]; try discriminate.
    destruct (pump L body l1 wa) as [[r1 wb] tb] eqn:Hrun.
    injection H as -> -> <-.
    rewrite (IH wa w1 tb Hrun).
    destruct (pump L body l2 w1) as [[r w2] t2]. now rewrite app_assoc.
Qed.

Lemma decodes_960_lengths (L : Libs) c msgs pcms c' :
  decodes_960 L c msgs pcms c' ->
  length pcms = length msgs /\ len (concat pcms) = 1920 * len msgs.
Proof.
  induction 1 as [c | c message c1 pcm msgs pcms c' Hd Hl _ [IH1 IH2]].
  - split; reflexivity.
  - split; [cbn [length]; now rewrite IH1|].
    cbn [concat]. rewrite len_app, IH2. unfold len. cbn [length]. lia.
Qed.

(** Audio frames arriving while a container is under construction and stays
    below the threshold are appended to it; nothing is sent. *)
Lemma inbound_run_appends (L : Libs) c msgs pcms c' :
  decodes_960 L c msgs pcms c' ->
  forall w : world (codec L),
    dstate (decoder (self w)) = c ->
    is_first_audio (self w) = false ->
    0 <= total_samples (self w) ->
    total_samples (self w) * 2 <= len (audio_buffer (self w)) ->
    len (audio_buffer (self w)) + 1920 * len msgs < 32044 ->
    exists w',
      handle_server_messages L (map Binary msgs) w = (StreamClosed, w', []) /\
      audio_buffer (self w') = audio_buffer (self w) ++ concat pcms /\
      total_samples (self w') = total_samples (self w) + 960 * len msgs /\
      is_first_audio (self w') = false /\
      dstate (decoder (self w')) = c' /\
      handle (decoder (self w')) = handle (decoder (self w)) /\
      decoders_made w' = decoders_made w.
Proof.
  induction 1 as [c | c message c1 pcm msgs pcms c' Hd Hl _ IH];
    intros w Hc Hfirst H0 H1 Hlt.
  - exists w. cbn [map concat]. rewrite app_nil_r.
    change (len (@nil bytes)) with 0. rewrite Z.mul_0_r, Z.add_0_r.
    repeat split; try reflexivity; assumption.
  - assert (Hlen : len pcm = 1920) by (unfold len; rewrite Hl; reflexivity).
    assert (Hmsgs : len (message :: msgs) = 1 + len msgs)
      by (unfold len; cbn [length]; lia).
    pose proof (len_nonneg msgs) as Hnn.
    rewrite Hmsgs in Hlt.
    assert (Hbuf : audio_buffer (self (after_append c1 pcm w)) =
                   audio_buffer (self w) ++ pcm).
    { unfold after_append, after_decode, with_self. fields. now rewrite Hfirst. }
    assert (Htot : total_samples (self (after_append c1 pcm w)) =
                   total_samples (self w) + 960).
    { unfold after_append, after_decode, with_self. fields.
      rewrite Hlen. reflexivity. }
    assert (Hstep : handle_server_message L (Binary message) w =
                    (Ok tt, after_append c1 pcm w, [])).
    { cbn [handle_server_message].
      rewrite (handle_server_binary_decoded L w message c1 pcm);
        [| now rewrite Hc | lia | rewrite Htot; lia | rewrite Htot; lia].
      rewrite Hbuf, len_app, Hlen.
      destruct (Z.leb_spec 32044 (len (audio_buffer (self w)) + 1920));
        [lia | reflexivity]. }
    destruct (IH (after_append c1 pcm w)) as (w' & Hrun & Hb' & Ht' & Hf' & Hc' & Hh' & Hm').
    { reflexivity. }
    { reflexivity. }
    { rewrite Htot. lia. }
    { rewrite Htot, Hbuf, len_app, Hlen. lia. }
    { rewrite Hbuf, len_app, Hlen. lia. }
    exists w'. unfold handle_server_messages in *. cbn [map].
    rewrite (pump_cons_ok L _ _ _ _ _ _ Hstep), Hrun. cbn [app].
    split; [reflexivity|].
    split; [rewrite Hb', Hbuf; cbn [concat]; now rewrite app_assoc|].
    split; [rewrite Ht', Htot, Hmsgs; lia|].
    split; [exact Hf'|]. split; [exact Hc'|].
    split; [exact Hh' | exact Hm'].
Qed.

(** The first audio frame after a reset starts the container: a header, then
    the frame. *)
Lemma inbound_first_frame (L : Libs) (w : world (codec L))
    (message : bytes) (c1 : codec L) (pcm : bytes) :
  is_first_audio (self w) = true ->
  audio_buffer (self w) = [] ->
  total_samples (self w) = 0 ->
  codec_decode L (dstate (decoder (self w))) message = (c1, Some pcm) ->
  length pcm = 1920%nat ->
  handle_server_message L (Binary message) w = (Ok tt, after_append c1 pcm w, []) /\
  audio_buffer (self (after_append c1 pcm w)) = wav_header 960 ++ pcm /\
  total_samples (self (after_append c1 pcm w)) = 960.
Proof.
  intros Hfirst Hbuf Htot Hd Hl.
  assert (Hlen : len pcm = 1920) by (unfold len; rewrite Hl; reflexivity).
  assert (Hb : audio_buffer (self (after_append c1 pcm w)) = wav_header 960 ++ pcm).
  { unfold after_append, after_decode, with_self. fields.
    rewrite Hfirst, Hbuf, Htot, Hlen. reflexivity. }
  assert (Ht : total_samples (self (after_append c1 pcm w)) = 960).
  { unfold after_append, after_decode, with_self. fields.
    rewrite Htot, Hlen. reflexivity. }
  split; [|split; assumption].
  cbn [handle_server_message].
  rewrite (handle_server_binary_decoded L w message c1 pcm Hd);
    [| lia | rewrite Ht; lia | rewrite Ht; lia].
  rewrite Hb, len_app, len_wav_header, Hlen. reflexivity.
Qed.

Lemma tts_state_lookup (fields : gmap string json) (st : string) :
  fields !! "type"%string = Some (JStr "tts") ->
  fields !! "state"%string = Some (JStr st) ->
  forall st', tts_state fields st' = bool_decide (st = st').
Proof.
  intros Ht Hs st'. unfold tts_state. rewrite Ht, Hs. reflexivity.
Qed.

(** C1: from a freshly reset inbound audio state, a [{tts,start}] text, then
    [K] compressed frames that each decode to 960 samples, with [1 <= K] and
    [K * 1920 < 32000], then a [{tts,stop}] text: the client is sent the start
    text, one binary container, and the stop text (the pump sleeps before
    it). The container has [44 + 2*K*960] bytes, [4:8] is the little-endian
    [2*K*960 + 36], [40:44] is the little-endian [2*K*960], and after the
    header come the [K] decoded frames in arrival order. *)
Theorem tts_stream_single_container (L : Libs) (w : world (codec L))
    (start_text stop_text : string) (start_fields stop_fields : gmap string json)
    (msgs pcms : list bytes) (c' : codec L) :
  audio_buffer (self w) = [] ->
  is_first_audio (self w) = true ->
  total_samples (self w) = 0 ->
  json_loads L start_text = Some (JObj start_fields) ->
  start_fields !! "type"%string = Some (JStr "tts") ->
  start_fields !! "state"%string = Some (JStr "start") ->
  json_loads L stop_text = Some (JObj stop_fields) ->
  stop_fields !! "type"%string = Some (JStr "tts") ->
  stop_fields !! "state"%string = Some (JStr "stop") ->
  1 <= len msgs -> len msgs * 1920 < 32000 ->
  decodes_960 L (codec_init L) msgs pcms c' ->
  let K := len msgs in
  exists w' sent,
    handle_server_messages L
      (Text start_text :: map Binary msgs ++ [Text stop_text]) w =
      (StreamClosed, w',
       [ClientSend (Text start_text); ClientSend (Binary sent); Sleep;
        ClientSend (Text stop_text)]) /\
    client_binaries
      [ClientSend (Text start_text); ClientSend (Binary sent); Sleep;
       ClientSend (Text stop_text)] = [sent] /\
    len sent = 44 + 2 * K * 960 /\
    slice 4 8 sent = le_bytes 4 (2 * K * 960 + 36) /\
    le_value (slice 4 8 sent) = 2 * K * 960 + 36 /\
    slice 40 44 sent = le_bytes 4 (2 * K * 960) /\
    le_value (slice 40 44 sent) = 2 * K * 960 /\
    drop 44 sent = concat pcms /\
    length pcms = length msgs /\
    sent = wav_header (K * 960) ++ concat pcms.
Proof.
  intros Hbuf Hfirst Htot Hj1 Ht1 Hs1 Hj2 Ht2 Hs2 HK1 HK2 Hdec K.
  (* the start text *)
  assert (Hstart : handle_server_message L (Text start_text) w =
                   (Ok tt, after_reset_state L w, [ClientSend (Text start_text)])).
  { cbn [handle_server_message].
    rewrite (handle_server_text_start L w start_text start_fields Hj1);
      [| rewrite (tts_state_lookup _ _ Ht1 Hs1); reflexivity
       | rewrite Htot; lia | rewrite Htot; lia].
    rewrite Hbuf. reflexivity. }
  (* the first frame *)
  remember (codec_init L) as c0 eqn:Hc0 in Hdec.
  destruct Hdec as [c | c message c1 pcm msgs pcms c' Hd Hl Hrest].
  { exfalso. unfold len in HK1. cbn [length] in HK1. lia. }
  subst c.
  assert (HKeq : K = 1 + len msgs) by (unfold K, len; cbn [length]; lia).
  pose proof (len_nonneg msgs) as Hnn.
  assert (Hlen : len pcm = 1920) by (unfold len; rewrite Hl; reflexivity).
  set (w0 := after_reset_state L w).
  destruct (inbound_first_frame L w0 message c1 pcm) as (Hstep1 & Hb1 & Htot1);
    try reflexivity; try assumption.
  set (w1 := after_append c1 pcm w0) in *.
  (* the other frames *)
  destruct (inbound_run_appends L c1 msgs pcms c' Hrest w1)
    as (wK & Hrun & HbK & HtK & HfK & _).
  { reflexivity. }
  { reflexivity. }
  { rewrite Htot1. lia. }
  { rewrite Htot1, Hb1, len_app, len_wav_header, Hlen. lia. }
  { rewrite Hb1, len_app, len_wav_header, Hlen. fold K in HK2. lia. }
  rewrite Htot1 in HtK. rewrite Hb1 in HbK.
  destruct (decodes_960_lengths L c1 msgs pcms c' Hrest) as [Hlp Hlc].
  (* the stop text *)
  assert (Htotal : total_samples (self wK) = K * 960) by (rewrite HtK; lia).
  assert (HlenK : len (audio_buffer (self wK)) = 44 + 2 * K * 960).
  { rewrite HbK, !len_app, len_wav_header, Hlen, Hlc. lia. }
  assert (Hsent : container wK = wav_header (K * 960) ++ pcm ++ concat pcms).
  { unfold container. rewrite HbK, Htotal, <- app_assoc.
    apply patch_lengths_header. }
  assert (Hstop : handle_server_message L (Text stop_text) wK =
                  (Ok tt, after_reset_state L (after_patch wK),
                   [ClientSend (Binary (container wK)); Sleep;
                    ClientSend (Text stop_text)])).
  { cbn [handle_server_message].
    rewrite (handle_server_text_stop L wK stop_text stop_fields Hj2);
      [| rewrite (tts_state_lookup _ _ Ht2 Hs2); reflexivity
       | rewrite (tts_state_lookup _ _ Ht2 Hs2); reflexivity
       | rewrite Htotal; lia | rewrite Htotal; lia].
    destruct (Z.ltb_spec 44 (len (audio_buffer (self wK)))); [reflexivity | lia]. }
  exists (after_reset_state L (after_patch wK)), (container wK).
  split.
  { unfold handle_server_messages in *.
    rewrite (pump_cons_ok L _ _ _ _ _ _ Hstart). fold w0.
    cbn [map app]. rewrite (pump_cons_ok L _ _ _ _ _ _ Hstep1).
    rewrite (pump_app L _ _ [Text stop_text] _ _ _ Hrun).
    rewrite (pump_cons_ok L _ _ _ _ _ _ Hstop). reflexivity. }
  split; [reflexivity|].
  assert (H44 : (44 <= length (audio_buffer (self wK)))%nat)
    by (unfold len in HlenK; lia).
  split.
  { unfold container, len. rewrite patch_lengths_length by assumption.
    exact HlenK. }
  assert (Hf1 : slice 4 8 (container wK) = le_bytes 4 (2 * K * 960 + 36)).
  { unfold container. rewrite patch_lengths_total, Htotal by assumption.
    f_equal. lia. }
  assert (Hf2 : slice 40 44 (container wK) = le_bytes 4 (2 * K * 960)).
  { unfold container. rewrite patch_lengths_data, Htotal by assumption.
    f_equal. lia. }
  rewrite Hf1, Hf2, !le_value_le_bytes by lia.
  rewrite !Z.mod_small by (change (256 ^ Z.of_nat 4) with 4294967296; lia).
  repeat (split; [reflexivity|]).
  split.
  { rewrite Hsent. cbn [concat].
    rewrite <- (length_wav_header (K * 960)). apply drop_app_length. }
  split; [cbn [length]; now rewrite Hlp | exact Hsent].
Qed.

Lemma tts_stream_single_container_witness :
  exists w' sent,
    handle_server_messages sample_libs
      (Text tts_start_text :: map Binary sample_frames ++ [Text tts_stop_text])
      sample_world =
      (StreamClosed, w',
       [ClientSend (Text tts_start_text); ClientSend (Binary sent); Sleep;
        ClientSend (Text tts_stop_text)]) /\
    len sent = 44 + 2 * 2 * 960 /\
    sent = wav_header (2 * 960) ++ concat sample_pcms.
Proof.
  destruct (tts_stream_single_container sample_libs sample_world
              tts_start_text tts_stop_text
              (<["state"%string := JStr "start"]> {["type"%string := JStr "tts"]})
              (<["state"%string := JStr "stop"]> {["type"%string := JStr "tts"]})
              sample_frames sample_pcms 2%nat)
    as (w' & sent & H1 & _ & H2 & _ & _ & _ & _ & _ & _ & H3);
    try reflexivity.
  - vm_compute. discriminate.
  - repeat (econstructor; try reflexivity).
  - exists w', sent. split; [exact H1|]. split; [exact H2 | exact H3].
Defined.

(** ** C9: the connections and the proxy object *)

(** C9, as stated, fails: the three samples connection 1 left in the chunker
    are encoded and sent upstream on connection 2 when connection 2 asks for
    the last data; without connection 1's message, connection 2 only gets its
    acknowledgement. *)
Lemma sessions_not_isolated :
  actions_of 2 (snd (serve sample_libs sample_events ∅ sample_world)) <>
  actions_of 2 (snd (serve sample_libs
                       (filter (fun e => conn e <> 1%nat) sample_events)
                       ∅ sample_world)).
Proof. vm_compute. discriminate. Qed.

(** *** Parts of the proxy object a handler does not write *)

Section Keeps.
Context {C T : Type} (proj : WebSocketProxy C -> T).

Lemma keeps_ret {A} (a : A) : keeps proj (@ret C A a).
Proof. intros w. reflexivity. Qed.

Lemma keeps_raise {A} (e : exn) : keeps proj (@raise C A e).
Proof. intros w. reflexivity. Qed.

Lemma keeps_diverge {A} : keeps proj (@diverge C A).
Proof. intros w. reflexivity. Qed.

Lemma keeps_lift {A} (o : outcome A) : keeps proj (@lift C A o).
Proof. intros w. reflexivity. Qed.

Lemma keeps_get_self : keeps proj (@get_self C).
Proof. intros w. reflexivity. Qed.

Lemma keeps_emit (a : action) : keeps proj (@emit C a).
Proof. intros w. reflexivity. Qed.

Lemma keeps_update (f : WebSocketProxy C -> WebSocketProxy C) :
  (forall p, proj (f p) = proj p) -> keeps proj (update f).
Proof. intros H w. apply H. Qed.

Lemma keeps_bind {A B} (m : M C A) (k : A -> M C B) :
  keeps proj m -> (forall a, keeps proj (k a)) -> keeps proj (bind m k).
Proof.
  intros Hm Hk w. unfold bind. specialize (Hm w).
  destruct (m w) as [[[a|e|] w1] t1]; cbn [fst snd] in *; try exact Hm.
  specialize (Hk a w1). destruct (k a w1) as [[r w2] t2]. cbn [fst snd] in *.
  now rewrite Hk.
Qed.

Lemma keeps_try {A} (m : M C A) (h : exn -> option (M C A)) :
  keeps proj m -> (forall e k, h e = Some k -> keeps proj k) ->
  keeps proj (try_except m h).
Proof.
  intros Hm Hh w. unfold try_except. specialize (Hm w).
  destruct (m w) as [[[a|e|] w1] t1]; cbn [fst snd] in *; try exact Hm.
  destruct (h e) as [k|] eqn:He; [|exact Hm].
  specialize (Hh e k He w1). destruct (k w1) as [[r w2] t2]. cbn [fst snd] in *.
  now rewrite Hh.
Qed.

Lemma keeps_if {A} (b : bool) (m1 m2 : M C A) :
  keeps proj m1 -> keeps proj m2 -> keeps proj (if b then m1 else m2).
Proof. destruct b; auto. Qed.

Lemma keeps_for_each {A} (xs : list A) (body : A -> M C unit) :
  (forall x, keeps proj (body x)) -> keeps proj (for_each xs body).
Proof.
  intros H. induction xs as [|x xs IH]; cbn [for_each].
  - apply keeps_ret.
  - apply keeps_bind; auto.
Qed.
End Keeps.

(** One step of the search for [keeps]: the shape of the computation
    decides. *)
Ltac keeps_step :=
  match goal with
  | |- keeps _ (bind _ _) => apply keeps_bind; [|intros ?]
  | |- keeps _ (try_except _ _) =>
      apply keeps_try; [|intros [] ? [= <-] || (intros [] ?; discriminate)]
  | |- keeps _ (for_each _ _) => apply keeps_for_each; intros ?
  | |- keeps _ (if _ then _ else _) => apply keeps_if
  | |- keeps _ (match ?x with Some _ => _ | None => _ end) => destruct x
  | |- keeps _ (let '(_, _) := ?x in _) => destruct x
  | |- keeps _ (ret _) => apply keeps_ret
  | |- keeps _ (raise _) => apply keeps_raise
  | |- keeps _ (lift _) => apply keeps_lift
  | |- keeps _ get_self => apply keeps_get_self
  | |- keeps _ (emit _) => apply keeps_emit
  | |- keeps _ (update _) => apply keeps_update; intros ?; reflexivity
  end.

Lemma keeps_headers_server (L : Libs) (message : frame) :
  keeps headers (handle_server_message L message).
Proof.
  assert (Hnew : keeps headers (new_decoder L)) by (intros w; reflexivity).
  assert (Hpatch : keeps headers (patch_and_send L))
    by (unfold patch_and_send; repeat keeps_step).
  assert (Hra : keeps headers (reset_audio L))
    by (unfold reset_audio; repeat keeps_step).
  assert (Hrs : keeps headers (reset_state L))
    by (unfold reset_state; repeat (keeps_step || assumption)).
  destruct message as [s | b]; cbn [handle_server_message].
  - unfold handle_server_text, loads, is_tts, only_JSONDecodeError.
    repeat (keeps_step || assumption).
  - unfold handle_server_binary, decode, any_Exception.
    repeat (keeps_step || assumption).
Qed.

Lemma keeps_call_process_audio (L : Libs) {T} (proj : WebSocketProxy (codec L) -> T)
    (input_data : bytes) :
  (forall ap p, proj (set_audio_processor ap p) = proj p) ->
  keeps proj (call_process_audio L input_data).
Proof.
  intros H w. unfold call_process_audio.
  destruct (process_audio L (audio_processor (self w)) input_data) as [r ap].
  apply H.
Qed.

Lemma keeps_call_process_remaining (L : Libs) {T} (proj : WebSocketProxy (codec L) -> T) :
  (forall ap p, proj (set_audio_processor ap p) = proj p) ->
  keeps proj (call_process_remaining L).
Proof.
  intros H w. unfold call_process_remaining.
  destruct (process_remaining L (audio_processor (self w))) as [r ap].
  apply H.
Qed.

(** The outbound pump writes nothing but the chunker. *)
Lemma keeps_client (L : Libs) {T} (proj : WebSocketProxy (codec L) -> T)
    (message : frame) :
  (forall ap p, proj (set_audio_processor ap p) = proj p) ->
  keeps proj (handle_client_message L message).
Proof.
  intros H.
  pose proof (keeps_call_process_audio L proj) as Hpa.
  pose proof (keeps_call_process_remaining L proj H) as Hpr.
  assert (Hef : forall chunk, keeps proj (encode_and_forward L chunk)).
  { intros chunk. unfold encode_and_forward. repeat keeps_step. }
  destruct message as [s | b]; cbn [handle_client_message].
  - unfold handle_client_text, loads, only_JSONDecodeError.
    repeat (keeps_step || assumption || apply Hef
            || (apply keeps_update; intros ?; apply H)).
  - unfold handle_client_binary, any_Exception.
    repeat (keeps_step || apply Hef || (apply Hpa; exact H)).
Qed.

(** The inbound pump does not write the chunker. *)
Lemma keeps_audio_processor_server (L : Libs) (message : frame) :
  keeps audio_processor (handle_server_message L message).
Proof.
  assert (Hnew : keeps audio_processor (new_decoder L)) by (intros w; reflexivity).
  assert (Hpatch : keeps audio_processor (patch_and_send L))
    by (unfold patch_and_send; repeat keeps_step).
  assert (Hra : keeps audio_processor (reset_audio L))
    by (unfold reset_audio; repeat keeps_step).
  assert (Hrs : keeps audio_processor (reset_state L))
    by (unfold reset_state; repeat (keeps_step || assumption)).
  destruct message as [s | b]; cbn [handle_server_message].
  - unfold handle_server_text, loads, is_tts, only_JSONDecodeError.
    repeat (keeps_step || assumption).
  - unfold handle_server_binary, decode, any_Exception.
    repeat (keeps_step || assumption).
Qed.

Lemma keeps_headers_event (L : Libs) (e : event) : keeps headers (handle_event L e).
Proof.
  unfold handle_event. destruct (from e).
  - apply keeps_client. reflexivity.
  - apply keeps_headers_server.
Qed.

(** The identity headers every connection is opened with are those the proxy
    object was built with. *)
Lemma serve_keeps_headers (L : Libs) (events : list event) :
  forall (closed : gset nat) (w : world (codec L)),
    headers (self (fst (serve L events closed w))) = headers (self w).
Proof.
  induction events as [|e events IH]; intros closed w; cbn [serve]; [reflexivity|].
  destruct (bool_decide (conn e ∈ closed)); [apply IH|].
  pose proof (keeps_headers_event L e w) as He.
  destruct (handle_event L e w) as [[[u|x|] w1] t1]; cbn [fst snd] in He.
  - specialize (IH closed w1). destruct (serve L events closed w1) as [w2 t2].
    cbn [fst] in *. now rewrite IH.
  - specialize (IH ({[conn e]} ∪ closed) w1).
    destruct (serve L events ({[conn e]} ∪ closed) w1) as [w2 t2].
    cbn [fst] in *. now rewrite IH.
  - exact He.
Qed.

Lemma not_closed_empty (c : nat) (d : Decision (c ∈ (∅ : gset nat))) :
  @bool_decide (c ∈ (∅ : gset nat)) d = false.
Proof. apply bool_decide_eq_false_2. apply not_elem_of_empty. Qed.

(** A client frame shorter than a chunk, arriving at an empty chunker, is
    kept whole. *)
Lemma handle_client_binary_short (L : Libs) (w : world (codec L)) (arr : list float32) :
  chunker_inv w -> pending w = [] -> (length arr < 960)%nat ->
  handle_client_message L (Binary (tobytes_float32 arr)) w =
    (Ok tt, with_pending arr w, []).
Proof.
  intros [Hsize Hlt] Hp Ha. cbn [handle_client_message].
  destruct (handle_client_binary_samples L w arr)
    as (cs & rest & He & Hc & Hall & Hrest); [lia | lia |].
  rewrite Hp in Hc. cbn [app] in Hc. rewrite Hsize in Hall.
  destruct cs as [|c cs].
  - cbn [concat app] in Hc. subst rest. exact He.
  - exfalso. apply (f_equal length) in Hc.
    apply Forall_cons in Hall as [Hc1 _].
    cbn [concat] in Hc. rewrite !length_app, Hc1 in Hc. lia.
Qed.

(** C9 (amended): all connections run on the one proxy object. Whatever
    connections [a] and [b] are, the samples a client frame of [a] leaves in
    the chunker are encoded and sent upstream on [b] when [b]'s client asks
    for the last data; the audio an upstream frame of [a] puts in the
    container buffer, counted by the counter and decoded by the decoder, is
    sent to [b]'s client when [b]'s upstream ends a stream; and the identity
    headers are those the proxy object was built with, for every
    connection. *)
Theorem connections_share_proxy (L : Libs) (w : world (codec L)) (a b : nat) :
  chunker_inv w -> pending w = [] ->
  audio_buffer (self w) = [] -> is_first_audio (self w) = true ->
  total_samples (self w) = 0 ->
  (forall (arr : list float32) (message : string) (fields : gmap string json),
      (0 < length arr < 960)%nat ->
      json_loads L message = Some (JObj fields) ->
      fields !! "type"%string = Some (JStr "getLastData") ->
      snd (serve L [ {| conn := a; from := FromClient;
                        msg := Binary (tobytes_float32 arr) |};
                     {| conn := b; from := FromClient; msg := Text message |} ] ∅ w) =
      map (pair b) (forward_trace L (tobytes_int16 (map (scale_int16 L) arr)) ++
                    [ClientSend (Text lastData_text)])) /\
  (forall (message : bytes) (c1 : codec L) (pcm_data : bytes)
          (stop_text : string) (fields : gmap string json),
      codec_decode L (dstate (decoder (self w))) message = (c1, Some pcm_data) ->
      length pcm_data = 1920%nat ->
      json_loads L stop_text = Some (JObj fields) ->
      fields !! "type"%string = Some (JStr "tts") ->
      fields !! "state"%string = Some (JStr "stop") ->
      snd (serve L [ {| conn := a; from := FromServer; msg := Binary message |};
                     {| conn := b; from := FromServer; msg := Text stop_text |} ] ∅ w) =
      [(b, ClientSend (Binary (wav_header 960 ++ pcm_data))); (b, Sleep);
       (b, ClientSend (Text stop_text))]) /\
  (forall events : list event,
      headers (self (fst (serve L events ∅ w))) = headers (self w)).
Proof.
  intros Hinv Hp Hbuf Hfirst Htot. split; [|split].
  - intros arr message fields Ha Hj Ht.
    cbn [serve conn from msg]. rewrite !not_closed_empty.
    unfold handle_event. cbn [from msg].
    rewrite (handle_client_binary_short L w arr Hinv Hp) by lia.
    cbn [handle_client_message].
    rewrite (handle_client_text_getLastData L _ message fields Hj Ht).
    unfold with_pending, with_self. fields.
    rewrite process_remaining_nonempty by (cbn [buffer with_buffer]; lia).
    cbn [fst snd map concat app buffer with_buffer]. unfold to_pcm.
    now rewrite !app_nil_r.
  - intros message c1 pcm stop_text fields Hd Hl Hj Ht Hs.
    cbn [serve conn from msg]. rewrite !not_closed_empty.
    unfold handle_event. cbn [from msg].
    destruct (inbound_first_frame L w message c1 pcm Hfirst Hbuf Htot Hd Hl)
      as (Hstep & Hb1 & Ht1).
    rewrite Hstep.
    assert (Hlen : len pcm = 1920) by (unfold len; rewrite Hl; reflexivity).
    cbn [handle_server_message].
    rewrite (handle_server_text_stop L _ stop_text fields Hj);
      [| rewrite (tts_state_lookup _ _ Ht Hs); reflexivity
       | rewrite (tts_state_lookup _ _ Ht Hs); reflexivity
       | rewrite Ht1; lia | rewrite Ht1; lia].
    unfold container. rewrite Hb1, Ht1, len_app, len_wav_header, Hlen.
    rewrite patch_lengths_header. reflexivity.
  - intros events. apply serve_keeps_headers.
Qed.

Lemma connections_share_proxy_witness :
  snd (serve sample_libs sample_events ∅ sample_world) =
  map (pair 2%nat)
    (forward_trace sample_libs
       (tobytes_int16 (map sample_scale (repeat (x00, x00, x07, x00) 3))) ++
     [ClientSend (Text lastData_text)]).
Proof.
  assert (Hc : chunker_inv sample_world) by (split; [reflexivity | vm_compute; lia]).
  destruct (connections_share_proxy sample_libs sample_world 1 2 Hc
              eq_refl eq_refl eq_refl eq_refl) as (H1 & _).
  apply (H1 (repeat (x00, x00, x07, x00) 3) getLastData_text
            {["type"%string := JStr "getLastData"]}).
  - vm_compute. lia.
  - reflexivity.
  - reflexivity.
Defined.

(** ** The chunker inside the proxy *)

(** In every state the proxy object can reach, whatever the decoder does,
    the chunker cuts at 960 samples and holds fewer than 960. *)
Lemma reachable_chunker_inv (L : Libs) (w : world (codec L)) :
  reachable L w -> chunker_inv w.
Proof.
  induction 1 as [mac cid enable tok
                 | w message r w' t _ IH Hstep
                 | w message r w' t _ IH Hstep].
  - apply chunker_inv_init.
  - apply (chunker_inv_same_processor w w'); [|exact IH].
    pose proof (keeps_audio_processor_server L message w) as Hk.
    rewrite Hstep in Hk. exact Hk.
  - now destruct (handle_client_message_inv L w message r w' t IH Hstep).
Qed.

(** What a [getLastData] drain hands to the encoder, in a reachable state:
    fewer than 960 samples. *)
Lemma getLastData_remainder_short (L : Libs) (w : world (codec L))
    (message : string) (fields : gmap string json) r w' t :
  reachable L w ->
  json_loads L message = Some (JObj fields) ->
  fields !! "type"%string = Some (JStr "getLastData") ->
  handle_client_message L (Text message) w = (r, w', t) ->
  Forall (fun pcm => (length pcm < 2 * 960)%nat) (encode_calls t) /\ pending w' = [].
Proof.
  intros Hr Hj Ht Hstep. destruct (reachable_chunker_inv L w Hr) as [_ Hlt].
  cbn [handle_client_message] in Hstep.
  rewrite (handle_client_text_getLastData L w message fields Hj Ht) in Hstep.
  injection Hstep as <- <- <-.
  rewrite encode_calls_app, encode_calls_forward. cbn [encode_calls omap list_omap].
  rewrite app_nil_r. unfold process_remaining, pending in *.
  destruct (Nat.ltb_spec 0 (length (buffer (audio_processor (self w))))) as [H|H];
    cbn [fst snd].
  - split; [|reflexivity]. constructor; [|constructor].
    rewrite length_to_pcm. lia.
  - split; [constructor|]. unfold with_self. fields.
    destruct (buffer (audio_processor (self w))); [reflexivity | cbn in H; lia].
Qed.

(** * Further properties of the code *)

(** ** [get_mac_address] *)

Lemma hex_char_unhex (d : Z) :
  0 <= d < 16 ->
  Ascii.eqb (hex_char d) ":" = false /\ unhex (hex_char d) = Some d.
Proof.
  intros H.
  assert (Hd : d = 0 \/ d = 1 \/ d = 2 \/ d = 3 \/ d = 4 \/ d = 5 \/ d = 6 \/ d = 7 \/
               d = 8 \/ d = 9 \/ d = 10 \/ d = 11 \/ d = 12 \/ d = 13 \/ d = 14 \/
               d = 15) by lia.
  repeat (destruct Hd as [-> | Hd]; [split; reflexivity|]).
  subst d. split; reflexivity.
Qed.

Lemma mac_byte (mac e : Z) :
  0 <= e -> Z.land (Z.shiftr mac e) 255 = (mac / 2 ^ e) mod 256.
Proof.
  intros He. rewrite Z.shiftr_div_pow2 by exact He.
  change 255 with (Z.ones 8). rewrite Z.land_ones by lia. reflexivity.
Qed.

Lemma parse_two_digits (acc v : Z) (rest : string) :
  0 <= v < 256 ->
  parse_mac_from acc (String (hex_char (v / 16)) (String (hex_char (v mod 16)) rest)) =
  parse_mac_from (acc * 256 + v) rest.
Proof.
  intros Hv.
  assert (H1 : 0 <= v / 16 < 16).
  { split; [apply Z.div_pos; lia | apply Z.div_lt_upper_bound; lia]. }
  assert (H2 : 0 <= v mod 16 < 16) by (apply Z.mod_pos_bound; lia).
  destruct (hex_char_unhex _ H1) as [E1 U1].
  destruct (hex_char_unhex _ H2) as [E2 U2].
  cbn [parse_mac_from]. rewrite E1, U1, E2, U2. f_equal.
  pose proof (Z.div_mod v 16 ltac:(lia)). lia.
Qed.

(** The device id is seventeen characters, six pairs of lowercase
    hexadecimal digits separated by colons, most significant byte first; read
    back, it gives the low 48 bits of the node number; so two node numbers
    below [2^48] with the same device id are the same. *)
Theorem get_mac_address_round_trip (mac : Z) :
  get_mac_address mac =
    String.concat ":"
      (map (fun i => format_02x ((mac / 256 ^ i) mod 256)) [5; 4; 3; 2; 1; 0]) /\
  String.length (get_mac_address mac) = 17%nat /\
  parse_mac (get_mac_address mac) = Some (mac mod 2 ^ 48) /\
  (forall mac', 0 <= mac < 2 ^ 48 -> 0 <= mac' < 2 ^ 48 ->
                get_mac_address mac' = get_mac_address mac -> mac' = mac).
Proof.
  assert (Hshape : forall m,
             get_mac_address m =
             String.concat ":"
               (map (fun i => format_02x ((m / 256 ^ i) mod 256)) [5; 4; 3; 2; 1; 0])).
  { intros m. unfold get_mac_address. cbn [map rev app].
    rewrite !mac_byte by lia. reflexivity. }
  assert (Hparse : forall m, parse_mac (get_mac_address m) = Some (m mod 2 ^ 48)).
  { intros m. rewrite Hshape. cbn [map String.concat]. unfold format_02x.
    cbv [String.append]. unfold parse_mac.
    assert (Hb : forall i, 0 <= (m / 256 ^ i) mod 256 < 256)
      by (intros i; apply Z.mod_pos_bound; lia).
    assert (Hcolon : forall acc rest,
               parse_mac_from acc (String ":" rest) = parse_mac_from acc rest)
      by reflexivity.
    do 5 (rewrite parse_two_digits by apply Hb; rewrite Hcolon).
    rewrite parse_two_digits by apply Hb. cbn [parse_mac_from].
    f_equal.
    change (256 ^ 5) with 1099511627776. change (256 ^ 4) with 4294967296.
    change (256 ^ 3) with 16777216. change (256 ^ 2) with 65536.
    change (256 ^ 1) with 256. change (256 ^ 0) with 1.
    change (2 ^ 48) with 281474976710656.
    rewrite Z.div_1_r.
    pose proof (Z.div_mod m 281474976710656 ltac:(lia)) as Hm.
    assert (Hq : forall a b, 0 < a -> m / a / 256 = b -> m / a = 256 * b + (m / a) mod 256).
    { intros a b Ha <-. apply Z.div_mod. lia. }
    pose proof (Hq 1 (m / 256) ltac:(lia)
                  ltac:(rewrite Z.div_div by lia; reflexivity)) as H0.
    pose proof (Hq 256 (m / 65536) ltac:(lia)
                  ltac:(rewrite Z.div_div by lia; reflexivity)) as H1.
    pose proof (Hq 65536 (m / 16777216) ltac:(lia)
                  ltac:(rewrite Z.div_div by lia; reflexivity)) as H2.
    pose proof (Hq 16777216 (m / 4294967296) ltac:(lia)
                  ltac:(rewrite Z.div_div by lia; reflexivity)) as H3.
    pose proof (Hq 4294967296 (m / 1099511627776) ltac:(lia)
                  ltac:(rewrite Z.div_div by lia; reflexivity)) as H4.
    pose proof (Hq 1099511627776 (m / 281474976710656) ltac:(lia)
                  ltac:(rewrite Z.div_div by lia; reflexivity)) as H5.
    rewrite Z.div_1_r in H0.
    lia. }
  split; [apply Hshape|]. split; [|split; [apply Hparse|]].
  - rewrite Hshape. reflexivity.
  - intros mac' H H' E.
    pose proof (Hparse mac) as P. pose proof (Hparse mac') as P'.
    rewrite E, P in P'. injection P' as P'.
    rewrite !Z.mod_small in P' by assumption. now symmetry.
Qed.

(** ** [get_client_id] *)

Lemma string_app_assoc (a b c : string) :
  ((a ++ b) ++ c)%string = (a ++ (b ++ c))%string.
Proof.
  induction a as [|x a IH]; [reflexivity|].
  cbv [String.append] in *. fold String.append in *. now rewrite IH.
Qed.

Lemma string_app_empty_r (a : string) : (a ++ EmptyString)%string = a.
Proof.
  induction a as [|x a IH]; [reflexivity|].
  cbv [String.append] in *. fold String.append in *. now rewrite IH.
Qed.

(** With a configured client id, [get_client_id] returns it at every call
    and writes nothing. With none configured, every call in the process makes
    a new id, appends one more [CLIENT_ID=] line to [.env] and puts the id in
    [os.environ]: the module constant stays empty, so an id written by an
    earlier call is not the one a later call returns. *)
Theorem get_client_id_calls_effect (CLIENT_ID : string) (uuids : list string) (s : os_env) :
  (CLIENT_ID <> EmptyString ->
   get_client_id_calls CLIENT_ID uuids s = (map (fun _ => CLIENT_ID) uuids, s)) /\
  (CLIENT_ID = EmptyString ->
   let '(ids, s') := get_client_id_calls CLIENT_ID uuids s in
   ids = uuids /\
   dotenv s' =
     (dotenv s ++
      String.concat EmptyString
        (map (fun u => ("CLIENT_ID=" ++ u ++ lf)%string) uuids))%string /\
   environ s' !! "CLIENT_ID"%string =
     match last uuids with
     | Some u => Some u
     | None => environ s !! "CLIENT_ID"%string
     end /\
   forall k : string, k <> "CLIENT_ID"%string -> environ s' !! k = environ s !! k).
Proof.
  split.
  - intros Hne. revert s. induction uuids as [|u uuids IH]; intros s; [reflexivity|].
    cbn [get_client_id_calls map]. unfold get_client_id.
    rewrite bool_decide_eq_false_2 by exact Hne. now rewrite IH.
  - intros ->. revert s. induction uuids as [|u uuids IH]; intros s.
    + cbn [get_client_id_calls map String.concat last].
      rewrite string_app_empty_r. repeat split.
    + cbn [get_client_id_calls]. unfold get_client_id at 1.
      rewrite bool_decide_eq_true_2 by reflexivity.
      set (s1 := {| dotenv := _; environ := _ |}).
      specialize (IH s1).
      destruct (get_client_id_calls EmptyString uuids s1) as [ids s'].
      destruct IH as (Hids & Hfile & Henv & Hother).
      split; [now rewrite Hids|]. split; [|split].
      * rewrite Hfile. subst s1. cbn [dotenv map].
        destruct uuids as [|u' uuids]; cbn [map String.concat].
        -- apply string_app_empty_r.
        -- rewrite string_app_assoc. reflexivity.
      * rewrite Henv. subst s1. cbn [environ].
        destruct uuids as [|u' uuids]; cbn [last].
        -- apply lookup_insert_eq.
        -- destruct (last (u' :: uuids)) eqn:El; [reflexivity|].
           apply last_None in El. discriminate.
      * intros k Hk. rewrite (Hother k Hk). subst s1. cbn [environ].
        apply lookup_insert_ne. congruence.
Qed.

Lemma get_client_id_calls_effect_witness :
  get_client_id_calls "abc" ["u1"; "u2"]%string
    {| dotenv := EmptyString; environ := ∅ |} =
  (["abc"; "abc"]%string, {| dotenv := EmptyString; environ := ∅ |}).
Proof.
  apply (proj1 (get_client_id_calls_effect "abc" ["u1"; "u2"]%string
                  {| dotenv := EmptyString; environ := ∅ |})).
  discriminate.
Defined.

(** ** [WebSocketProxy.__init__] *)

(** The handshake headers of a new proxy: the device id made from the node
    number, the client id and protocol version 1 are always there; the
    [Authorization] header is there exactly when the token switch is on, and
    then it is [Bearer] followed by the token; there is no other header. The
    audio state starts empty, with a chunker of 960 samples. *)
#[local] Set Warnings "-clear-no-such-hyp".

Theorem init_headers (L : Libs) (node : Z) (cid : string) (enable : bool) (tok : string) :
  let w := WebSocketProxy_init L (get_mac_address node) cid enable tok in
  let h := headers (self w) in
  h !! "Device-Id"%string = Some (get_mac_address node) /\
  h !! "Client-Id"%string = Some cid /\
  h !! "Protocol-Version"%string = Some "1"%string /\
  h !! "Authorization"%string =
    (if enable then Some ("Bearer " ++ tok)%string else None) /\
  (forall k : string,
      is_Some (h !! k) <->
      k = "Device-Id"%string \/ k = "Client-Id"%string \/
      k = "Protocol-Version"%string \/
      (enable = true /\ k = "Authorization"%string)) /\
  audio_buffer (self w) = [] /\ total_samples (self w) = 0 /\
  is_first_audio (self w) = true /\ pending w = [] /\ chunk_size w = 960%nat.
Proof.
  intros w h. subst w h. unfold WebSocketProxy_init. cbn [self headers].
  split; [destruct enable; reflexivity|].
  split; [destruct enable; reflexivity|].
  split; [destruct enable; reflexivity|].
  split; [destruct enable; reflexivity|].
  split; [|repeat split].
  intros k. rewrite <- elem_of_dom.
  destruct enable; rewrite ?dom_insert_L, dom_empty_L; set_solver.
Qed.

(** ** [pcm_to_opus] and [opus_to_wav] *)

Lemma list_pair_ind {A} (P : list A -> Prop) :
  P [] -> (forall x, P [x]) -> (forall x y l, P l -> P (x :: y :: l)) ->
  forall l, P l.
Proof.
  intros H0 H1 H2 l.
  assert (H : P l /\ forall x, P (x :: l)).
  { induction l as [|y l [IH1 IH2]]; [split; [exact H0 | exact H1]|].
    split; [apply IH2|]. intros x. now apply H2. }
  exact (proj1 H).
Qed.

Lemma frombuffer_int16_parity (data : bytes) :
  match frombuffer_int16 data with
  | Some arr => Nat.even (length data) = true /\ tobytes_int16 arr = data
  | None => Nat.even (length data) = false
  end.
Proof.
  induction data as [|x|lo hi rest IH] using list_pair_ind.
  - split; reflexivity.
  - reflexivity.
  - cbn [frombuffer_int16]. destruct (frombuffer_int16 rest) as [arr|].
    + destruct IH as [He Hb]. split; [exact He|].
      unfold tobytes_int16 in *. cbn [map concat].
      now rewrite int16_bytes_of_bytes, Hb.
    + exact IH.
Qed.

(** [pcm_to_opus] gives the encoder exactly the bytes it received when they
    are whole int16 samples, and returns [None] without an encoder result
    when their number is odd. *)
Theorem pcm_to_opus_exact (L : Libs) (pcm_data : bytes) :
  pcm_to_opus L pcm_data =
    if Nat.even (length pcm_data) then codec_encode L pcm_data else None.
Proof.
  unfold pcm_to_opus. pose proof (frombuffer_int16_parity pcm_data) as H.
  destruct (frombuffer_int16 pcm_data) as [arr|].
  - destruct H as [-> ->]. reflexivity.
  - now rewrite H.
Qed.

(** [opus_to_wav] decodes with a new decoder, so its result depends on the
    frame alone. It returns [None] when the decode raises, returns no audio,
    or returns an odd number of bytes; otherwise it returns the WAV file of
    exactly the decoded bytes. *)
Theorem opus_to_wav_exact (L : Libs) (wave_file : bytes -> bytes) (opus_data : bytes) :
  opus_to_wav L wave_file opus_data =
    match snd (codec_decode L (codec_init L) opus_data) with
    | Some pcm_data =>
        if (0 <? len pcm_data) && Nat.even (length pcm_data)
        then Some (wave_file pcm_data)
        else None
    | None => None
    end.
Proof.
  unfold opus_to_wav.
  destruct (codec_decode L (codec_init L) opus_data) as [c [pcm|]]; [|reflexivity].
  cbn [snd]. destruct (0 <? len pcm); [|reflexivity]. cbn [andb].
  pose proof (frombuffer_int16_parity pcm) as H.
  destruct (frombuffer_int16 pcm) as [arr|].
  - destruct H as [-> ->]. reflexivity.
  - now rewrite H.
Qed.

(** ** The chunker at its edges *)

(** With a chunk size of zero the [while] loop of [process_audio] has not
    exited after any number of rounds: [len(self.buffer) >= 0] always holds
    and the buffer never shrinks. *)
Theorem process_audio_zero_size_never_returns (L : Libs) (ap : AudioProcessor)
    (arr : list float32) :
  buffer_size ap = 0%nat ->
  (forall fuel buf chunks, process_loop L fuel 0 buf chunks = None) /\
  fst (process_audio L ap (tobytes_float32 arr)) = Loops.
Proof.
  intros Hz.
  assert (Hloop : forall fuel buf chunks, process_loop L fuel 0 buf chunks = None).
  { induction fuel as [|fuel IH]; intros buf chunks; cbn [process_loop Nat.leb].
    - reflexivity.
    - apply IH. }
  split; [exact Hloop|].
  unfold process_audio. rewrite frombuffer_tobytes_float32, Hz, Hloop. reflexivity.
Qed.

Lemma process_audio_zero_size_never_returns_witness :
  fst (process_audio sample_libs (AudioProcessor_init 0)
         (tobytes_float32 [(x00, x00, x01, x00)])) = Loops.
Proof.
  apply (process_audio_zero_size_never_returns sample_libs (AudioProcessor_init 0)
           [(x00, x00, x01, x00)]).
  reflexivity.
Defined.

Lemma list_quad_ind {A} (P : list A -> Prop) :
  P [] -> (forall a, P [a]) -> (forall a b, P [a; b]) -> (forall a b c, P [a; b; c]) ->
  (forall a b c d l, P l -> P (a :: b :: c :: d :: l)) ->
  forall l, P l.
Proof.
  intros H0 H1 H2 H3 H4 l.
  assert (H : P l /\ (forall a, P (a :: l)) /\ (forall a b, P (a :: b :: l)) /\
              (forall a b c, P (a :: b :: c :: l))).
  { induction l as [|x l (IH0 & IH1 & IH2 & IH3)].
    - repeat split; auto.
    - split; [apply IH1|]. split; [intros a; apply IH2|].
      split; [intros a b; apply IH3|]. intros a b c. now apply H4. }
  exact (proj1 H).
Qed.

Lemma frombuffer_float32_size (data : bytes) :
  match frombuffer_float32 data with
  | Some arr => length data = (4 * length arr)%nat /\ tobytes_float32 arr = data
  | None => (length data mod 4 <> 0)%nat
  end.
Proof.
  induction data as [|a|a b|a b c|a b c d rest IH] using list_quad_ind;
    try (cbn; lia).
  - split; reflexivity.
  - cbn [frombuffer_float32]. destruct (frombuffer_float32 rest) as [arr|].
    + destruct IH as [Hl Hb]. split; [cbn [length]; lia|].
      unfold tobytes_float32 in *. cbn [map concat float32_bytes app].
      now rewrite Hb.
    + cbn [length].
      replace (S (S (S (S (length rest))))) with (length rest + 1 * 4)%nat by lia.
      rewrite Nat.Div0.mod_add. exact IH.
Qed.

(** A binary client frame whose length is not a multiple of four bytes is
    not audio the proxy can read: [process_audio] raises ValueError and keeps
    its buffer, and the pump's loop body drops the frame, changes nothing,
    sends nothing and goes on. A frame of [4 * n] bytes is read as [n]
    samples. *)
Theorem client_frame_size (L : Libs) (w : world (codec L)) (message : bytes) :
  ((length message mod 4 <> 0)%nat ->
   process_audio L (audio_processor (self w)) message =
     (Raise ValueError, audio_processor (self w)) /\
   handle_client_message L (Binary message) w = (Ok tt, w, [])) /\
  ((length message mod 4 = 0)%nat ->
   exists arr, message = tobytes_float32 arr /\
               length message = (4 * length arr)%nat /\
               frombuffer_float32 message = Some arr).
Proof.
  pose proof (frombuffer_float32_size message) as H.
  destruct (frombuffer_float32 message) as [arr|] eqn:Hf.
  - destruct H as [Hl Hb]. split.
    + intros Hn. exfalso. apply Hn. rewrite Hl, Nat.mul_comm.
      apply Nat.Div0.mod_mul.
    + intros _. exists arr. repeat split; [now symmetry | exact Hl].
  - split; [|intros Hz; contradiction].
    intros _. split.
    + unfold process_audio. now rewrite Hf.
    + cbn [handle_client_message]. now apply handle_client_binary_ill_sized.
Qed.

Lemma client_frame_size_witness :
  handle_client_message sample_libs (Binary [x00; x01; x02]) sample_world =
    (Ok tt, sample_world, []).
Proof.
  apply (proj1 (client_frame_size sample_libs sample_world [x00; x01; x02])).
  vm_compute. discriminate.
Defined.

(** ** The chunker and the framing of the audio *)

Lemma client_binary_run_full (L : Libs) (fs : list (list float32)) :
  forall w : world (codec L),
    (0 < chunk_size w)%nat -> (length (pending w) < chunk_size w)%nat ->
    exists cs rest,
      handle_client_messages L (map (fun f => Binary (tobytes_float32 f)) fs) w =
        (StreamClosed, with_pending rest w,
         concat (map (forward_trace L) (map (to_pcm L) cs))) /\
      pending w ++ concat fs = concat cs ++ rest /\
      Forall (fun c => length c = chunk_size w) cs /\
      (length rest < chunk_size w)%nat.
Proof.
  induction fs as [|f fs IH]; intros w Hs Hp.
  - exists [], (pending w). cbn. rewrite app_nil_r, with_pending_id.
    repeat split; [constructor | assumption].
  - destruct (handle_client_binary_samples L w f Hs Hp)
      as (cs1 & r1 & Hh & Hc1 & Hall1 & Hlt1).
    destruct (IH (with_pending r1 w) Hs Hlt1) as (cs2 & rest & Hrun & Hc2 & Hall2 & Hlt2).
    exists (cs1 ++ cs2), rest.
    unfold handle_client_messages in *. cbn [map pump handle_client_message].
    rewrite Hh, Hrun.
    split; [now rewrite !map_app, concat_app|].
    split.
    { cbn [concat]. rewrite concat_app, app_assoc, Hc1, <- !app_assoc.
      f_equal. exact Hc2. }
    split; [apply Forall_app; split; assumption | exact Hlt2].
Qed.

(** How the client cuts its audio into binary frames does not matter: two
    sequences of frames that carry the same samples lead to the same encoder
    calls, the same frames sent upstream and the same pending samples. *)
Theorem chunker_framing_independent (L : Libs) (w : world (codec L))
    (fs fs' : list (list float32)) :
  chunker_inv w ->
  concat fs = concat fs' ->
  handle_client_messages L (map (fun f => Binary (tobytes_float32 f)) fs) w =
  handle_client_messages L (map (fun f => Binary (tobytes_float32 f)) fs') w.
Proof.
  intros [Hsize Hlt] E.
  destruct (client_binary_run_full L fs w) as (cs & r & H & Hc & Hall & Hr); [lia | lia |].
  destruct (client_binary_run_full L fs' w) as (cs' & r' & H' & Hc' & Hall' & Hr');
    [lia | lia |].
  rewrite H, H'. rewrite E, Hc' in Hc.
  destruct (chunks_unique (chunk_size w) cs' cs r' r) as [-> ->];
    [lia | assumption.. |]; reflexivity.
Qed.

Lemma chunker_framing_independent_witness :
  handle_client_messages sample_libs
    (map (fun f => Binary (tobytes_float32 f)) sample_audio) sample_world =
  handle_client_messages sample_libs
    (map (fun f => Binary (tobytes_float32 f)) [concat sample_audio]) sample_world.
Proof.
  apply (chunker_framing_independent sample_libs sample_world sample_audio
           [concat sample_audio]).
  - split; [reflexivity | vm_compute; lia].
  - cbn [concat]. now rewrite app_nil_r.
Defined.

(** After binary client frames carrying [n] samples in total have arrived at
    a chunker holding [p] pending samples, the encoder has been called
    [(p + n) / 960] times, each time on 1920 bytes, and [(p + n) mod 960]
    samples are pending: the last ones that arrived. *)
Theorem chunker_counts (L : Libs) (w : world (codec L)) (fs : list (list float32)) :
  chunker_inv w ->
  exists w' t,
    handle_client_messages L (map (fun f => Binary (tobytes_float32 f)) fs) w =
      (StreamClosed, w', t) /\
    length (encode_calls t) =
      ((length (pending w) + length (concat fs)) / 960)%nat /\
    Forall (fun pcm => length pcm = 1920%nat) (encode_calls t) /\
    length (pending w') =
      ((length (pending w) + length (concat fs)) mod 960)%nat /\
    pending w' =
      drop (length (pending w) + length (concat fs) - length (pending w'))
           (pending w ++ concat fs).
Proof.
  intros [Hsize Hlt].
  destruct (client_binary_run_full L fs w) as (cs & r & H & Hc & Hall & Hr); [lia | lia |].
  rewrite Hsize in Hall, Hr.
  exists (with_pending r w), (concat (map (forward_trace L) (map (to_pcm L) cs))).
  split; [exact H|]. rewrite encode_calls_forward, length_map.
  assert (Hlen : (length (pending w) + length (concat fs) = 960 * length cs + length r)%nat).
  { rewrite <- length_app, Hc, length_app, (length_concat_uniform 960 cs Hall).
    reflexivity. }
  change (pending (with_pending r w)) with r.
  assert (Hq : length cs = ((length (pending w) + length (concat fs)) / 960)%nat /\
               length r = ((length (pending w) + length (concat fs)) mod 960)%nat).
  { rewrite Hlen. apply (Nat.div_mod_unique 960); [exact Hr | |].
    - apply Nat.mod_upper_bound. lia.
    - apply Nat.div_mod. lia. }
  destruct Hq as [Hq1 Hq2].
  split; [exact Hq1|]. split; [|split; [exact Hq2|]].
  - apply Forall_map. eapply Forall_impl; [exact Hall|].
    intros c Hcl. cbn. rewrite length_to_pcm, Hcl. reflexivity.
  - rewrite Hc, Hlen.
    replace (960 * length cs + length r - length r)%nat with (length (concat cs))
      by (rewrite (length_concat_uniform 960 cs Hall); lia).
    now rewrite drop_app_length.
Qed.

Lemma chunker_counts_witness :
  exists w' t,
    handle_client_messages sample_libs
      (map (fun f => Binary (tobytes_float32 f)) sample_audio) sample_world_pending =
      (StreamClosed, w', t) /\
    length (encode_calls t) = 1%nat /\ length (pending w') = 3%nat.
Proof.
  destruct (chunker_counts sample_libs sample_world_pending sample_audio)
    as (w' & t & H & Hn & _ & Hp & _).
  - split; [reflexivity | vm_compute; lia].
  - exists w', t. split; [exact H|]. split; [exact Hn | exact Hp].
Defined.

(** ** [getLastData] with nothing pending *)

Lemma with_self_id {C} (w : world C) :
  with_self (set_audio_processor (audio_processor (self w)) (self w)) w = w.
Proof. destruct w as [[] ?]. reflexivity. Qed.

(** When no sample is pending, [getLastData] calls no encoder and sends
    nothing upstream: the client only gets the [lastData] text, and the proxy
    object is as before. *)
Theorem getLastData_nothing_pending (L : Libs) (w : world (codec L))
    (message : string) (fields : gmap string json) :
  json_loads L message = Some (JObj fields) ->
  fields !! "type"%string = Some (JStr "getLastData") ->
  pending w = [] ->
  handle_client_message L (Text message) w =
    (Ok tt, w, [ClientSend (Text lastData_text)]).
Proof.
  intros Hj Ht Hp. cbn [handle_client_message].
  rewrite (handle_client_text_getLastData L w message fields Hj Ht).
  unfold process_remaining. unfold pending in Hp. rewrite Hp.
  cbn [length Nat.ltb Nat.leb fst snd map concat app].
  now rewrite with_self_id.
Qed.

Lemma getLastData_nothing_pending_witness :
  handle_client_message sample_libs (Text getLastData_text) sample_world =
    (Ok tt, sample_world, [ClientSend (Text lastData_text)]).
Proof.
  apply (getLastData_nothing_pending sample_libs sample_world getLastData_text
           {["type"%string := JStr "getLastData"]}); reflexivity.
Defined.

(** ** What each pump leaves alone *)

(** Whatever frames the client sends and however the outbound pump ends, it
    has not written the container buffer, the counter, the first-audio flag,
    the decoder or the headers. *)
Theorem outbound_pump_leaves_inbound_state (L : Libs) (frames : list frame) :
  forall w : world (codec L),
    let w' := snd (fst (handle_client_messages L frames w)) in
    audio_buffer (self w') = audio_buffer (self w) /\
    total_samples (self w') = total_samples (self w) /\
    is_first_audio (self w') = is_first_audio (self w) /\
    decoder (self w') = decoder (self w) /\
    headers (self w') = headers (self w).
Proof.
  unfold handle_client_messages.
  induction frames as [|f frames IH]; intros w; cbn [pump].
  - repeat split.
  - pose proof (keeps_client L audio_buffer f ltac:(reflexivity) w) as K1.
    pose proof (keeps_client L total_samples f ltac:(reflexivity) w) as K2.
    pose proof (keeps_client L is_first_audio f ltac:(reflexivity) w) as K3.
    pose proof (keeps_client L decoder f ltac:(reflexivity) w) as K4.
    pose proof (keeps_client L headers f ltac:(reflexivity) w) as K5.
    destruct (handle_client_message L f w) as [[[u|e|] w1] t1]; cbn [fst snd] in *;
      try (repeat split; assumption).
    specialize (IH w1).
    destruct (pump L (handle_client_message L) frames w1) as [[r w2] t2].
    cbn [fst snd] in *. rewrite <- K1, <- K2, <- K3, <- K4, <- K5. exact IH.
Qed.

(** Whatever frames upstream sends and however the inbound pump ends, it has
    not written the chunker or the headers. *)
Theorem inbound_pump_leaves_chunker (L : Libs) (frames : list frame) :
  forall w : world (codec L),
    let w' := snd (fst (handle_server_messages L frames w)) in
    audio_processor (self w') = audio_processor (self w) /\
    headers (self w') = headers (self w).
Proof.
  unfold handle_server_messages.
  induction frames as [|f frames IH]; intros w; cbn [pump].
  - split; reflexivity.
  - pose proof (keeps_audio_processor_server L f w) as K1.
    pose proof (keeps_headers_server L f w) as K2.
    destruct (handle_server_message L f w) as [[[u|e|] w1] t1]; cbn [fst snd] in *;
      try (split; assumption).
    specialize (IH w1).
    destruct (pump L (handle_server_message L) frames w1) as [[r w2] t2].
    cbn [fst snd] in *. rewrite <- K1, <- K2. exact IH.
Qed.

(** ** What each pump never does *)

Section Emits.
Context {C : Type} (P : action -> Prop).

Lemma emits_ret {A} (a : A) : emits P (@ret C A a).
Proof. intros w. constructor. Qed.

Lemma emits_raise {A} (e : exn) : emits P (@raise C A e).
Proof. intros w. constructor. Qed.

Lemma emits_lift {A} (o : outcome A) : emits P (@lift C A o).
Proof. intros w. constructor. Qed.

Lemma emits_get_self : emits P (@get_self C).
Proof. intros w. constructor. Qed.

Lemma emits_update (f : WebSocketProxy C -> WebSocketProxy C) : emits P (update f).
Proof. intros w. constructor. Qed.

Lemma emits_emit (a : action) : P a -> emits P (@emit C a).
Proof. intros H w. repeat constructor. exact H. Qed.

Lemma emits_bind {A B} (m : M C A) (k : A -> M C B) :
  emits P m -> (forall a, emits P (k a)) -> emits P (bind m k).
Proof.
  intros Hm Hk w. unfold bind. specialize (Hm w).
  destruct (m w) as [[[a|e|] w1] t1]; cbn [fst snd] in *; try exact Hm.
  specialize (Hk a w1). destruct (k a w1) as [[r w2] t2]. cbn [fst snd] in *.
  apply Forall_app. split; assumption.
Qed.

Lemma emits_try {A} (m : M C A) (h : exn -> option (M C A)) :
  emits P m -> (forall e k, h e = Some k -> emits P k) -> emits P (try_except m h).
Proof.
  intros Hm Hh w. unfold try_except. specialize (Hm w).
  destruct (m w) as [[[a|e|] w1] t1]; cbn [fst snd] in *; try exact Hm.
  destruct (h e) as [k|] eqn:He; [|exact Hm].
  specialize (Hh e k He w1). destruct (k w1) as [[r w2] t2]. cbn [fst snd] in *.
  apply Forall_app. split; assumption.
Qed.

Lemma emits_if {A} (b : bool) (m1 m2 : M C A) :
  emits P m1 -> emits P m2 -> emits P (if b then m1 else m2).
Proof. destruct b; auto. Qed.

Lemma emits_for_each {A} (xs : list A) (body : A -> M C unit) :
  (forall x, emits P (body x)) -> emits P (for_each xs body).
Proof.
  intros H. induction xs as [|x xs IH]; cbn [for_each].
  - apply emits_ret.
  - apply emits_bind; auto.
Qed.
End Emits.

Ltac emits_step :=
  match goal with
  | |- emits _ (bind _ _) => apply emits_bind; [|intros ?]
  | |- emits _ (try_except _ _) =>
      apply emits_try; [|intros [] ? [= <-] || (intros [] ?; discriminate)]
  | |- emits _ (for_each _ _) => apply emits_for_each; intros ?
  | |- emits _ (if _ then _ else _) => apply emits_if
  | |- emits _ (match ?x with Some _ => _ | None => _ end) => destruct x
  | |- emits _ (let '(_, _) := ?x in _) => destruct x
  | |- emits _ (ret _) => apply emits_ret
  | |- emits _ (raise _) => apply emits_raise
  | |- emits _ (lift _) => apply emits_lift
  | |- emits _ get_self => apply emits_get_self
  | |- emits _ (update _) => apply emits_update
  | |- emits _ (emit _) => apply emits_emit; exact I || reflexivity
  end.

Lemma emits_handle_server_message (L : Libs) (message : frame) :
  emits inbound_action (handle_server_message L message).
Proof.
  assert (Hnew : emits inbound_action (new_decoder L)) by (intros w; constructor).
  assert (Hpatch : emits inbound_action (patch_and_send L))
    by (unfold patch_and_send; repeat emits_step).
  assert (Hra : emits inbound_action (reset_audio L))
    by (unfold reset_audio; repeat emits_step).
  assert (Hrs : emits inbound_action (reset_state L))
    by (unfold reset_state; repeat (emits_step || assumption)).
  destruct message as [s | b]; cbn [handle_server_message].
  - unfold handle_server_text, loads, is_tts, only_JSONDecodeError.
    repeat (emits_step || assumption).
  - unfold handle_server_binary, decode, any_Exception.
    repeat (emits_step || assumption).
Qed.

Lemma emits_handle_client_message (L : Libs) (message : frame) :
  emits outbound_action (handle_client_message L message).
Proof.
  assert (Hpa : forall d, emits outbound_action (call_process_audio L d)).
  { intros d w. unfold call_process_audio.
    destruct (process_audio L (audio_processor (self w)) d). constructor. }
  assert (Hpr : emits outbound_action (call_process_remaining L)).
  { intros w. unfold call_process_remaining.
    destruct (process_remaining L (audio_processor (self w))). constructor. }
  assert (Hef : forall chunk, emits outbound_action (encode_and_forward L chunk)).
  { intros chunk. unfold encode_and_forward. repeat emits_step. }
  destruct message as [s | b]; cbn [handle_client_message].
  - unfold handle_client_text, loads, only_JSONDecodeError.
    repeat (emits_step || assumption || apply Hef).
  - unfold handle_client_binary, any_Exception.
    repeat (emits_step || apply Hef || apply Hpa).
Qed.

Lemma emits_pump (L : Libs) (P : action -> Prop) (body : frame -> M (codec L) unit)
    (frames : list frame) :
  (forall f, emits P (body f)) ->
  forall w, Forall P (snd (pump L body frames w)).
Proof.
  intros Hb. induction frames as [|f frames IH]; intros w; cbn [pump].
  - constructor.
  - specialize (Hb f w).
    destruct (body f w) as [[[u|e|] w1] t1]; cbn [fst snd] in *; try exact Hb.
    specialize (IH w1). destruct (pump L body frames w1) as [[r w2] t2].
    cbn [snd] in *. apply Forall_app. split; assumption.
Qed.

(** The inbound pump never sends anything upstream and never calls the
    encoder; the outbound pump never sleeps and never sends the client
    anything but the [lastData] text: no audio and no text from the client
    is echoed back. *)
Theorem pumps_stay_in_their_direction (L : Libs) (frames : list frame)
    (w : world (codec L)) :
  (forall a, a ∈ snd (handle_server_messages L frames w) ->
             (exists m, a = ClientSend m) \/ a = Sleep) /\
  (forall a, a ∈ snd (handle_client_messages L frames w) ->
             (exists pcm, a = Encode pcm) \/ (exists m, a = ServerSend m) \/
             a = ClientSend (Text lastData_text)).
Proof.
  split; intros a Ha.
  - pose proof (emits_pump L inbound_action _ frames
                  (emits_handle_server_message L) w) as H.
    rewrite Forall_forall in H. specialize (H a Ha).
    destruct a; cbn in H; try contradiction; eauto.
  - pose proof (emits_pump L outbound_action _ frames
                  (emits_handle_client_message L) w) as H.
    rewrite Forall_forall in H. specialize (H a Ha).
    destruct a; cbn in H; try contradiction; subst; eauto.
Qed.

(** ** The decoder object *)

Section KeepsDecoder.
Context {C : Type}.

Lemma kd_ret {A} (a : A) : keeps_decoder_object (@ret C A a).
Proof. intros w. split; reflexivity. Qed.

Lemma kd_raise {A} (e : exn) : keeps_decoder_object (@raise C A e).
Proof. intros w. split; reflexivity. Qed.

Lemma kd_lift {A} (o : outcome A) : keeps_decoder_object (@lift C A o).
Proof. intros w. split; reflexivity. Qed.

Lemma kd_get_self : keeps_decoder_object (@get_self C).
Proof. intros w. split; reflexivity. Qed.

Lemma kd_emit (a : action) : keeps_decoder_object (@emit C a).
Proof. intros w. split; reflexivity. Qed.

Lemma kd_update (f : WebSocketProxy C -> WebSocketProxy C) :
  (forall p, handle (decoder (f p)) = handle (decoder p)) ->
  keeps_decoder_object (update f).
Proof. intros H w. split; [apply H | reflexivity]. Qed.

Lemma kd_bind {A B} (m : M C A) (k : A -> M C B) :
  keeps_decoder_object m -> (forall a, keeps_decoder_object (k a)) ->
  keeps_decoder_object (bind m k).
Proof.
  intros Hm Hk w. unfold bind. specialize (Hm w).
  destruct (m w) as [[[a|e|] w1] t1]; cbn [fst snd] in *; try exact Hm.
  specialize (Hk a w1). destruct (k a w1) as [[r w2] t2]. cbn [fst snd] in *.
  destruct Hm as [<- <-]. exact Hk.
Qed.

Lemma kd_try {A} (m : M C A) (h : exn -> option (M C A)) :
  keeps_decoder_object m -> (forall e k, h e = Some k -> keeps_decoder_object k) ->
  keeps_decoder_object (try_except m h).
Proof.
  intros Hm Hh w. unfold try_except. specialize (Hm w).
  destruct (m w) as [[[a|e|] w1] t1]; cbn [fst snd] in *; try exact Hm.
  destruct (h e) as [k|] eqn:He; [|exact Hm].
  specialize (Hh e k He w1). destruct (k w1) as [[r w2] t2]. cbn [fst snd] in *.
  destruct Hm as [<- <-]. exact Hh.
Qed.

Lemma kd_if {A} (b : bool) (m1 m2 : M C A) :
  keeps_decoder_object m1 -> keeps_decoder_object m2 ->
  keeps_decoder_object (if b then m1 else m2).
Proof. destruct b; auto. Qed.
End KeepsDecoder.

Ltac kd_step :=
  match goal with
  | |- keeps_decoder_object (bind _ _) => apply kd_bind; [|intros ?]
  | |- keeps_decoder_object (try_except _ _) =>
      apply kd_try; [|intros [] ? [= <-] || (intros [] ?; discriminate)]
  | |- keeps_decoder_object (if _ then _ else _) => apply kd_if
  | |- keeps_decoder_object (match ?x with Some _ => _ | None => _ end) => destruct x
  | |- keeps_decoder_object (let '(_, _) := ?x in _) => destruct x
  | |- keeps_decoder_object (ret _) => apply kd_ret
  | |- keeps_decoder_object (raise _) => apply kd_raise
  | |- keeps_decoder_object (lift _) => apply kd_lift
  | |- keeps_decoder_object get_self => apply kd_get_self
  | |- keeps_decoder_object (emit _) => apply kd_emit
  | |- keeps_decoder_object (update _) => apply kd_update; intros ?; reflexivity
  end.

(** A binary upstream frame never replaces the decoder and never constructs
    one, whether the decode succeeds or raises and whether or not the buffer
    is flushed: the stream of compressed frames between two boundaries is
    decoded by one decoder object. *)
Theorem binary_frame_keeps_decoder_object (L : Libs) (message : bytes)
    (w : world (codec L)) :
  let w' := snd (fst (handle_server_message L (Binary message) w)) in
  handle (decoder (self w')) = handle (decoder (self w)) /\
  decoders_made w' = decoders_made w.
Proof.
  assert (Hdec : keeps_decoder_object (decode L message)).
  { intros w0. unfold decode, bind, get_self.
    destruct (codec_decode L (dstate (decoder (self w0))) message) as [c [pcm|]];
      split; reflexivity. }
  assert (Hpatch : keeps_decoder_object (patch_and_send L))
    by (unfold patch_and_send; repeat kd_step).
  assert (Hra : keeps_decoder_object (reset_audio L))
    by (unfold reset_audio; repeat kd_step).
  cbn [handle_server_message].
  assert (H : keeps_decoder_object (handle_server_binary L message)).
  { unfold handle_server_binary, any_Exception. repeat (kd_step || assumption). }
  apply H.
Qed.

(** ** Upstream text frames *)

(** An upstream text frame that is valid JSON but not an object is not
    forwarded to the client: [msg_data.get] raises AttributeError, no clause
    catches it inside the loop, and the inbound pump ends without reading the
    frames that follow. The proxy object is as before. *)
Theorem server_text_non_object_stops_pump (L : Libs) (w : world (codec L))
    (message : string) (v : json) (rest : list frame) :
  json_loads L message = Some v ->
  (forall fields, v <> JObj fields) ->
  handle_server_messages L (Text message :: rest) w = (Crashed AttributeError, w, []).
Proof.
  intros Hj Hv. unfold handle_server_messages. cbn [pump handle_server_message].
  now rewrite (handle_server_text_not_object L w message v Hj Hv).
Qed.

Lemma server_text_non_object_stops_pump_witness :
  handle_server_messages sample_libs [Text "null"%string; Text hello_text] sample_world =
    (Crashed AttributeError, sample_world, []).
Proof.
  apply (server_text_non_object_stops_pump sample_libs sample_world "null" JNull
           [Text hello_text]).
  - reflexivity.
  - intros fields. discriminate.
Defined.

Lemma inbound_inv_flag {C} (w : world C) :
  inbound_inv w ->
  (44 <? len (audio_buffer (self w))) = negb (is_first_audio (self w)).
Proof.
  intros [(-> & -> & _) | (-> & Hl & _)].
  - reflexivity.
  - cbn [negb]. apply Z.ltb_lt. lia.
Qed.

(** In every state the proxy can reach, an upstream text frame that is
    malformed JSON or a JSON object reaches the client unchanged, exactly
    once, as the last thing its loop body does; before it comes at most the
    flush of a start or stop boundary: the container, and after a stop the
    sleep. *)
Theorem upstream_text_forwarded_last (L : Libs) (w : world (codec L)) (message : string) :
  decoder_bounded L -> reachable L w ->
  (json_loads L message = None \/ exists fields, json_loads L message = Some (JObj fields)) ->
  exists w' t0,
    handle_server_message L (Text message) w =
      (Ok tt, w', t0 ++ [ClientSend (Text message)]) /\
    (t0 = [] \/ t0 = [ClientSend (Binary (container w))] \/
     t0 = [ClientSend (Binary (container w)); Sleep]) /\
    (is_first_audio (self w) = true -> t0 = [] /\ audio_buffer (self w') = []).
Proof.
  intros Hb Hr Hj. destruct (reachable_inv L w Hb Hr) as [Hinv _].
  destruct (inbound_inv_range w Hinv) as [H0 H1].
  pose proof (inbound_inv_flag w Hinv) as Hflag.
  assert (Hempty : is_first_audio (self w) = true -> audio_buffer (self w) = []).
  { intros Hf. destruct Hinv as [(_ & Hbuf & _) | (Hf' & _)]; [exact Hbuf | congruence]. }
  cbn [handle_server_message].
  destruct Hj as [Hj | [fields Hj]].
  - exists w, []. rewrite (handle_server_text_malformed L w message Hj).
    split; [reflexivity|]. split; [now left|]. intros Hf. now split; [|apply Hempty].
  - destruct (tts_state fields "start") eqn:Hs.
    + rewrite (handle_server_text_start L w message fields Hj Hs H0 H1), Hflag.
      destruct (is_first_audio (self w)); cbn [negb].
      * exists (after_reset_state L w), []. split; [reflexivity|].
        split; [now left|]. intros _. split; reflexivity.
      * exists (after_reset_state L (after_patch w)), [ClientSend (Binary (container w))].
        split; [reflexivity|]. split; [right; now left|]. discriminate.
    + destruct (tts_state fields "stop") eqn:Hp.
      * rewrite (handle_server_text_stop L w message fields Hj Hs Hp H0 H1), Hflag.
        destruct (is_first_audio (self w)) eqn:Hf; cbn [negb].
        -- exists w, []. split; [reflexivity|]. split; [now left|].
           intros _. split; [reflexivity | now apply Hempty].
        -- exists (after_reset_state L (after_patch w)),
             [ClientSend (Binary (container w)); Sleep].
           split; [reflexivity|]. split; [right; now right|]. discriminate.
      * rewrite (handle_server_text_other L w message fields Hj Hs Hp).
        exists w, []. split; [reflexivity|]. split; [now left|].
        intros Hf. now split; [|apply Hempty].
Qed.

Lemma upstream_text_forwarded_last_witness :
  exists w' t0,
    handle_server_message sample_libs (Text hello_text) sample_world =
      (Ok tt, w', t0 ++ [ClientSend (Text hello_text)]).
Proof.
  destruct (upstream_text_forwarded_last sample_libs sample_world hello_text)
    as (w' & t0 & H & _).
  - exact sample_decoder_bounded.
  - apply reach_init.
  - right. exists {["type"%string := JStr "hello"]}. reflexivity.
  - exists w', t0. exact H.
Defined.

(** In every state the proxy can reach, a [{tts,start}] text always ends in
    a full reset: the container buffer is empty, the counter zero, the flag
    set, and the decoder is a newly constructed object in its initial state.
    Audio that was buffered is sent to the client first, as one container. *)
Theorem tts_start_always_resets (L : Libs) (w : world (codec L))
    (message : string) (fields : gmap string json) :
  decoder_bounded L -> reachable L w ->
  json_loads L message = Some (JObj fields) ->
  fields !! "type"%string = Some (JStr "tts") ->
  fields !! "state"%string = Some (JStr "start") ->
  exists w',
    handle_server_message L (Text message) w =
      (Ok tt, w',
       (if is_first_audio (self w) then [] else [ClientSend (Binary (container w))]) ++
       [ClientSend (Text message)]) /\
    audio_buffer (self w') = [] /\ total_samples (self w') = 0 /\
    is_first_audio (self w') = true /\
    decoder (self w') = {| handle := decoders_made w; dstate := codec_init L |} /\
    decoders_made w' = S (decoders_made w) /\
    audio_processor (self w') = audio_processor (self w).
Proof.
  intros Hb Hr Hj Ht Hs.
  destruct (reachable_inv L w Hb Hr) as [Hinv _].
  destruct (inbound_inv_range w Hinv) as [H0 H1].
  pose proof (inbound_inv_flag w Hinv) as Hflag.
  cbn [handle_server_message].
  rewrite (handle_server_text_start L w message fields Hj) by
    (assumption || (rewrite (tts_state_lookup _ _ Ht Hs); reflexivity)).
  rewrite Hflag.
  destruct (is_first_audio (self w)); cbn [negb].
  - exists (after_reset_state L w). repeat split; reflexivity.
  - exists (after_reset_state L (after_patch w)). repeat split; reflexivity.
Qed.

Lemma tts_start_always_resets_witness :
  exists w',
    handle_server_message sample_libs (Text tts_start_text) sample_world_16 =
      (Ok tt, w',
       (if is_first_audio (self sample_world_16) then []
        else [ClientSend (Binary (container sample_world_16))]) ++
       [ClientSend (Text tts_start_text)]) /\
    audio_buffer (self w') = [].
Proof.
  destruct (tts_start_always_resets sample_libs sample_world_16 tts_start_text
              (<["state"%string := JStr "start"]> {["type"%string := JStr "tts"]}))
    as (w' & H1 & H2 & _).
  - exact sample_decoder_bounded.
  - unfold sample_world_16.
    destruct (handle_server_messages sample_libs (repeat (Binary [x01; x02]) 16)
                sample_world) as [[r w16] t] eqn:Hrun.
    apply (reachable_server_run sample_libs _ _ _ _ _ (reach_init _ _ _ _ _) Hrun).
  - reflexivity.
  - reflexivity.
  - reflexivity.
  - exists w'. split; assumption.
Defined.

(** In every state the proxy can reach, a [{tts,stop}] text that finds no
    audio buffered changes nothing: unlike a start, it does not reset and
    does not construct a decoder, and the client only gets the text. When
    audio is buffered it is sent as one container, the pump sleeps, the state
    is reset with a new decoder, and then the text is sent. *)
Theorem tts_stop_resets_only_after_audio (L : Libs) (w : world (codec L))
    (message : string) (fields : gmap string json) :
  decoder_bounded L -> reachable L w ->
  json_loads L message = Some (JObj fields) ->
  fields !! "type"%string = Some (JStr "tts") ->
  fields !! "state"%string = Some (JStr "stop") ->
  (is_first_audio (self w) = true ->
   handle_server_message L (Text message) w =
     (Ok tt, w, [ClientSend (Text message)])) /\
  (is_first_audio (self w) = false ->
   exists w',
     handle_server_message L (Text message) w =
       (Ok tt, w',
        [ClientSend (Binary (container w)); Sleep; ClientSend (Text message)]) /\
     audio_buffer (self w') = [] /\ total_samples (self w') = 0 /\
     is_first_audio (self w') = true /\
     decoder (self w') = {| handle := decoders_made w; dstate := codec_init L |} /\
     decoders_made w' = S (decoders_made w)).
Proof.
  intros Hb Hr Hj Ht Hs.
  destruct (reachable_inv L w Hb Hr) as [Hinv _].
  destruct (inbound_inv_range w Hinv) as [H0 H1].
  pose proof (inbound_inv_flag w Hinv) as Hflag.
  cbn [handle_server_message].
  rewrite (handle_server_text_stop L w message fields Hj) by
    (assumption || (rewrite (tts_state_lookup _ _ Ht Hs); reflexivity)).
  rewrite Hflag. split; intros ->; cbn [negb].
  - reflexivity.
  - exists (after_reset_state L (after_patch w)). repeat split; reflexivity.
Qed.

Lemma tts_stop_resets_only_after_audio_witness :
  handle_server_message sample_libs (Text tts_stop_text) sample_world =
    (Ok tt, sample_world, [ClientSend (Text tts_stop_text)]).
Proof.
  apply (tts_stop_resets_only_after_audio sample_libs sample_world tts_stop_text
           (<["state"%string := JStr "stop"]> {["type"%string := JStr "tts"]})).
  - exact sample_decoder_bounded.
  - apply reach_init.
  - reflexivity.
  - reflexivity.
  - reflexivity.
  - reflexivity.
Defined.

(** ** Every container is playable *)

Lemma even_half (n : nat) : Nat.even n = true -> Z.of_nat n / 2 * 2 = Z.of_nat n.
Proof.
  intros H. apply Nat.even_spec in H as [k ->].
  rewrite Nat2Z.inj_mul. change (Z.of_nat 2) with 2.
  rewrite (Z.mul_comm 2), Z.div_mul by lia. reflexivity.
Qed.

Lemma run_eta {A B T} (x : A * B * T) : x = (fst (fst x), snd (fst x), snd x).
Proof. now destruct x as [[a b] c]. Qed.

(** A counter too large for the 32-bit fields: [to_bytes] raises before the
    buffer is touched, and nothing is sent. *)
Lemma patch_and_send_overflow (L : Libs) (w : world (codec L)) :
  0 <= total_samples (self w) ->
  4294967296 <= total_samples (self w) * 2 + 36 ->
  patch_and_send L w = (Raise OverflowError, w, []).
Proof.
  intros H0 H1. unfold patch_and_send, bind, get_self, lift, to_bytes.
  replace (total_samples (self w) * 2 + 36 <? 256 ^ Z.of_nat 4) with false
    by (symmetry; apply Z.ltb_ge; change (256 ^ Z.of_nat 4) with 4294967296; lia).
  rewrite andb_false_r. reflexivity.
Qed.

(** The OverflowError of a flush in the text branch is not a
    JSONDecodeError: it leaves the loop body. *)
Lemma handle_server_text_flush_overflow (L : Libs) (w : world (codec L))
    (message : string) (fields : gmap string json) :
  json_loads L message = Some (JObj fields) ->
  tts_state fields "start" = true \/ tts_state fields "stop" = true ->
  (44 <? len (audio_buffer (self w))) = true ->
  0 <= total_samples (self w) ->
  4294967296 <= total_samples (self w) * 2 + 36 ->
  handle_server_text L message w = (Raise OverflowError, w, []).
Proof.
  intros Hj Hs Hlen H0 H1. unfold handle_server_text, try_except, bind at 1, loads.
  rewrite Hj. unfold ret at 1. unfold bind at 1.
  rewrite is_tts_object.
  destruct (tts_state fields "start") eqn:Hs1.
  - unfold bind at 1. unfold bind at 1. unfold bind at 1. unfold get_self at 1.
    rewrite Hlen, patch_and_send_overflow by assumption. reflexivity.
  - destruct Hs as [Hs | Hs]; [discriminate|].
    unfold bind at 1. unfold bind at 1.
    rewrite is_tts_object, Hs. unfold bind at 1. unfold get_self at 1.
    rewrite Hlen. unfold bind at 1.
    rewrite patch_and_send_overflow by assumption. reflexivity.
Qed.

(** The OverflowError of a flush in the binary branch is caught: the frame
    stays appended and nothing is sent. *)
Lemma handle_server_binary_overflow (L : Libs) (w : world (codec L))
    (message : bytes) (c : codec L) (pcm_data : bytes) :
  codec_decode L (dstate (decoder (self w))) message = (c, Some pcm_data) ->
  0 < len pcm_data ->
  is_first_audio (self w) = false ->
  0 <= total_samples (self (after_append c pcm_data w)) ->
  4294967296 <= total_samples (self (after_append c pcm_data w)) * 2 + 36 ->
  handle_server_binary L message w = (Ok tt, after_append c pcm_data w, []).
Proof.
  destruct w as [[dev cid en tok hdrs ap [h ds] buf first total] made].
  unfold after_append, after_decode, with_self.
  cbn [self set_total_samples set_decoder is_first_audio fst snd
       total_samples audio_buffer set_is_first_audio set_audio_buffer
       device_id client_id enable_token token headers audio_processor decoder
       decoders_made dstate handle].
  intros Hd Hpos -> H0 H1.
  unfold handle_server_binary, try_except, bind at 1, decode.
  unfold bind at 1, get_self at 1. cbn [self decoder dstate handle]. rewrite Hd.
  apply Z.ltb_lt in Hpos.
  unfold bind at 1, update at 1, ret at 1. rewrite Hpos.
  unfold bind at 1, update at 1. unfold bind at 1, get_self at 1.
  cbn [self set_total_samples set_decoder is_first_audio fst snd
       total_samples audio_buffer set_is_first_audio set_audio_buffer
       device_id client_id enable_token token headers audio_processor decoder
       decoders_made].
  unfold bind at 1. unfold ret at 1.
  unfold bind at 1, update at 1. unfold bind at 1, get_self at 1.
  cbn [self set_total_samples set_decoder is_first_audio fst snd
       total_samples audio_buffer set_is_first_audio set_audio_buffer
       device_id client_id enable_token token headers audio_processor decoder
       decoders_made].
  match goal with |- context [32044 <=? ?x] => destruct (32044 <=? x) end.
  - unfold bind at 1. rewrite patch_and_send_overflow by assumption. reflexivity.
  - reflexivity.
Qed.

Lemma buffer_consistent_range {C} (w : world C) :
  buffer_consistent w ->
  0 <= total_samples (self w) /\
  (44 <? len (audio_buffer (self w))) = negb (is_first_audio (self w)) /\
  (is_first_audio (self w) = true -> total_samples (self w) = 0).
Proof.
  intros [(Hf & Hb & Ht) | (Hf & n0 & payload & Hb & Hp & Hl)]; rewrite Hf.
  - rewrite Hb, Ht. repeat split; reflexivity.
  - rewrite Hb, len_app, len_wav_header.
    split; [lia|]. split; [apply Z.ltb_lt; lia | discriminate].
Qed.

Lemma buffer_consistent_same {C} (w w' : world C) :
  audio_buffer (self w') = audio_buffer (self w) ->
  is_first_audio (self w') = is_first_audio (self w) ->
  total_samples (self w') = total_samples (self w) ->
  buffer_consistent w -> buffer_consistent w'.
Proof. unfold buffer_consistent. intros -> -> ->. auto. Qed.

Lemma buffer_consistent_fresh {C} (w : world C) :
  is_first_audio (self w) = true -> audio_buffer (self w) = [] ->
  total_samples (self w) = 0 -> buffer_consistent w.
Proof. intros H1 H2 H3. left. auto. Qed.

(** The patch of a flush keeps the shape: only the header changes. *)
Lemma buffer_consistent_after_patch {C} (w : world C) :
  buffer_consistent w -> is_first_audio (self w) = false ->
  buffer_consistent (after_patch w).
Proof.
  intros [(Hf & Hb & Ht) | (Hf & n0 & payload & Hb & Hp & Hl)] Hfirst.
  - congruence.
  - right. unfold after_patch, with_self. fields. split; [exact Hf|].
    exists (total_samples (self w)), payload.
    rewrite Hb, patch_lengths_header. repeat split; assumption.
Qed.

Lemma buffer_consistent_after_append {C} (w : world C) (c : C) (pcm : bytes) :
  buffer_consistent w -> 0 < len pcm -> Nat.even (length pcm) = true ->
  buffer_consistent (after_append c pcm w) /\
  is_first_audio (self (after_append c pcm w)) = false /\
  total_samples (self (after_append c pcm w)) = total_samples (self w) + len pcm / 2.
Proof.
  intros Hc Hpos Hev. apply even_half in Hev. fold (len pcm) in Hev.
  split; [|split; reflexivity].
  right. unfold after_append, after_decode, with_self. fields.
  split; [reflexivity|].
  destruct Hc as [(Hf & Hb & Ht) | (Hf & n0 & payload & Hb & Hp & Hl)]; rewrite Hf.
  - rewrite Hb, Ht. cbn [app]. exists (0 + len pcm / 2), pcm.
    repeat split; lia.
  - exists n0, (payload ++ pcm). rewrite Hb, <- app_assoc, !len_app.
    repeat split; lia.
Qed.

(** What a flush sends from a consistent state with the counter in range. *)
Lemma container_of_consistent {C} (w : world C) :
  buffer_consistent w -> is_first_audio (self w) = false ->
  total_samples (self w) * 2 + 36 < 4294967296 ->
  well_formed_container (container w).
Proof.
  intros [(Hf & _) | (_ & n0 & payload & Hb & Hp & Hl)] Hfirst Hr; [congruence|].
  exists (total_samples (self w)), payload.
  unfold container. rewrite Hb, patch_lengths_header.
  repeat split; [exact Hl | lia | exact Hr].
Qed.

Lemma nothing_sent (b : bytes) : ClientSend (Binary b) ∈ @nil action -> False.
Proof. intros Hin. apply elem_of_nil in Hin. contradiction. Qed.

Lemma only_text_sent (b : bytes) (s : string) :
  ClientSend (Binary b) ∈ [ClientSend (Text s)] -> False.
Proof. intros Hin. apply list_elem_of_singleton in Hin. discriminate. Qed.

(** One loop body of the inbound pump from a consistent state, whatever the
    length of the buffer: the state is consistent afterwards, and what was
    sent is playable. *)
Lemma server_step_consistent (L : Libs) (w : world (codec L)) (message : frame) r w' t :
  decoder_whole_samples L -> buffer_consistent w ->
  handle_server_message L message w = (r, w', t) ->
  buffer_consistent w' /\
  forall b, ClientSend (Binary b) ∈ t -> well_formed_container b.
Proof.
  intros Hw Hc Hstep.
  destruct (buffer_consistent_range w Hc) as (H0 & Hflag & Hzero).
  destruct message as [s | m]; cbn [handle_server_message] in Hstep.
  - destruct (json_loads L s) as [v|] eqn:Hj.
    + destruct (json_object_dec v) as [[fields ->] | Hv].
      * destruct (Z.lt_ge_cases (total_samples (self w) * 2 + 36) 4294967296) as [H1 | H1].
        -- destruct (tts_state fields "start") eqn:Hs.
           ++ rewrite (handle_server_text_start L w s fields Hj Hs H0 H1), Hflag in Hstep.
              destruct (is_first_audio (self w)) eqn:Hf; cbn [negb] in Hstep;
                injection Hstep as <- <- <-;
                (split; [apply buffer_consistent_fresh; reflexivity|]); intros b Hin.
              ** now apply only_text_sent in Hin.
              ** apply elem_of_cons in Hin as [[= ->] | Hin];
                   [now apply container_of_consistent | now apply only_text_sent in Hin].
           ++ destruct (tts_state fields "stop") eqn:Hp.
              ** rewrite (handle_server_text_stop L w s fields Hj Hs Hp H0 H1), Hflag in Hstep.
                 destruct (is_first_audio (self w)) eqn:Hf; cbn [negb] in Hstep;
                   injection Hstep as <- <- <-.
                 --- split; [exact Hc|]. intros b Hin. now apply only_text_sent in Hin.
                 --- split; [apply buffer_consistent_fresh; reflexivity|]. intros b Hin.
                     apply elem_of_cons in Hin as [[= ->] | Hin];
                       [now apply container_of_consistent|].
                     apply elem_of_cons in Hin as [Hin | Hin]; [discriminate|].
                     now apply only_text_sent in Hin.
              ** rewrite (handle_server_text_other L w s fields Hj Hs Hp) in Hstep.
                 injection Hstep as <- <- <-.
                 split; [exact Hc|]. intros b Hin. now apply only_text_sent in Hin.
        -- assert (Hf : is_first_audio (self w) = false).
           { destruct (is_first_audio (self w)); [|reflexivity].
             specialize (Hzero eq_refl). lia. }
           rewrite Hf in Hflag. cbn [negb] in Hflag.
           destruct (tts_state fields "start") eqn:Hs;
             [|destruct (tts_state fields "stop") eqn:Hp].
           ++ rewrite (handle_server_text_flush_overflow L w s fields Hj
                         (or_introl Hs) Hflag H0 H1) in Hstep.
              injection Hstep as <- <- <-.
              split; [exact Hc|]. intros b Hin. now apply nothing_sent in Hin.
           ++ rewrite (handle_server_text_flush_overflow L w s fields Hj
                         (or_intror Hp) Hflag H0 H1) in Hstep.
              injection Hstep as <- <- <-.
              split; [exact Hc|]. intros b Hin. now apply nothing_sent in Hin.
           ++ rewrite (handle_server_text_other L w s fields Hj Hs Hp) in Hstep.
              injection Hstep as <- <- <-.
              split; [exact Hc|]. intros b Hin. now apply only_text_sent in Hin.
      * rewrite (handle_server_text_not_object L w s v Hj Hv) in Hstep.
        injection Hstep as <- <- <-.
        split; [exact Hc|]. intros b Hin. now apply nothing_sent in Hin.
    + rewrite (handle_server_text_malformed L w s Hj) in Hstep.
      injection Hstep as <- <- <-.
      split; [exact Hc|]. intros b Hin. now apply only_text_sent in Hin.
  - destruct (codec_decode L (dstate (decoder (self w))) m) as [c [pcm|]] eqn:Hd.
    + destruct pcm as [|x pcm'].
      * rewrite (handle_server_binary_empty L w m c Hd) in Hstep.
        injection Hstep as <- <- <-.
        split; [now apply (buffer_consistent_same w)|].
        intros b Hin. now apply nothing_sent in Hin.
      * assert (Hpos : 0 < len (x :: pcm')) by (unfold len; cbn [length]; lia).
        remember (x :: pcm') as pcm eqn:Hpcm. clear Hpcm x pcm'.
        destruct (Hw _ _ _ _ Hd) as [Hmax Hev].
        destruct (buffer_consistent_after_append w c pcm Hc Hpos Hev)
          as (Hc1 & Hf1 & Ht1).
        pose proof (half_bounds (len pcm) ltac:(lia)) as [Hh0 Hh1].
        assert (H01 : 0 <= total_samples (self (after_append c pcm w))) by lia.
        destruct (Z.lt_ge_cases
                    (total_samples (self (after_append c pcm w)) * 2 + 36) 4294967296)
          as [H1 | H1].
        -- rewrite (handle_server_binary_decoded L w m c pcm Hd Hpos H01 H1) in Hstep.
           destruct (32044 <=? len (audio_buffer (self (after_append c pcm w))));
             injection Hstep as <- <- <-.
           ++ split; [apply buffer_consistent_fresh; reflexivity|]. intros b Hin.
              apply list_elem_of_singleton in Hin. injection Hin as ->.
              now apply container_of_consistent.
           ++ split; [exact Hc1|]. intros b Hin. now apply nothing_sent in Hin.
        -- assert (Hf : is_first_audio (self w) = false).
           { destruct (is_first_audio (self w)); [|reflexivity].
             specialize (Hzero eq_refl). lia. }
           rewrite (handle_server_binary_overflow L w m c pcm Hd Hpos Hf H01 H1) in Hstep.
           injection Hstep as <- <- <-.
           split; [exact Hc1|]. intros b Hin. now apply nothing_sent in Hin.
    + rewrite (handle_server_binary_failed L w m c Hd) in Hstep.
      injection Hstep as <- <- <-.
      split; [now apply (buffer_consistent_same w)|].
      intros b Hin. now apply nothing_sent in Hin.
Qed.

(** Every state a task can find the object in is consistent. *)
Lemma observable_consistent (L : Libs) (w : world (codec L)) :
  decoder_whole_samples L -> observable L w -> buffer_consistent w.
Proof.
  intros Hw. induction 1 as [mac cid enable tok
                            | w message r w' t _ IH Hstep
                            | w message r w' t _ IH Hstep
                            | w w' t _ IH Hlen Hpatch
                            | w message c pcm w' t _ IH Hd Hpos Hlen Hpatch _
                            | w _ IH
                            | w _ IH].
  - apply buffer_consistent_fresh; reflexivity.
  - exact (proj1 (server_step_consistent L w message r w' t Hw IH Hstep)).
  - pose proof (keeps_client L audio_buffer message (fun _ _ => eq_refl) w) as Hb.
    pose proof (keeps_client L is_first_audio message (fun _ _ => eq_refl) w) as Hf.
    pose proof (keeps_client L total_samples message (fun _ _ => eq_refl) w) as Ht.
    rewrite Hstep in Hb, Hf, Ht. cbn [fst snd] in Hb, Hf, Ht.
    now apply (buffer_consistent_same w).
  - destruct (buffer_consistent_range w IH) as (H0 & Hflag & _).
    assert (Hf : is_first_audio (self w) = false).
    { apply Z.ltb_lt in Hlen. rewrite Hlen in Hflag.
      now destruct (is_first_audio (self w)). }
    destruct (Z.lt_ge_cases (total_samples (self w) * 2 + 36) 4294967296) as [H1 | H1].
    + rewrite (patch_and_send_eq L w H0 H1) in Hpatch. injection Hpatch as <- _.
      now apply buffer_consistent_after_patch.
    + rewrite (patch_and_send_overflow L w H0 H1) in Hpatch. discriminate.
  - destruct (Hw _ _ _ _ Hd) as [_ Hev].
    destruct (buffer_consistent_after_append w c pcm IH Hpos Hev) as (Hc1 & Hf1 & _).
    destruct (buffer_consistent_range _ Hc1) as (H0 & _).
    destruct (Z.lt_ge_cases
                (total_samples (self (after_append c pcm w)) * 2 + 36) 4294967296)
      as [H1 | H1].
    + rewrite (patch_and_send_eq L _ H0 H1) in Hpatch. injection Hpatch as <- _.
      now apply buffer_consistent_after_patch.
    + rewrite (patch_and_send_overflow L _ H0 H1) in Hpatch. discriminate.
  - apply buffer_consistent_fresh; reflexivity.
  - apply buffer_consistent_fresh; reflexivity.
Qed.

(** The states between complete loop bodies are among them. *)
Lemma reachable_observable (L : Libs) (w : world (codec L)) :
  reachable L w -> observable L w.
Proof.
  induction 1 as [mac cid enable tok
                 | w message r w' t _ IH Hstep
                 | w message r w' t _ IH Hstep].
  - apply obs_init.
  - exact (obs_server L w message r w' t IH Hstep).
  - exact (obs_client L w message r w' t IH Hstep).
Qed.

(** With a decoder that returns whole samples, every binary message the
    inbound pump sends to the client is a playable container: the 44-byte
    header of [n] samples, [0 < n] and [2 * n + 36 < 2^32], followed by
    exactly [2 * n] bytes of audio. This holds for any frames from upstream
    and from every state a task can find the proxy object in, the states in
    which the send of a flush failed or was cancelled before the reset
    included: the buffer may then be longer than the flush threshold. *)
Theorem every_container_playable (L : Libs) (frames : list frame) :
  decoder_whole_samples L ->
  forall w : world (codec L),
    observable L w ->
    forall b, ClientSend (Binary b) ∈ snd (handle_server_messages L frames w) ->
              well_formed_container b.
Proof.
  intros Hw w Ho. pose proof (observable_consistent L w Hw Ho) as Hc.
  clear Ho. revert w Hc. unfold handle_server_messages.
  induction frames as [|f frames IH]; intros w Hc b Hin; cbn [pump] in Hin.
  - apply elem_of_nil in Hin. contradiction.
  - destruct (handle_server_message L f w) as [[o w1] t1] eqn:Hstep.
    destruct (server_step_consistent L w f o w1 t1 Hw Hc Hstep) as (Hc1 & Hsent).
    destruct o as [u|e|]; cbn [snd] in Hin; try (now apply Hsent).
    specialize (IH w1 Hc1 b).
    destruct (pump L (handle_server_message L) frames w1) as [[r w2] t2].
    cbn [snd] in *. apply elem_of_app in Hin as [Hin | Hin]; [now apply Hsent | now apply IH].
Qed.

Lemma sample_decoder_whole : decoder_whole_samples sample_libs.
Proof.
  intros c message c' pcm_data H. cbn in H. unfold sample_decode in H.
  destruct message as [|lo [|hi [|x rest]]]; try discriminate.
  injection H as _ <-. split; [apply Z.leb_le|]; vm_compute; reflexivity.
Qed.

(** The send of a flush did not complete after the first frame: the
    container sent at the end of the stream holds that frame and the next. *)
Lemma every_container_playable_witness :
  observable sample_libs sample_world_unsent /\
  well_formed_container
    (wav_header 1920 ++ concat (repeat [x01; x02] 960) ++ concat (repeat [x03; x04] 960)).
Proof.
  assert (Ho : observable sample_libs sample_world_unsent).
  { apply (obs_text_flush_sending sample_libs
             (snd (fst (handle_server_message sample_libs (Binary [x01; x02])
                          sample_world)))
             sample_world_unsent
             [ClientSend (Binary (container
                (snd (fst (handle_server_message sample_libs (Binary [x01; x02])
                             sample_world)))))]).
    - eapply obs_server; [apply obs_init | apply run_eta].
    - vm_compute. reflexivity.
    - apply patch_and_send_eq; vm_compute; [discriminate | reflexivity]. }
  split; [exact Ho|].
  apply (every_container_playable sample_libs
           [Binary [x03; x04]; Text tts_stop_text] sample_decoder_whole
           sample_world_unsent Ho).
  apply (list_elem_of_lookup_2 _ 0%nat). vm_compute. reflexivity.
Defined.

(** ** The cadence of the periodic flush *)

Lemma decodes_960_app_inv (L : Libs) (l1 l2 : list bytes) :
  forall c pcms c',
    decodes_960 L c (l1 ++ l2) pcms c' ->
    exists p1 p2 cm,
      pcms = p1 ++ p2 /\ decodes_960 L c l1 p1 cm /\ decodes_960 L cm l2 p2 c'.
Proof.
  induction l1 as [|m l1 IH]; intros c pcms c' H.
  - exists [], pcms, c. split; [reflexivity|]. split; [constructor | exact H].
  - cbn [app] in H. inversion H as [|c0 m0 c1 pcm ms ps c'' Hd Hl Hrest]; subst.
    destruct (IH c1 ps c' Hrest) as (p1 & p2 & cm & -> & H1 & H2).
    exists (pcm :: p1), p2, cm. split; [reflexivity|].
    split; [econstructor; eassumption | exact H2].
Qed.

(** With frames of 960 samples the periodic flush comes at every
    seventeenth frame: sixteen frames (30720 bytes of audio) stay in the
    buffer and nothing is sent; the seventeenth makes the buffer pass
    [44 + 32000] bytes and all seventeen frames, 16320 samples, go out as one
    container. Afterwards the buffer is empty again and the decoder is the
    same object. *)
Theorem flush_every_seventeen_frames (L : Libs) (w : world (codec L))
    (msgs pcms : list bytes) (c' : codec L) :
  audio_buffer (self w) = [] ->
  is_first_audio (self w) = true ->
  total_samples (self w) = 0 ->
  decodes_960 L (dstate (decoder (self w))) msgs pcms c' ->
  ((length msgs <= 16)%nat ->
   snd (handle_server_messages L (map Binary msgs) w) = []) /\
  (length msgs = 17%nat ->
   exists w',
     handle_server_messages L (map Binary msgs) w =
       (StreamClosed, w', [ClientSend (Binary (wav_header (17 * 960) ++ concat pcms))]) /\
     audio_buffer (self w') = [] /\ total_samples (self w') = 0 /\
     is_first_audio (self w') = true /\
     decoder (self w') = {| handle := handle (decoder (self w)); dstate := c' |} /\
     decoders_made w' = decoders_made w).
Proof.
  intros Hbuf Hfirst Htot Hdec.
  assert (Hrun : forall m0 rest p0 prest c1 cK,
             codec_decode L (dstate (decoder (self w))) m0 = (c1, Some p0) ->
             length p0 = 1920%nat ->
             decodes_960 L c1 rest prest cK ->
             (length rest <= 15)%nat ->
             exists wK,
               handle_server_messages L (map Binary (m0 :: rest)) w =
                 (StreamClosed, wK, []) /\
               audio_buffer (self wK) = wav_header 960 ++ p0 ++ concat prest /\
               total_samples (self wK) = 960 + 960 * len rest /\
               is_first_audio (self wK) = false /\
               dstate (decoder (self wK)) = cK /\
               handle (decoder (self wK)) = handle (decoder (self w)) /\
               decoders_made wK = decoders_made w).
  { intros m0 rest p0 prest c1 cK Hd Hl Hrest Hlen.
    destruct (inbound_first_frame L w m0 c1 p0 Hfirst Hbuf Htot Hd Hl)
      as (Hstep & Hb1 & Ht1).
    assert (Hp0 : len p0 = 1920) by (unfold len; rewrite Hl; reflexivity).
    destruct (inbound_run_appends L c1 rest prest cK Hrest (after_append c1 p0 w))
      as (wK & HrunK & HbK & HtK & HfK & HcK & HhK & HmK).
    { reflexivity. }
    { reflexivity. }
    { rewrite Ht1. lia. }
    { rewrite Ht1, Hb1, len_app, len_wav_header, Hp0. lia. }
    { rewrite Hb1, len_app, len_wav_header, Hp0. unfold len. lia. }
    exists wK. unfold handle_server_messages in *. cbn [map].
    rewrite (pump_cons_ok L _ _ _ _ _ _ Hstep), HrunK. cbn [app].
    split; [reflexivity|].
    split; [rewrite HbK, Hb1; now rewrite <- app_assoc|].
    split; [rewrite HtK, Ht1; reflexivity|].
    repeat split; assumption. }
  split.
  - intros Hle.
    destruct Hdec as [c | c m0 c1 p0 rest prest cK Hd Hl Hrest]; [reflexivity|].
    cbn [length] in Hle.
    destruct (Hrun m0 rest p0 prest c1 cK Hd Hl Hrest ltac:(lia)) as (wK & H & _).
    now rewrite H.
  - intros H17.
    destruct msgs as [|m0 rest]; [discriminate|].
    destruct (exists_last (l := rest)) as (mid & mlast & ->);
      [intros ->; discriminate|].
    cbn [length] in H17. rewrite length_app in H17. cbn [length] in H17.
    inversion Hdec as [|c0 m0' c1 p0 ms ps cK Hd Hl Hrest]; subst.
    destruct (decodes_960_app_inv L mid [mlast] c1 ps c' Hrest)
      as (pmid & plast & cm & -> & Hmid & Hlast).
    inversion Hlast as [|c0 m' c2 pl ms' ps' c'' Hdl Hll Hnil]; subst.
    inversion Hnil; subst.
    destruct (Hrun m0 mid p0 pmid c1 cm Hd Hl Hmid ltac:(lia))
      as (wK & HK & HbK & HtK & HfK & HcK & HhK & HmK).
    destruct (decodes_960_lengths L c1 mid pmid cm Hmid) as [_ Hlc].
    assert (Hmidlen : len mid = 15) by (unfold len; lia).
    rewrite Hmidlen in Hlc, HtK.
    assert (Hp0 : len p0 = 1920) by (unfold len; rewrite Hl; reflexivity).
    assert (Hpl : len pl = 1920) by (unfold len; rewrite Hll; reflexivity).
    set (w1 := after_append c' pl wK).
    assert (Hb1 : audio_buffer (self w1) =
                  wav_header 960 ++ (p0 ++ concat pmid) ++ pl).
    { subst w1. unfold after_append, after_decode, with_self. fields.
      rewrite HfK, HbK, <- !app_assoc. reflexivity. }
    assert (Ht1 : total_samples (self w1) = 17 * 960).
    { subst w1. unfold after_append, after_decode, with_self. fields.
      rewrite HtK, Hpl. reflexivity. }
    assert (Hstep : handle_server_message L (Binary mlast) wK =
                    (Ok tt, after_reset_audio (after_patch w1),
                     [ClientSend (Binary (container w1))])).
    { cbn [handle_server_message].
      rewrite (handle_server_binary_decoded L wK mlast c' pl);
        [| now rewrite HcK | lia | fold w1; rewrite Ht1; lia | fold w1; rewrite Ht1; lia].
      fold w1. rewrite Hb1, !len_app, len_wav_header, Hp0, Hlc, Hpl. reflexivity. }
    exists (after_reset_audio (after_patch w1)).
    split.
    { unfold handle_server_messages in *.
      cbn [map] in HK |- *. rewrite map_app. cbn [map].
      change (Binary m0 :: map Binary mid ++ [Binary mlast])
        with ((Binary m0 :: map Binary mid) ++ [Binary mlast]).
      rewrite (pump_app L _ _ [Binary mlast] _ _ _ HK).
      rewrite (pump_cons_ok L _ _ _ _ _ _ Hstep). cbn [pump app].
      unfold container. rewrite Hb1, Ht1, patch_lengths_header.
      cbn [concat]. rewrite concat_app. cbn [concat].
      rewrite app_nil_r, <- !app_assoc. reflexivity. }
    subst w1. repeat split; try reflexivity.
    + cbn. now rewrite HhK.
    + cbn. exact HmK.
Qed.

Lemma flush_every_seventeen_frames_witness :
  snd (handle_server_messages sample_libs (map Binary sample_frames) sample_world) = [].
Proof.
  assert (Hd : decodes_960 sample_libs (dstate (decoder (self sample_world)))
                 sample_frames sample_pcms 2%nat)
    by (repeat (econstructor; try reflexivity)).
  apply (proj1 (flush_every_seventeen_frames sample_libs sample_world sample_frames
                  sample_pcms 2%nat eq_refl eq_refl eq_refl Hd)).
  cbn [length sample_frames]. lia.
Defined.

(** ** The domain of the header builder *)

(** [create_wav_header] returns a header exactly for the sample counts from
    0 to 2147483629, the largest whose [2 * n + 36] fits in 32 bits; for every
    other count [to_bytes] raises OverflowError and no header is built. Two
    counts in the domain with the same header are the same count. *)
Theorem create_wav_header_domain (n : Z) :
  create_wav_header n =
    (if (0 <=? n) && (n <=? 2147483629) then Ok (wav_header n)
     else Raise OverflowError) /\
  (forall m, 0 <= n <= 2147483629 -> 0 <= m <= 2147483629 ->
             create_wav_header m = create_wav_header n -> m = n).
Proof.
  assert (Hdom : forall k, create_wav_header k =
                           (if (0 <=? k) && (k <=? 2147483629) then Ok (wav_header k)
                            else Raise OverflowError)).
  { intros k.
    destruct (Z.leb_spec 0 k) as [H0|H0]; [destruct (Z.leb_spec k 2147483629) as [H1|H1]|];
      cbn [andb].
    - apply create_wav_header_ok; lia.
    - unfold create_wav_header, to_bytes.
      replace (k * 2 + 36 <? 256 ^ Z.of_nat 4) with false
        by (symmetry; apply Z.ltb_ge; change (256 ^ Z.of_nat 4) with 4294967296; lia).
      now rewrite andb_false_r.
    - unfold create_wav_header.
      destruct (to_bytes (k * 2 + 36) 4) as [b| |] eqn:E1; [| |].
      + unfold to_bytes in *.
        replace (0 <=? k * 2) with false by (symmetry; apply Z.leb_gt; lia).
        reflexivity.
      + unfold to_bytes in E1. destruct (_ && _); [discriminate|].
        now injection E1 as <-.
      + exfalso. now apply (to_bytes_not_loops (k * 2 + 36) 4). }
  split; [apply Hdom|].
  intros m Hn Hm E. rewrite !Hdom in E.
  rewrite !(proj2 (andb_true_iff _ _)) in E
    by (split; apply Z.leb_le; lia).
  assert (Hs : forall k, slice 4 8 (wav_header k) = le_bytes 4 (k * 2 + 36)).
  { intros k. unfold wav_header.
    destruct (le_bytes_4_shape (k * 2 + 36)) as (a & b & c & d & ->).
    destruct (le_bytes_4_shape (k * 2)) as (a' & b' & c' & d' & ->).
    reflexivity. }
  apply (f_equal (fun o => match o with Ok h => le_value (slice 4 8 h) | _ => 0 end)) in E.
  cbv beta iota in E. rewrite !Hs in E.
  rewrite !le_value_le_bytes in E by lia.
  rewrite !Z.mod_small in E by (change (256 ^ Z.of_nat 4) with 4294967296; lia).
  lia.
Qed.
